(** * Channel manipulation of cmplayer: text form and default derivation

    A shallow embedding of the channel-manipulation part of
    [src/cmplayer/videorendereritem.cpp] (the translation unit that follows
    the include of channelmanipulation.hpp): the [ChNames] table,
    [ChannelManipulation::toString] / [fromString], [speakersInLayout],
    [ChannelLayoutMap::default_] and [ChannelLayoutMap::toString] /
    [fromString].

    Conventions.
    - [mp_speaker_id] and [ChannelLayout] are C++ enumerations over [int];
      they are integers ([Z]) here, bit tests are [Z.land].
    - [QString] is [string]; [QStringList] and [QVector] are lists.
    - [m_mix] is an array of source lists indexed by [mp_speaker_id]; it is
      a list read with [!!] and updated with [alter] / [<[_:=_]>]. *)

From Stdlib Require Import ZArith String Ascii List Lia Bool.
From stdpp Require Import base decidable option list strings.
Import ListNotations.

Local Open Scope string_scope.
Local Open Scope list_scope.

(** ** QString and QStringList *)

Module QStr.

Abbreviation QString := string (only parsing).
Abbreviation QStringList := (list string) (only parsing).

Definition isEmpty (s : QString) : bool :=
  match s with EmptyString => true | String _ _ => false end.

(** [QString::contains(QChar)] *)
Fixpoint contains (c : ascii) (s : QString) : bool :=
  match s with
  | EmptyString => false
  | String x rest => Ascii.eqb x c || contains c rest
  end.

(** [QString::split(sep)] with the default [QString::KeepEmptyParts]:
    the empty string splits into one empty part. *)
Fixpoint split (sep : ascii) (s : QString) : QStringList :=
  match s with
  | EmptyString => [EmptyString]
  | String x rest =>
      if Ascii.eqb x sep then EmptyString :: split sep rest
      else match split sep rest with
           | part :: parts => String x part :: parts
           | [] => [String x EmptyString]
           end
  end.

(** [QString::split(sep, QString::SkipEmptyParts)] *)
Definition splitSkipEmpty (sep : ascii) (s : QString) : QStringList :=
  List.filter (fun part => negb (isEmpty part)) (split sep s).

(** [QStringList::join(sep)] *)
Fixpoint join (sep : ascii) (parts : QStringList) : QString :=
  match parts with
  | [] => EmptyString
  | [part] => part
  | part :: rest => part +:+ String sep (join sep rest)
  end.

End QStr.
Import QStr.

(** ** Speaker identifiers of the mixer and their names *)

Abbreviation mp_speaker_id := Z (only parsing).

(** The table [ChNames] is indexed by [mp_speaker_id]; the source reads
    [ChNames[MP_SPEAKER_ID_FL]] .. [ChNames[MP_SPEAKER_ID_SR]], so the eleven
    canonical identifiers are the indices 0 .. 10 of the table. *)
Definition MP_SPEAKER_ID_FL : mp_speaker_id := 0.
Definition MP_SPEAKER_ID_FR : mp_speaker_id := 1.
Definition MP_SPEAKER_ID_FC : mp_speaker_id := 2.
Definition MP_SPEAKER_ID_LFE : mp_speaker_id := 3.
Definition MP_SPEAKER_ID_BL : mp_speaker_id := 4.
Definition MP_SPEAKER_ID_BR : mp_speaker_id := 5.
Definition MP_SPEAKER_ID_FLC : mp_speaker_id := 6.
Definition MP_SPEAKER_ID_FRC : mp_speaker_id := 7.
Definition MP_SPEAKER_ID_BC : mp_speaker_id := 8.
Definition MP_SPEAKER_ID_SL : mp_speaker_id := 9.
Definition MP_SPEAKER_ID_SR : mp_speaker_id := 10.

Record ChannelName := mkChannelName { abbr : string; desc : string }.

Definition ChNames : list ChannelName :=
  [ mkChannelName "FL" "Front Left";
    mkChannelName "FR" "Front Right";
    mkChannelName "FC" "Front Center";
    mkChannelName "LFE" "Low Frequency Effects";
    mkChannelName "BL" "Back Left";
    mkChannelName "BR" "Back Right";
    mkChannelName "FLC" "Front Left-of-Center";
    mkChannelName "FRC" "Front Right-of-Center";
    mkChannelName "BC" "Back Center";
    mkChannelName "SL" "Side Left";
    mkChannelName "SR" "Side Right" ].

Definition ChNamesSize : nat := Eval cbv in length ChNames.

(** [ChNames[i].abbr]. Reading outside the table is undefined in the source;
    the model yields the empty name there and no theorem relies on it. *)
Definition ChNames_abbr (i : mp_speaker_id) : QString :=
  if (i <? 0)%Z then EmptyString
  else match ChNames !! Z.to_nat i with
       | Some n => abbr n
       | None => EmptyString
       end.

(** The canonical range tested by [toString]. *)
Definition canonical (speaker : mp_speaker_id) : bool :=
  (MP_SPEAKER_ID_FL <=? speaker)%Z && (speaker <=? MP_SPEAKER_ID_SR)%Z.

(** ** ChannelManipulation *)

Abbreviation SourceArray := (list Z) (only parsing).

Record ChannelManipulation := mkChannelManipulation { m_mix : list (list Z) }.

Module CM.

(** Modelled from the spec: [sources(out)], that is [m_mix[out]]; the
    accessor is declared in channelmanipulation.hpp, which is not under
    src/; the spec has "returns empty sequence if unset". *)
Definition sources (man : ChannelManipulation) (out : mp_speaker_id) : SourceArray :=
  if (out <? 0)%Z then [] else default [] (m_mix man !! Z.to_nat out).

(** Modelled from the spec: [set(dest, src)], that is [m_mix[dest] = src];
    the mutator is declared in channelmanipulation.hpp, which is not under
    src/; the spec has "replaces the source list for destination". A
    destination outside the array is left alone by the model. *)
Definition set (dest : mp_speaker_id) (src : SourceArray) (man : ChannelManipulation)
  : ChannelManipulation :=
  if (dest <? 0)%Z then man
  else mkChannelManipulation (<[Z.to_nat dest := src]> (m_mix man)).

(** [ChannelManipulation::toString] *)
Definition toString_body (mix : list (list Z)) (list : QStringList) (i : nat)
  : QStringList :=
  let speaker := Z.of_nat i in
  let srcs_i := default [] (mix !! i) in
  if canonical speaker && negb (bool_decide (srcs_i = [])) then
    let srcs := map ChNames_abbr srcs_i in
    list ++ [ChNames_abbr speaker +:+ String "!" (join "/" srcs)]
  else list.

Definition toString (man : ChannelManipulation) : QString :=
  let list := foldl (toString_body (m_mix man)) [] (seq 0 (length (m_mix man))) in
  join "," list.

Section Parse.

(** [MP_SPEAKER_ID_COUNT], the size of [m_mix], and [MP_SPEAKER_ID_NONE],
    the value [nameToId] returns for an unknown name, come from headers
    that are not under src/: both are parameters. *)
Variable MP_SPEAKER_ID_COUNT : nat.
Variable MP_SPEAKER_ID_NONE : mp_speaker_id.

(** Modelled from the spec: the default constructor, declared in
    channelmanipulation.hpp, which is not under src/; the spec has "ordered
    sequence indexed by speaker id, most slots empty" and "absent entries
    mean no contribution": every slot of [m_mix] is empty. *)
Definition empty : ChannelManipulation :=
  mkChannelManipulation (replicate MP_SPEAKER_ID_COUNT []).

(** The lambda [nameToId] of [fromString]. *)
Fixpoint nameToId_loop (names : list ChannelName) (i : Z) (name : QString)
  : mp_speaker_id :=
  match names with
  | [] => MP_SPEAKER_ID_NONE
  | n :: rest =>
      if String.eqb name (abbr n) then i
      else nameToId_loop rest (i + 1)%Z name
  end.

Definition nameToId (name : QString) : mp_speaker_id :=
  nameToId_loop ChNames 0%Z name.

(** The inner loop of [fromString]: known names are appended in order. *)
Definition parseSources (srcs : QStringList) : SourceArray :=
  foldl (fun sources name =>
           let src := nameToId name in
           if (src =? MP_SPEAKER_ID_NONE)%Z then sources
           else sources ++ [src]) [] srcs.

(** One iteration of the outer loop of [fromString]; [continue] returns
    the manipulation unchanged. *)
Definition fromString_body (man : ChannelManipulation) (one : QString)
  : ChannelManipulation :=
  match splitSkipEmpty "!" one with
  | [map0; map1] =>
      let dest := nameToId map0 in
      if (dest =? MP_SPEAKER_ID_NONE)%Z then man
      else
        let srcs := splitSkipEmpty "/" map1 in
        let sources := parseSources srcs in
        if negb (bool_decide (sources = [])) then set dest sources man
        else man
  | _ => man
  end.

Definition fromString (text : QString) : ChannelManipulation :=
  foldl fromString_body empty (split "," text).

End Parse.

End CM.

(** ** SpeakerId and ChannelLayout *)

Inductive SpeakerId :=
| FrontLeft | FrontRight | FrontCenter | LowFrequency | BackLeft | BackRight
| FrontLeftCenter | FrontRightCenter | BackCenter | SideLeft | SideRight.

#[global] Instance SpeakerId_eq_dec : EqDecision SpeakerId.
Proof. solve_decision. Defined.

Abbreviation ChannelLayout := Z (only parsing).

Module Speaker.

(** Modelled from the spec: the enumerators of [SpeakerId] are declared in
    enums.hpp, which is not under src/; the spec has "each value is a
    distinct power-of-two bit", listed in the order of [speakersInLayout]. *)
Definition value (speaker : SpeakerId) : Z :=
  match speaker with
  | FrontLeft => Z.shiftl 1 0
  | FrontRight => Z.shiftl 1 1
  | FrontCenter => Z.shiftl 1 2
  | LowFrequency => Z.shiftl 1 3
  | BackLeft => Z.shiftl 1 4
  | BackRight => Z.shiftl 1 5
  | FrontLeftCenter => Z.shiftl 1 6
  | FrontRightCenter => Z.shiftl 1 7
  | BackCenter => Z.shiftl 1 8
  | SideLeft => Z.shiftl 1 9
  | SideRight => Z.shiftl 1 10
  end.

(** Modelled from the spec: [to_mp_speaker_id], that is
    [SpeakerIdInfo::data], a table of enums.hpp, which is not under src/;
    the spec identifies each [SpeakerId] with the mixer speaker of the same
    position (the source itself writes [mix[MP_SPEAKER_ID_FC]] for
    FrontCenter and [mix[MP_SPEAKER_ID_FL]] for FrontLeft). *)
Definition to_mp_speaker_id (speaker : SpeakerId) : mp_speaker_id :=
  match speaker with
  | FrontLeft => MP_SPEAKER_ID_FL
  | FrontRight => MP_SPEAKER_ID_FR
  | FrontCenter => MP_SPEAKER_ID_FC
  | LowFrequency => MP_SPEAKER_ID_LFE
  | BackLeft => MP_SPEAKER_ID_BL
  | BackRight => MP_SPEAKER_ID_BR
  | FrontLeftCenter => MP_SPEAKER_ID_FLC
  | FrontRightCenter => MP_SPEAKER_ID_FRC
  | BackCenter => MP_SPEAKER_ID_BC
  | SideLeft => MP_SPEAKER_ID_SL
  | SideRight => MP_SPEAKER_ID_SR
  end.

(** The truth value of an [int] used as a condition. *)
Definition nonzero (x : Z) : bool := negb (x =? 0)%Z.

(** The macro [CHECK(a)] of [speakersInLayout]. *)
Definition CHECK (layout : ChannelLayout) (a : SpeakerId) (list : list SpeakerId)
  : Datatypes.list SpeakerId :=
  if nonzero (Z.land (value a) layout) then list ++ [a] else list.

Definition speakersInLayout (layout : ChannelLayout) : list SpeakerId :=
  let list := [] in
  let list := CHECK layout FrontLeft list in
  let list := CHECK layout FrontRight list in
  let list := CHECK layout FrontCenter list in
  let list := CHECK layout LowFrequency list in
  let list := CHECK layout BackLeft list in
  let list := CHECK layout BackRight list in
  let list := CHECK layout FrontLeftCenter list in
  let list := CHECK layout FrontRightCenter list in
  let list := CHECK layout BackCenter list in
  let list := CHECK layout SideLeft list in
  let list := CHECK layout SideRight list in
  list.

(** A speaker is present in a layout when its bit is set. *)
Definition present (speaker : SpeakerId) (layout : ChannelLayout) : bool :=
  nonzero (Z.land (value speaker) layout).

End Speaker.

(** ** The mixing loop of [default_]: a state monad over [m_mix] that can
    abort on [Q_ASSERT] *)

Module MixM.

Definition t (A : Type) : Type := list (list Z) -> option (A * list (list Z)).

Definition ret {A} (a : A) : t A := fun mix => Some (a, mix).

Definition bind {A B} (c : t A) (k : A -> t B) : t B :=
  fun mix => match c mix with
             | Some (a, mix') => k a mix'
             | None => None
             end.

(** [mix[dest] << src] *)
Definition append (dest src : mp_speaker_id) : t unit :=
  fun mix => Some (tt, alter (fun srcs => srcs ++ [src]) (Z.to_nat dest) mix).

(** [Q_ASSERT(cond)]: with QT_NO_DEBUG the macro expands to nothing;
    without it the run aborts when [cond] is false. *)
Definition Q_ASSERT (QT_NO_DEBUG cond : bool) : t unit :=
  fun mix => if QT_NO_DEBUG || cond then Some (tt, mix) else None.

(** [!a], [a || b] and [a && b] on calls that change [mix]; the right
    operand runs only when the left one does not decide. *)
Definition not_ (a : t bool) : t bool := bind a (fun x => ret (negb x)).
Definition or_ (a b : t bool) : t bool := bind a (fun x => if x then ret true else b).
Definition and_ (a b : t bool) : t bool := bind a (fun x => if x then b else ret false).

(** [if (c) body;] *)
Definition when_ (c : t bool) (body : t unit) : t unit :=
  bind c (fun x => if x then body else ret tt).

(** [for (auto x : xs) body(x);] *)
Fixpoint for_ {A} (xs : list A) (body : A -> t unit) : t unit :=
  match xs with
  | [] => ret tt
  | x :: rest => bind (body x) (fun _ => for_ rest body)
  end.

End MixM.

Notation "x <- c ;; k" := (MixM.bind c (fun x => k))
  (at level 100, c at next level, right associativity).
Notation "c ;;; k" := (MixM.bind c (fun _ => k))
  (at level 100, right associativity).

(** ** QMap: keys in ascending order *)

Module QMap.

Definition t (V : Type) : Type := list (Z * V).

(** [QMap::find] / [QMap::contains] *)
Fixpoint find {V} (key : Z) (m : t V) : option V :=
  match m with
  | [] => None
  | (k, v) :: rest => if (k =? key)%Z then Some v else find key rest
  end.

(** [QMap::insert]: the value of an existing key is replaced, a new key is
    put at its place in the ascending order. *)
Fixpoint insert {V} (key : Z) (v : V) (m : t V) : t V :=
  match m with
  | [] => [(key, v)]
  | (k, w) :: rest =>
      if (key <? k)%Z then (key, v) :: m
      else if (key =? k)%Z then (key, v) :: rest
      else (k, w) :: insert key v rest
  end.

(** The value read through [operator[]]: a default-constructed value when
    the key is absent. *)
Definition value {V} (key : Z) (dflt : V) (m : t V) : V :=
  default dflt (find key m).

(** The class invariant: every key is below the keys after it. *)
Fixpoint ascending {V} (m : t V) : Prop :=
  match m with
  | [] => True
  | (k, _) :: rest => Forall (fun kv => (k < fst kv)%Z) rest /\ ascending rest
  end.

End QMap.

(** ** ChannelLayoutMap *)

Record ChannelLayoutMap :=
  mkChannelLayoutMap { m_map : QMap.t (QMap.t ChannelManipulation) }.

Module CLM.

(** The entries of the map in iteration order, as the nested loops of
    [toString] visit them. *)
Definition entries (map : ChannelLayoutMap) : list (Z * Z * ChannelManipulation) :=
  flat_map (fun '(src, inner) => List.map (fun '(dst, man) => (src, dst, man)) inner)
           (m_map map).

(** [ChannelLayoutMap::toString]; [name] is [ChannelLayoutInfo::name] of
    enums.hpp, which is not under src/. *)
Definition toString_inner (srcName : QString) (dstName : ChannelLayout -> QString)
    (list : QStringList) (dit : Z * ChannelManipulation) : QStringList :=
  list ++ [srcName +:+ ":" +:+ dstName (fst dit) +:+ ":" +:+ CM.toString (snd dit)].

Definition toString_outer (name : ChannelLayout -> QString)
    (list : QStringList) (sit : Z * QMap.t ChannelManipulation) : QStringList :=
  let srcName := name (fst sit) in
  foldl (toString_inner srcName name) list (snd sit).

Definition toString (name : ChannelLayout -> QString) (map : ChannelLayoutMap) : QString :=
  join "#" (foldl (toString_outer name) [] (m_map map)).

Section Map.

Variable MP_SPEAKER_ID_COUNT : nat.
Variable MP_SPEAKER_ID_NONE : mp_speaker_id.

(** Modelled from the spec: reading [operator()(src, dest)], that is
    [m_map[src][dest]]; the operator is in channelmanipulation.hpp, which
    is not under src/; the spec has "creates a default-initialized empty
    entry if absent". *)
Definition at_ (map : ChannelLayoutMap) (src dest : ChannelLayout) : ChannelManipulation :=
  QMap.value dest (CM.empty MP_SPEAKER_ID_COUNT) (QMap.value src [] (m_map map)).

(** Modelled from the spec: writing through the reference that
    [operator()(src, dest)] (channelmanipulation.hpp, not under src/)
    returns; the spec has "mutable access". *)
Definition assign (map : ChannelLayoutMap) (src dest : ChannelLayout)
    (man : ChannelManipulation) : ChannelLayoutMap :=
  mkChannelLayoutMap
    (QMap.insert src (QMap.insert dest man (QMap.value src [] (m_map map))) (m_map map)).

(** [ChannelLayoutMap::fromString]; [from] is [ChannelLayoutInfo::from] of
    enums.hpp, which is not under src/. *)
Definition fromString_body (from : QString -> ChannelLayout)
    (map : ChannelLayoutMap) (one : QString) : ChannelLayoutMap :=
  match splitSkipEmpty ":" one with
  | [parts0; parts1; parts2] =>
      let src := from parts0 in
      let dst := from parts1 in
      let man := CM.fromString MP_SPEAKER_ID_COUNT MP_SPEAKER_ID_NONE parts2 in
      assign map src dst man
  | _ => map
  end.

Definition fromString (from : QString -> ChannelLayout) (text : QString)
  : ChannelLayoutMap :=
  foldl (fromString_body from) (mkChannelLayoutMap []) (splitSkipEmpty "#" text).

(** *** default_ *)

(** [ChannelLayout::Default] and [ChannelLayout::Mono] are enumerators of
    enums.hpp, which is not under src/: parameters. *)
Variable Default Mono : ChannelLayout.

(** Whether the build defines QT_NO_DEBUG. *)
Variable QT_NO_DEBUG : bool.

Section Speaker.

Variable dstLayout : ChannelLayout.
Variable mps : mp_speaker_id.

Definition testAndSet (id : SpeakerId) : MixM.t bool :=
  if Speaker.nonzero (Z.land dstLayout (Speaker.value id)) then
    MixM.append (Speaker.to_mp_speaker_id id) mps ;;;
    MixM.ret true
  else MixM.ret false.

Definition testAndSet2 (left right : SpeakerId) : MixM.t bool :=
  if Speaker.nonzero
       (Z.land dstLayout (Z.lor (Speaker.value left) (Speaker.value right))) then
    MixM.append (Speaker.to_mp_speaker_id left) mps ;;;
    MixM.append (Speaker.to_mp_speaker_id right) mps ;;;
    MixM.ret true
  else MixM.ret false.

Definition setLeft : MixM.t unit := MixM.append MP_SPEAKER_ID_FL mps.
Definition setRight : MixM.t unit := MixM.append MP_SPEAKER_ID_FR mps.
Definition setBoth : MixM.t unit := setLeft ;;; setRight.

(** The [switch (srcSpeaker)]. BackLeft and BackRight fall through to the
    next case when neither test succeeds. *)
Definition switch_ (srcSpeaker : SpeakerId) : MixM.t unit :=
  match srcSpeaker with
  | FrontLeft | FrontRight => MixM.Q_ASSERT QT_NO_DEBUG false
  | LowFrequency =>
      MixM.when_ (MixM.or_ (MixM.not_ (testAndSet FrontCenter))
                           (MixM.not_ (testAndSet FrontLeftCenter)))
                 setLeft
  | FrontCenter =>
      MixM.when_ (MixM.not_ (testAndSet2 FrontLeftCenter FrontRightCenter)) setBoth
  | BackLeft =>
      stop <- MixM.or_ (testAndSet BackCenter) (testAndSet SideLeft) ;;
      if stop then MixM.ret tt else setLeft
  | FrontLeftCenter => setLeft
  | BackRight =>
      stop <- MixM.or_ (testAndSet BackCenter) (testAndSet SideRight) ;;
      if stop then MixM.ret tt else setRight
  | FrontRightCenter => setRight
  | SideRight => MixM.when_ (MixM.not_ (testAndSet BackRight)) setRight
  | SideLeft => MixM.when_ (MixM.not_ (testAndSet BackLeft)) setLeft
  | BackCenter =>
      MixM.when_ (MixM.and_ (MixM.not_ (testAndSet2 BackLeft BackRight))
                            (MixM.not_ (testAndSet2 SideLeft SideRight)))
                 setBoth
  end.

End Speaker.

(** The body of [for (auto srcSpeaker : srcSpeakers)]. *)
Definition mixSpeaker (dstLayout : ChannelLayout) (srcSpeaker : SpeakerId) : MixM.t unit :=
  let mps := Speaker.to_mp_speaker_id srcSpeaker in
  if Speaker.nonzero (Z.land (Speaker.value srcSpeaker) dstLayout) then
    MixM.append mps mps
  else if (dstLayout =? Mono)%Z then
    MixM.append MP_SPEAKER_ID_FC mps
  else switch_ dstLayout mps srcSpeaker.

(** A loop over the layouts that can abort. *)
Fixpoint forLayouts (items : list ChannelLayout)
    (body : ChannelLayoutMap -> ChannelLayout -> option ChannelLayoutMap)
    (map : ChannelLayoutMap) : option ChannelLayoutMap :=
  match items with
  | [] => Some map
  | item :: rest =>
      match body map item with
      | Some map' => forLayouts rest body map'
      | None => None
      end
  end.

(** The body of [for (auto &dstItem : items)]: [mix] is a reference into
    the map, so the finished array is stored back. *)
Definition default_dst (srcLayout : ChannelLayout) (srcSpeakers : list SpeakerId)
    (map : ChannelLayoutMap) (dstLayout : ChannelLayout) : option ChannelLayoutMap :=
  if (dstLayout =? Default)%Z then Some map
  else
    let mix := m_mix (at_ map srcLayout dstLayout) in
    match MixM.for_ srcSpeakers (mixSpeaker dstLayout) mix with
    | Some (_, mix') =>
        Some (assign map srcLayout dstLayout (mkChannelManipulation mix'))
    | None => None
    end.

(** The body of [for (auto &srcItem : items)]. *)
Definition default_src (items : list ChannelLayout)
    (map : ChannelLayoutMap) (srcLayout : ChannelLayout) : option ChannelLayoutMap :=
  if (srcLayout =? Default)%Z then Some map
  else
    let srcSpeakers := Speaker.speakersInLayout srcLayout in
    forLayouts items (default_dst srcLayout srcSpeakers) map.

(** [ChannelLayoutMap::default_]; [items] are the values of
    [ChannelLayoutInfo::items()], a table of enums.hpp (not under src/).
    [None] is an aborted run (a failing [Q_ASSERT] without QT_NO_DEBUG). *)
Definition default_ (items : list ChannelLayout) : option ChannelLayoutMap :=
  forLayouts items (default_src items) (mkChannelLayoutMap []).

End Map.

End CLM.

(** ** Conditions on a manipulation used by the round-trip statements *)

(** No destination after [MP_SPEAKER_ID_SR] is set. *)
Definition destinations_canonical (man : ChannelManipulation) : Prop :=
  Forall (fun srcs => srcs = []) (drop ChNamesSize (m_mix man)).

(** Every listed source is one of the eleven canonical speakers. *)
Definition sources_canonical (man : ChannelManipulation) : Prop :=
  Forall (Forall (fun src => canonical src = true)) (m_mix man).

(** ** Conditions and readings used by the statements on [default_] *)

Module Derivation.

(** The entry stored for a pair of layouts, if there is one. *)
Definition lookup (map : ChannelLayoutMap) (src dest : ChannelLayout)
  : option ChannelManipulation :=
  match QMap.find src (m_map map) with
  | Some inner => QMap.find dest inner
  | None => None
  end.

(** The eleven speakers in the order of [speakersInLayout]. *)
Definition speakers : list SpeakerId :=
  [FrontLeft; FrontRight; FrontCenter; LowFrequency; BackLeft; BackRight;
   FrontLeftCenter; FrontRightCenter; BackCenter; SideLeft; SideRight].

(** Every layout of the table other than Default and Mono has FrontLeft
    and FrontRight: no pair of layouts then reaches the [Q_ASSERT]. *)
Definition stereo_based (Default Mono : ChannelLayout) (items : list ChannelLayout)
  : Prop :=
  Forall (fun layout =>
            layout = Default \/ layout = Mono \/
            (Speaker.present FrontLeft layout = true /\
             Speaker.present FrontRight layout = true)) items.

(** The speaker loop of [default_] for one pair of layouts, run on a fresh
    array. *)
Definition derive (MP_SPEAKER_ID_COUNT : nat) (Mono : ChannelLayout)
    (QT_NO_DEBUG : bool) (srcLayout dstLayout : ChannelLayout)
  : option (unit * list (list Z)) :=
  MixM.for_ (Speaker.speakersInLayout srcLayout)
            (CLM.mixSpeaker Mono QT_NO_DEBUG dstLayout)
            (replicate MP_SPEAKER_ID_COUNT []).

(** Slot by slot, [mix] followed by [more]. *)
Definition pointwise (mix more : list (list Z)) : list (list Z) :=
  zip_with app mix more.

(** A computation that only appends: on any array of the size of [m_mix]
    it returns what it returns on the fresh array and appends, slot by
    slot, what it writes there. *)
Definition Framed {A} (MP_SPEAKER_ID_COUNT : nat) (c : MixM.t A) : Prop :=
  forall mix : list (list Z),
    length mix = MP_SPEAKER_ID_COUNT ->
    match c (replicate MP_SPEAKER_ID_COUNT []) with
    | Some (a, more) =>
        length more = MP_SPEAKER_ID_COUNT /\ c mix = Some (a, pointwise mix more)
    | None => c mix = None
    end.

(** A layout whose name is usable in the text of a map: not empty, free
    of the two separators, and read back as the layout. [name] and [from]
    stand for [ChannelLayoutInfo::name] and [ChannelLayoutInfo::from]. *)
Definition named (name : ChannelLayout -> QString) (from : QString -> ChannelLayout)
    (layout : ChannelLayout) : Prop :=
  from (name layout) = layout /\
  isEmpty (name layout) = false /\
  contains ":" (name layout) = false /\
  contains "#" (name layout) = false.

(** A manipulation that its text determines and that is not the fresh
    one. *)
Definition storable (MP_SPEAKER_ID_COUNT : nat) (man : ChannelManipulation) : Prop :=
  length (m_mix man) = MP_SPEAKER_ID_COUNT /\
  destinations_canonical man /\
  sources_canonical man /\
  man <> CM.empty MP_SPEAKER_ID_COUNT.

(** The invariant of the two levels of [m_map]. *)
Definition ascending (map : ChannelLayoutMap) : Prop :=
  QMap.ascending (m_map map) /\
  Forall (fun sit => QMap.ascending (snd sit)) (m_map map).

End Derivation.

(** ** Sample inputs *)

Module Sample.

(** Values for the two parameters of the parser. *)
Definition MP_SPEAKER_ID_COUNT : nat := 64.
Definition MP_SPEAKER_ID_NONE : Z := (-1)%Z.

(** A debug build: [Q_ASSERT] is active. *)
Definition QT_NO_DEBUG : bool := false.

(** Modelled from the spec: rows of the layout table of enums.hpp, which is
    not under src/. The source names [Default], [Mono] and [_2_0]; the spec
    has "named layouts (mono, stereo, 5.1, 7.1, etc.) as bitmasks over
    SpeakerCatalog entries" and Default as the sentinel. [_3_0] and [_5_0]
    are the usual 3.0 and 5.0 layouts, taken as two more rows. *)
Definition Default : ChannelLayout := 0%Z.
Definition Mono : ChannelLayout := Speaker.value FrontCenter.
Definition _2_0 : ChannelLayout :=
  Z.lor (Speaker.value FrontLeft) (Speaker.value FrontRight).
Definition _3_0 : ChannelLayout := Z.lor _2_0 (Speaker.value FrontCenter).
Definition _5_0 : ChannelLayout :=
  Z.lor _3_0 (Z.lor (Speaker.value BackLeft) (Speaker.value BackRight)).
Definition _5_1 : ChannelLayout := Z.lor _5_0 (Speaker.value LowFrequency).
Definition _7_1 : ChannelLayout :=
  Z.lor _5_1 (Z.lor (Speaker.value SideLeft) (Speaker.value SideRight)).

(** A layout with FrontLeftCenter and without FrontRightCenter. *)
Definition front_left_wide : ChannelLayout :=
  Z.lor _2_0 (Speaker.value FrontLeftCenter).

Definition items : list ChannelLayout :=
  [Default; Mono; _2_0; _3_0; _5_0; _5_1; _7_1].

(** The same table with the layout that has one of the two speakers left
    and right of the centre. *)
Definition items_wide : list ChannelLayout := items ++ [front_left_wide].

Definition names : list (ChannelLayout * string) :=
  [(Default, "Default"); (Mono, "Mono"); (_2_0, "_2_0"); (_3_0, "_3_0");
   (_5_0, "_5_0"); (_5_1, "_5_1"); (_7_1, "_7_1")].

(** Modelled from the spec: [ChannelLayoutInfo::name] of enums.hpp, which
    is not under src/; the spec has "no failure modes beyond not found":
    the empty string for a value without row. *)
Definition name (layout : ChannelLayout) : string :=
  match List.find (fun row => (fst row =? layout)%Z) names with
  | Some row => snd row
  | None => EmptyString
  end.

(** Modelled from the spec: [ChannelLayoutInfo::from] of enums.hpp, which
    is not under src/; [Default] for a name without row. *)
Definition from (text : string) : ChannelLayout :=
  match List.find (fun row => String.eqb (snd row) text) names with
  | Some row => fst row
  | None => Default
  end.

(** FL fed by FL and BL, FC fed by FL and FR. *)
Definition man : ChannelManipulation :=
  CM.set MP_SPEAKER_ID_FC [MP_SPEAKER_ID_FL; MP_SPEAKER_ID_FR]
    (CM.set MP_SPEAKER_ID_FL [MP_SPEAKER_ID_FL; MP_SPEAKER_ID_BL]
       (CM.empty MP_SPEAKER_ID_COUNT)).

(** A map with one entry, made by [operator()] and never written. *)
Definition untouched : ChannelLayoutMap :=
  CLM.assign (mkChannelLayoutMap []) _2_0 _2_0 (CM.empty MP_SPEAKER_ID_COUNT).

(** A map with one entry whose manipulation also feeds the slot after
    [MP_SPEAKER_ID_SR]. *)
Definition beyond : ChannelLayoutMap :=
  CLM.assign (mkChannelLayoutMap []) _2_0 _2_0
    (CM.set (MP_SPEAKER_ID_SR + 1) [MP_SPEAKER_ID_FL]
       (CM.set MP_SPEAKER_ID_FL [MP_SPEAKER_ID_FL]
          (CM.empty MP_SPEAKER_ID_COUNT))).

(** A map with two entries under one source layout and one under another. *)
Definition edited : ChannelLayoutMap :=
  CLM.assign
    (CLM.assign
       (CLM.assign (mkChannelLayoutMap []) _5_1 _2_0 man)
       _2_0 Mono man)
    _2_0 _2_0
    (CM.set MP_SPEAKER_ID_FR [MP_SPEAKER_ID_FR] (CM.empty MP_SPEAKER_ID_COUNT)).

End Sample.

(** ** Resolving a channel map of the mixer *)

(** [mp_chmap], the channel map of the mixer (its chmap.h is not part of
    these sources): [num] channels, whose speakers are the first [num]
    slots of the array [speaker]. *)
Record mp_chmap := mk_mp_chmap { num : nat; speaker : list Z }.

Module Resolve.

(** Modelled from the spec: [SpeakerIdInfo::items()], a table of enums.hpp,
    which is not under src/; one row per [SpeakerId], in the order of the
    enumeration, with [value] the enumerator and [data] the speaker of the
    mixer ([Speaker.value] and [Speaker.to_mp_speaker_id]). *)
Definition items : list SpeakerId := Derivation.speakers.

(** The lambda [toSpeakerId] of [operator()(const mp_chmap &, const
    mp_chmap &)]: the first row whose [data] is [mp]; the message
    "Cannot convert mp_chmap!!" and FrontLeft when there is none. *)
Definition toSpeakerId (mp : Z) : SpeakerId :=
  match List.find (fun item => (Speaker.to_mp_speaker_id item =? mp)%Z) items with
  | Some item => item
  | None => FrontLeft
  end.

(** [chmap.speaker[i]]; the model reads 0 after the end of the list. *)
Definition speaker_at (chmap : mp_chmap) (i : nat) : Z :=
  default 0%Z (speaker chmap !! i).

(** The loop of the lambda [toLayout]: the [int] that is handed to
    [ChannelLayoutInfo::from]. *)
Definition layoutBits (chmap : mp_chmap) : Z :=
  foldl (fun layout i =>
           Z.lor layout (Speaker.value (toSpeakerId (speaker_at chmap i))))
        0%Z (seq 0 (num chmap)).

Section Lookup.

Variable MP_SPEAKER_ID_COUNT : nat.

(** [ChannelLayoutInfo::from(int)] of enums.hpp, which is not under src/:
    a parameter. *)
Variable from_int : Z -> ChannelLayout.

Definition toLayout (chmap : mp_chmap) : ChannelLayout :=
  from_int (layoutBits chmap).

(** [operator()(const mp_chmap &src, const mp_chmap &dest)], read. *)
Definition at_chmap (map : ChannelLayoutMap) (src dest : mp_chmap)
  : ChannelManipulation :=
  let srcLayout := toLayout src in
  let destLayout := toLayout dest in
  CLM.at_ MP_SPEAKER_ID_COUNT map srcLayout destLayout.

End Lookup.

(** The channel map that lists the speakers of a layout in the order of
    [speakersInLayout]. *)
Definition chmap_of (layout : ChannelLayout) : mp_chmap :=
  let speakers := List.map Speaker.to_mp_speaker_id (Speaker.speakersInLayout layout) in
  mk_mp_chmap (length speakers) speakers.

(** The bits of the eleven speakers. *)
Definition all_speakers : Z :=
  foldl (fun bits s => Z.lor bits (Speaker.value s)) 0%Z Derivation.speakers.

End Resolve.

(** ** Destination layouts whose left and right halves match *)

Module Shape.

(** Mono holds FrontCenter; any other layout has FrontLeft and FrontRight
    and has FrontLeftCenter, BackLeft and SideLeft exactly when it has
    their right counterparts. *)
Definition symmetric (Mono layout : ChannelLayout) : Prop :=
  (layout = Mono -> Speaker.present FrontCenter Mono = true) /\
  (layout <> Mono ->
   Speaker.present FrontLeft layout = true /\
   Speaker.present FrontRight layout = true /\
   Speaker.present FrontLeftCenter layout = Speaker.present FrontRightCenter layout /\
   Speaker.present BackLeft layout = Speaker.present BackRight layout /\
   Speaker.present SideLeft layout = Speaker.present SideRight layout).




End Shape.

(** ** More sample inputs *)

Module Sample2.

(** A layout without FrontLeft and FrontRight that is not Mono. *)
Definition centre_lfe : ChannelLayout :=
  Z.lor (Speaker.value FrontCenter) (Speaker.value LowFrequency).

(** The table of [Sample] with that layout as one more row. *)
Definition items_centre : list ChannelLayout := Sample.items ++ [centre_lfe].

(** A table of three rows. *)
Definition items_short : list ChannelLayout :=
  [Sample._5_1; Sample.Default; Sample._2_0].



End Sample2.

(** ** The table of ChannelManipulationWidget *)

(** [Qt::CheckState] *)
Inductive CheckState := Unchecked | PartiallyChecked | Checked.

(** What the widget uses of its [QTableWidget]: the two counts, the header
    labels and the check state of the item of each cell, if the cell has
    an item. *)
Record QTableWidget := mkQTableWidget {
  rowCount : nat;
  columnCount : nat;
  verticalHeaderLabels : list string;
  horizontalHeaderLabels : list string;
  cells : nat -> nat -> option CheckState }.

Module Table.

(** [item(row, column)]: no item outside the table. *)
Definition item (t : QTableWidget) (row column : nat) : option CheckState :=
  if (row <? rowCount t)%nat && (column <? columnCount t)%nat then cells t row column
  else None.

(** [setRowCount] and [setColumnCount]: the items of the rows and columns
    that go are deleted. *)
Definition setRowCount (rows : nat) (t : QTableWidget) : QTableWidget :=
  mkQTableWidget rows (columnCount t) (verticalHeaderLabels t)
    (horizontalHeaderLabels t)
    (fun row column => if (row <? rows)%nat then item t row column else None).

Definition setColumnCount (columns : nat) (t : QTableWidget) : QTableWidget :=
  mkQTableWidget (rowCount t) columns (verticalHeaderLabels t)
    (horizontalHeaderLabels t)
    (fun row column => if (column <? columns)%nat then item t row column else None).

Definition setVerticalHeaderLabels (labels : list string) (t : QTableWidget)
  : QTableWidget :=
  mkQTableWidget (rowCount t) (columnCount t) labels (horizontalHeaderLabels t)
    (cells t).

Definition setHorizontalHeaderLabels (labels : list string) (t : QTableWidget)
  : QTableWidget :=
  mkQTableWidget (rowCount t) (columnCount t) (verticalHeaderLabels t) labels
    (cells t).

(** The cell after [setItem] of a new item, if it had none, and
    [setCheckState]. *)
Definition setCheckState (row column : nat) (state : CheckState) (t : QTableWidget)
  : QTableWidget :=
  mkQTableWidget (rowCount t) (columnCount t) (verticalHeaderLabels t)
    (horizontalHeaderLabels t)
    (fun row' column' =>
       if (row' =? row)%nat && (column' =? column)%nat then Some state
       else cells t row' column').

End Table.

Module Widget.

(** [ChannelManipulationWidget::Data]; [output] and [input] stand for the
    current values of the two combo boxes. *)
Record Data := mkData {
  output : ChannelLayout;
  input : ChannelLayout;
  table : QTableWidget;
  map : ChannelLayoutMap;
  currentInput : ChannelLayout;
  currentOutput : ChannelLayout }.

Section Data.

Variable MP_SPEAKER_ID_COUNT : nat.
Variable QT_NO_DEBUG : bool.

(** [mp_chmap_from_str] on [ChannelLayoutInfo::data(layout)], and
    [mp_chmap_reorder_norm]: functions of the mixer and a table of
    enums.hpp, none of them under src/. *)
Variable chmap_from_layout : ChannelLayout -> mp_chmap.
Variable mp_chmap_reorder_norm : mp_chmap -> mp_chmap.

(** [QVector::contains] *)
Definition contains (sources : list Z) (speaker : Z) : bool :=
  existsb (fun src => (src =? speaker)%Z) sources.

(** The non-const [operator()(src, dest)] creates the entry it does not
    find. *)
Definition touch (m : ChannelLayoutMap) (src dest : ChannelLayout) : ChannelLayoutMap :=
  CLM.assign m src dest (CLM.at_ MP_SPEAKER_ID_COUNT m src dest).

(** The lambda [makeHeader]; [None] is a failing [Q_ASSERT]. *)
Fixpoint makeHeader_loop (chmap : mp_chmap) (indices : list nat) (header : QStringList)
  : option QStringList :=
  match indices with
  | [] => Some header
  | i :: rest =>
      let speaker := Resolve.speaker_at chmap i in
      if QT_NO_DEBUG || canonical speaker
      then makeHeader_loop chmap rest (header ++ [ChNames_abbr speaker])
      else None
  end.

Definition makeHeader (layout : ChannelLayout) : option (QStringList * mp_chmap) :=
  let chmap := chmap_from_layout layout in
  match makeHeader_loop chmap (seq 0 (num chmap)) [] with
  | Some header => Some (header, chmap)
  | None => None
  end.

(** The body of the two loops of [makeTable]. *)
Definition makeTable_cell (input output : ChannelLayout) (src dest : mp_chmap)
    (i : nat) (st : QTableWidget * ChannelLayoutMap) (j : nat)
  : QTableWidget * ChannelLayoutMap :=
  let m := touch (snd st) input output in
  let man := CLM.at_ MP_SPEAKER_ID_COUNT m input output in
  let sources := CM.sources man (Resolve.speaker_at dest i) in
  let state := if contains sources (Resolve.speaker_at src j) then Checked
               else Unchecked in
  (Table.setCheckState i j state (fst st), m).

Definition makeTable_row (input output : ChannelLayout) (src dest : mp_chmap)
    (st : QTableWidget * ChannelLayoutMap) (i : nat)
  : QTableWidget * ChannelLayoutMap :=
  foldl (makeTable_cell input output src dest i) st (seq 0 (columnCount (fst st))).

Definition makeTable (d : Data) : option Data :=
  let output := output d in
  let input := input d in
  match makeHeader output with
  | None => None
  | Some (header, dest) =>
      let t := Table.setRowCount (length header) (table d) in
      let t := Table.setVerticalHeaderLabels header t in
      match makeHeader input with
      | None => None
      | Some (header, src) =>
          let t := Table.setColumnCount (length header) t in
          let t := Table.setHorizontalHeaderLabels header t in
          let dest := mp_chmap_reorder_norm dest in
          let src := mp_chmap_reorder_norm src in
          let st := foldl (makeTable_row input output src dest) (t, map d)
                          (seq 0 (rowCount t)) in
          Some (mkData output input (fst st) (snd st) input output)
      end
  end.

(** The inner loop of [fillMap]: the sources of one row. *)
Definition fillMap_sources (t : QTableWidget) (src : mp_chmap) (i : nat) : list Z :=
  foldl (fun sources j =>
           match Table.item t i j with
           | None => sources
           | Some state =>
               match state with
               | Checked => sources ++ [Resolve.speaker_at src j]
               | _ => sources
               end
           end) [] (seq 0 (columnCount t)).

Definition fillMap (d : Data) : Data :=
  if (rowCount (table d) =? 0)%nat || (columnCount (table d) =? 0)%nat then d
  else
    let src := mp_chmap_reorder_norm (chmap_from_layout (currentInput d)) in
    let dst := mp_chmap_reorder_norm (chmap_from_layout (currentOutput d)) in
    let m := touch (map d) (currentInput d) (currentOutput d) in
    let man := CLM.at_ MP_SPEAKER_ID_COUNT m (currentInput d) (currentOutput d) in
    let man := foldl (fun man i =>
                        CM.set (Resolve.speaker_at dst i)
                               (fillMap_sources (table d) src i) man)
                     man (seq 0 (rowCount (table d))) in
    mkData (output d) (input d) (table d)
           (CLM.assign m (currentInput d) (currentOutput d) man)
           (currentInput d) (currentOutput d).

(** [item && item->checkState() == Qt::Checked], the test of [fillMap]. *)
Definition checked (cell : option CheckState) : bool :=
  match cell with
  | Some Checked => true
  | _ => false
  end.

(** The check state [makeTable] gives the cell of row [i] and column [j]
    for the entry [man]. *)
Definition shown (man : ChannelManipulation) (src dest : mp_chmap) (i j : nat)
  : CheckState :=
  if contains (CM.sources man (Resolve.speaker_at dest i)) (Resolve.speaker_at src j)
  then Checked else Unchecked.

(** A layout whose channel map names canonical speakers, each once, before
    and after the reordering, which keeps the number of channels. *)
Definition regular (layout : ChannelLayout) : Prop :=
  let chmap := chmap_from_layout layout in
  let norm := mp_chmap_reorder_norm chmap in
  num norm = num chmap /\
  (forall i, i < num chmap -> canonical (Resolve.speaker_at chmap i) = true) /\
  (forall i, i < num chmap -> canonical (Resolve.speaker_at norm i) = true) /\
  (forall i j, i < num chmap -> j < num chmap ->
               Resolve.speaker_at norm i = Resolve.speaker_at norm j -> i = j).

(** The user picks two layouts in the combo boxes. *)
Definition pick (input output : ChannelLayout) (d : Data) : Data :=
  mkData output input (table d) (map d) (currentInput d) (currentOutput d).

(** The lambda [onComboChanged] of the constructor. *)
Definition onComboChanged (d : Data) : option Data := makeTable (fillMap d).

(** [ChannelManipulationWidget::setMap] and [ChannelManipulationWidget::map]. *)
Definition setMap (m : ChannelLayoutMap) (d : Data) : option Data :=
  makeTable (mkData (output d) (input d) (table d) m (currentInput d) (currentOutput d)).

Definition map_ (d : Data) : ChannelLayoutMap * Data :=
  let d := fillMap d in (map d, d).

End Data.

End Widget.

(** A state of the widget: the table shows the entry of (3.0, 2.0) of an
    empty map, and the user has checked FL for FL, FR for FR and FC for
    both. The channel map of a layout lists its speakers in the order of
    [speakersInLayout] and is in normal order. *)
Module SampleWidget.

Definition chmap_from_layout : ChannelLayout -> mp_chmap := Resolve.chmap_of.
Definition mp_chmap_reorder_norm (chmap : mp_chmap) : mp_chmap := chmap.

Definition cells (row column : nat) : option CheckState :=
  Some (if (row =? column)%nat || (column =? 2)%nat then Checked else Unchecked).

Definition table : QTableWidget :=
  mkQTableWidget 2 3 ["FL"; "FR"] ["FL"; "FR"; "FC"] cells.

Definition data : Widget.Data :=
  Widget.mkData Sample._2_0 Sample._3_0 table (mkChannelLayoutMap [])
                Sample._3_0 Sample._2_0.

(** A map whose entry of (3.0, 2.0) feeds FL from FL and FC and FR from FR
    and FC, and a widget that holds it, with an empty table and 3.0 and
    2.0 picked in the combo boxes. *)
Definition stored : ChannelLayoutMap :=
  CLM.assign (mkChannelLayoutMap []) Sample._3_0 Sample._2_0
    (CM.set MP_SPEAKER_ID_FR [MP_SPEAKER_ID_FR; MP_SPEAKER_ID_FC]
       (CM.set MP_SPEAKER_ID_FL [MP_SPEAKER_ID_FL; MP_SPEAKER_ID_FC]
          (CM.empty Sample.MP_SPEAKER_ID_COUNT))).

Definition loaded : Widget.Data :=
  Widget.mkData Sample._2_0 Sample._3_0
                (mkQTableWidget 0 0 [] [] (fun _ _ => None)) stored
                Sample.Mono Sample.Mono.

End SampleWidget.

(** * Facts *)

(** ** Splitting and joining *)

Section QStrFacts.

Variable sep : ascii.

Lemma contains_append c (a b : string) :
  contains c (a +:+ b) = contains c a || contains c b.
Proof.
  induction a as [|x a IH]; simpl; [reflexivity|].
  rewrite IH. apply orb_assoc.
Qed.

Lemma isEmpty_append (a b : string) :
  isEmpty (a +:+ b) = isEmpty a && isEmpty b.
Proof. destruct a; reflexivity. Qed.



(** A string without the separator is its own single part. *)
Lemma split_free (s : string) :
  contains sep s = false -> split sep s = [s].
Proof.
  induction s as [|x s IH]; simpl; [reflexivity|].
  intros H. apply orb_false_elim in H as [Hx Hs].
  rewrite Hx, (IH Hs). reflexivity.
Qed.

(** The first separator ends the first part. *)
Lemma split_append_sep (p rest : string) :
  contains sep p = false ->
  split sep (p +:+ String sep rest) = p :: split sep rest.
Proof.
  induction p as [|x p IH]; simpl; intros H.
  - rewrite Ascii.eqb_refl. reflexivity.
  - apply orb_false_elim in H as [Hx Hp].
    rewrite Hx, (IH Hp). reflexivity.
Qed.

Lemma split_join (parts : list string) :
  parts <> [] ->
  Forall (fun p => contains sep p = false) parts ->
  split sep (join sep parts) = parts.
Proof.
  induction parts as [|p parts IH]; [congruence|].
  intros _ Hall. inversion Hall as [|? ? Hp Hparts]; subst.
  destruct parts as [|q parts].
  - simpl. apply split_free, Hp.
  - change (join sep (p :: q :: parts))
      with (p +:+ String sep (join sep (q :: parts))).
    rewrite split_append_sep by exact Hp.
    rewrite IH; [reflexivity|discriminate|exact Hparts].
Qed.

Lemma filter_nonempty_id (parts : list string) :
  Forall (fun p => isEmpty p = false) parts ->
  List.filter (fun part => negb (isEmpty part)) parts = parts.
Proof.
  induction 1 as [|p parts Hp _ IH]; simpl; [reflexivity|].
  rewrite Hp. simpl. rewrite IH. reflexivity.
Qed.

(** Non-empty parts free of the separator come back from the joined text,
    also when there is none of them. *)
Lemma splitSkipEmpty_join (parts : list string) :
  Forall (fun p => contains sep p = false) parts ->
  Forall (fun p => isEmpty p = false) parts ->
  splitSkipEmpty sep (join sep parts) = parts.
Proof.
  intros Hfree Hne. unfold splitSkipEmpty.
  destruct parts as [|p parts]; [reflexivity|].
  rewrite split_join by (congruence || assumption).
  apply filter_nonempty_id, Hne.
Qed.

Lemma contains_join c (parts : list string) :
  Ascii.eqb sep c = false ->
  Forall (fun p => contains c p = false) parts ->
  contains c (join sep parts) = false.
Proof.
  intros Hsep. induction 1 as [|p parts Hp Hparts IH]; [reflexivity|].
  destruct parts as [|q parts]; [exact Hp|].
  change (join sep (p :: q :: parts))
    with (p +:+ String sep (join sep (q :: parts))).
  rewrite contains_append, Hp. cbn [orb contains]. rewrite Hsep. exact IH.
Qed.

Lemma isEmpty_join (parts : list string) :
  parts <> [] ->
  Forall (fun p => isEmpty p = false) parts ->
  isEmpty (join sep parts) = false.
Proof.
  intros Hnil Hall. destruct parts as [|p parts]; [congruence|].
  inversion Hall as [|? ? Hp _]; subst.
  destruct parts as [|q parts]; [exact Hp|].
  change (join sep (p :: q :: parts))
    with (p +:+ String sep (join sep (q :: parts))).
  rewrite isEmpty_append, Hp. reflexivity.
Qed.

End QStrFacts.

(** ** The names of the canonical speakers *)

Lemma canonical_cases (i : Z) :
  canonical i = true ->
  In i [0; 1; 2; 3; 4; 5; 6; 7; 8; 9; 10]%Z.
Proof.
  unfold canonical, MP_SPEAKER_ID_FL, MP_SPEAKER_ID_SR. intros H.
  apply andb_true_iff in H as [H1 H2].
  apply Z.leb_le in H1. apply Z.leb_le in H2. simpl.
  assert (i = 0 \/ i = 1 \/ i = 2 \/ i = 3 \/ i = 4 \/ i = 5 \/ i = 6 \/
          i = 7 \/ i = 8 \/ i = 9 \/ i = 10)%Z by lia.
  intuition auto.
Qed.

Ltac canonical_cases H :=
  apply canonical_cases in H; simpl in H;
  repeat (destruct H as [H|H]; [subst|]); [..|contradiction].

Lemma abbr_nonempty (i : Z) :
  canonical i = true -> isEmpty (ChNames_abbr i) = false.
Proof. intros H. canonical_cases H; reflexivity. Qed.

(** No abbreviation contains a separator of the two text forms. *)
Lemma abbr_clean (i : Z) (c : ascii) :
  canonical i = true ->
  In c ["," ; "!" ; "/" ; ":" ; "#"]%char ->
  contains c (ChNames_abbr i) = false.
Proof.
  intros H Hc. simpl in Hc.
  repeat (destruct Hc as [Hc|Hc]; [subst c|]); [..|contradiction];
    canonical_cases H; reflexivity.
Qed.

Section CMFacts.

Variable MP_SPEAKER_ID_COUNT : nat.
Variable MP_SPEAKER_ID_NONE : Z.

Hypothesis COUNT_covers : ChNamesSize <= MP_SPEAKER_ID_COUNT.
Hypothesis NONE_outside : canonical MP_SPEAKER_ID_NONE = false.

Local Abbreviation nameToId := (CM.nameToId MP_SPEAKER_ID_NONE).
Local Abbreviation parseSources := (CM.parseSources MP_SPEAKER_ID_NONE).
Local Abbreviation fromString_body := (CM.fromString_body MP_SPEAKER_ID_NONE).
Local Abbreviation fromString := (CM.fromString MP_SPEAKER_ID_COUNT MP_SPEAKER_ID_NONE).
Local Abbreviation empty := (CM.empty MP_SPEAKER_ID_COUNT).

Lemma nameToId_abbr (i : Z) :
  canonical i = true -> nameToId (ChNames_abbr i) = i.
Proof. intros H. canonical_cases H; reflexivity. Qed.

Lemma canonical_not_NONE (i : Z) :
  canonical i = true -> (i =? MP_SPEAKER_ID_NONE)%Z = false.
Proof.
  intros H. apply Z.eqb_neq. intros ->. congruence.
Qed.

(** [nameToId] answers a canonical identifier or [MP_SPEAKER_ID_NONE]. *)
Lemma nameToId_loop_range (names : list ChannelName) (i : Z) (name : string) :
  let r := CM.nameToId_loop MP_SPEAKER_ID_NONE names i name in
  r = MP_SPEAKER_ID_NONE \/ (i <= r < i + Z.of_nat (length names))%Z.
Proof.
  clear COUNT_covers NONE_outside.
  revert i. induction names as [|n names IH]; intros i; simpl; [left; reflexivity|].
  destruct (String.eqb name (abbr n)); [right; lia|].
  destruct (IH (i + 1)%Z) as [H|H]; [left; exact H|right; lia].
Qed.

Lemma nameToId_range (name : string) :
  nameToId name = MP_SPEAKER_ID_NONE \/ canonical (nameToId name) = true.
Proof.
  clear COUNT_covers NONE_outside.
  destruct (nameToId_loop_range ChNames 0 name) as [H|H]; [left; exact H|right].
  unfold CM.nameToId, canonical, MP_SPEAKER_ID_FL, MP_SPEAKER_ID_SR.
  change (Z.of_nat (length ChNames)) with 11%Z in H.
  apply andb_true_iff. split; apply Z.leb_le; lia.
Qed.

Lemma parseSources_fold (acc : list Z) (names : list string) :
  foldl (fun sources name =>
           let src := nameToId name in
           if (src =? MP_SPEAKER_ID_NONE)%Z then sources else sources ++ [src])
        acc names
  = acc ++ parseSources names.
Proof.
  unfold CM.parseSources. revert acc.
  induction names as [|n names IH]; intros acc.
  - symmetry. apply app_nil_r.
  - cbn [foldl]. cbv zeta.
    destruct (nameToId n =? MP_SPEAKER_ID_NONE)%Z.
    + apply IH.
    + rewrite IH. rewrite (IH ([] ++ [nameToId n])).
      rewrite <- app_assoc. reflexivity.
Qed.

(** The names of canonical sources parse back to the sources. *)
Lemma parseSources_abbr (srcs : list Z) :
  Forall (fun src => canonical src = true) srcs ->
  parseSources (map ChNames_abbr srcs) = srcs.
Proof.
  induction 1 as [|src srcs Hsrc _ IH]; [reflexivity|].
  unfold CM.parseSources. simpl.
  rewrite nameToId_abbr, canonical_not_NONE by exact Hsrc.
  rewrite parseSources_fold, IH. reflexivity.
Qed.

Local Abbreviation group i srcs :=
  (ChNames_abbr i +:+ String "!" (join "/" (map ChNames_abbr srcs))).

Lemma sources_text_clean (c : ascii) (srcs : list Z) :
  In c ["," ; "!" ; ":" ; "#"]%char ->
  Forall (fun src => canonical src = true) srcs ->
  contains c (join "/" (map ChNames_abbr srcs)) = false.
Proof.
  intros Hc Hsrcs. apply contains_join.
  - simpl in Hc. intuition subst; reflexivity.
  - apply Forall_map. eapply Forall_impl; [exact Hsrcs|].
    intros src Hsrc. apply abbr_clean; [exact Hsrc|].
    simpl in *. intuition auto.
Qed.

Lemma group_clean (c : ascii) (i : Z) (srcs : list Z) :
  In c ["," ; ":" ; "#"]%char ->
  canonical i = true ->
  Forall (fun src => canonical src = true) srcs ->
  contains c (group i srcs) = false.
Proof.
  intros Hc Hi Hsrcs.
  assert (Hc1 : In c ["," ; "!" ; "/" ; ":" ; "#"]%char)
    by (simpl in *; intuition auto).
  assert (Hc2 : In c ["," ; "!" ; ":" ; "#"]%char)
    by (simpl in *; intuition auto).
  rewrite contains_append. cbn [contains].
  rewrite (abbr_clean _ _ Hi Hc1), (sources_text_clean _ _ Hc2 Hsrcs).
  simpl in Hc. destruct Hc as [<-|[<-|[<-|[]]]]; reflexivity.
Qed.

(** A group written by [toString] is read back as one [set]. *)
Lemma fromString_body_group (man : ChannelManipulation) (i : Z) (srcs : list Z) :
  canonical i = true ->
  srcs <> [] ->
  Forall (fun src => canonical src = true) srcs ->
  fromString_body man (group i srcs) = CM.set i srcs man.
Proof.
  intros Hi Hne Hsrcs. unfold CM.fromString_body.
  assert (Hsplit : splitSkipEmpty "!" (group i srcs)
                   = [ChNames_abbr i; join "/" (map ChNames_abbr srcs)]).
  { unfold splitSkipEmpty.
    rewrite split_append_sep by (apply abbr_clean; simpl; auto).
    rewrite split_free by (apply sources_text_clean; simpl; auto).
    cbn [List.filter]. rewrite abbr_nonempty by exact Hi.
    rewrite isEmpty_join; [reflexivity| |].
    - destruct srcs; [congruence|discriminate].
    - apply Forall_map. eapply Forall_impl; [exact Hsrcs|].
      intros src. apply abbr_nonempty. }
  rewrite Hsplit. cbv zeta.
  rewrite nameToId_abbr, canonical_not_NONE by exact Hi.
  rewrite splitSkipEmpty_join.
  - rewrite parseSources_abbr by exact Hsrcs.
    rewrite bool_decide_eq_false_2 by exact Hne. reflexivity.
  - apply Forall_map. eapply Forall_impl; [exact Hsrcs|].
    intros src Hsrc. apply abbr_clean; simpl; auto.
  - apply Forall_map. eapply Forall_impl; [exact Hsrcs|].
    intros src. apply abbr_nonempty.
Qed.

Lemma toString_body_fold (mix : list (list Z)) (acc : list string) (l : list nat) :
  foldl (CM.toString_body mix) acc l
  = acc ++ flat_map (CM.toString_body mix []) l.
Proof.
  revert acc. induction l as [|i l IH]; intros acc.
  - simpl. symmetry. apply app_nil_r.
  - cbn [foldl flat_map]. rewrite IH.
    assert (E : CM.toString_body mix acc i = acc ++ CM.toString_body mix [] i).
    { unfold CM.toString_body. cbv zeta.
      destruct (_ && _); [reflexivity|symmetry; apply app_nil_r]. }
    rewrite E, <- app_assoc. reflexivity.
Qed.

(** What reading back the group of slot [i] does to the manipulation. *)
Local Abbreviation restore mix :=
  (fun (man : ChannelManipulation) (i : nat) =>
     if canonical (Z.of_nat i) && negb (bool_decide (default [] (mix !! i) = []))
     then CM.set (Z.of_nat i) (default [] (mix !! i)) man
     else man).

Lemma sources_canonical_lookup (man : ChannelManipulation) (i : nat) :
  sources_canonical man ->
  Forall (fun src => canonical src = true) (default [] (m_mix man !! i)).
Proof.
  intros H. destruct (m_mix man !! i) as [srcs|] eqn:E; simpl; [|constructor].
  exact (proj1 (Forall_lookup _ _) H i srcs E).
Qed.

Lemma toString_groups_clean (c : ascii) (man : ChannelManipulation) (l : list nat) :
  In c ["," ; ":" ; "#"]%char ->
  sources_canonical man ->
  Forall (fun g => contains c g = false)
         (flat_map (CM.toString_body (m_mix man) []) l).
Proof.
  intros Hc Hman. induction l as [|i l IH]; [constructor|].
  cbn [flat_map]. apply Forall_app. split; [|exact IH].
  unfold CM.toString_body. cbv zeta.
  destruct (canonical (Z.of_nat i)) eqn:Hi; [|constructor].
  destruct (bool_decide _); simpl; constructor; [|constructor].
  apply group_clean; [exact Hc|exact Hi|].
  apply sources_canonical_lookup, Hman.
Qed.

Lemma fromString_body_groups (man0 man : ChannelManipulation) (l : list nat) :
  sources_canonical man0 ->
  foldl fromString_body man (flat_map (CM.toString_body (m_mix man0) []) l)
  = foldl (restore (m_mix man0)) man l.
Proof.
  intros Hman0. revert man. induction l as [|i l IH]; intros man; [reflexivity|].
  cbn [flat_map foldl]. rewrite foldl_app, IH. f_equal.
  unfold CM.toString_body. cbv zeta.
  destruct (canonical (Z.of_nat i)) eqn:Hi; [|reflexivity].
  destruct (bool_decide _) eqn:Hempty; [reflexivity|].
  cbn [andb negb foldl].
  apply fromString_body_group; [exact Hi| |].
  - apply bool_decide_eq_false in Hempty. exact Hempty.
  - apply sources_canonical_lookup, Hman0.
Qed.

(** Parsing the joined groups is folding over the groups, also when there
    is no group: the empty text is one group that is skipped. *)
Lemma fromString_join (groups : list string) :
  Forall (fun g => contains "," g = false) groups ->
  fromString (join "," groups) = foldl fromString_body empty groups.
Proof.
  intros H. unfold CM.fromString.
  destruct groups as [|g groups]; [reflexivity|].
  rewrite split_join by (congruence || exact H). reflexivity.
Qed.

(** After the groups of the slots [0 .. k-1] are read back, these slots hold
    what the manipulation held. *)
Lemma restore_prefix (man : ChannelManipulation) (k : nat) :
  length (m_mix man) = MP_SPEAKER_ID_COUNT ->
  destinations_canonical man ->
  k <= MP_SPEAKER_ID_COUNT ->
  foldl (restore (m_mix man)) empty (seq 0 k)
  = mkChannelManipulation
      (take k (m_mix man) ++ drop k (replicate MP_SPEAKER_ID_COUNT [])).
Proof.
  intros Hlen Hdst. induction k as [|k IH]; intros Hk.
  - reflexivity.
  - rewrite seq_S, foldl_app, IH by lia. cbn [foldl plus].
    destruct (lookup_lt_is_Some_2 (m_mix man) k ltac:(lia)) as [srcs Hsrcs].
    assert (HR : replicate MP_SPEAKER_ID_COUNT (@nil Z) !! k = Some [])
      by (apply lookup_replicate_2; lia).
    rewrite Hsrcs. cbn [default from_option id].
    rewrite (take_S_r _ _ _ Hsrcs), (drop_S _ _ _ HR), <- app_assoc.
    cbn [app].
    assert (Hset : CM.set (Z.of_nat k) srcs
                     (mkChannelManipulation
                        (take k (m_mix man)
                         ++ [] :: drop (S k) (replicate MP_SPEAKER_ID_COUNT [])))
                   = mkChannelManipulation
                       (take k (m_mix man)
                        ++ srcs :: drop (S k) (replicate MP_SPEAKER_ID_COUNT []))).
    { unfold CM.set. replace (Z.of_nat k <? 0)%Z with false
        by (symmetry; apply Z.ltb_ge; lia).
      rewrite Nat2Z.id. cbn [m_mix]. f_equal.
      rewrite insert_app_r_alt by (rewrite length_take; lia).
      rewrite length_take. replace (k - k `min` length (m_mix man)) with 0 by lia.
      reflexivity. }
    destruct (canonical (Z.of_nat k) && negb (bool_decide (srcs = []))) eqn:Hc.
    + exact Hset.
    + assert (srcs = []) as ->; [|reflexivity].
      apply andb_false_iff in Hc as [Hc|Hc].
      * (* a slot after MP_SPEAKER_ID_SR *)
        assert (11 <= k).
        { unfold canonical, MP_SPEAKER_ID_FL, MP_SPEAKER_ID_SR in Hc.
          apply andb_false_iff in Hc as [Hc|Hc];
            [apply Z.leb_gt in Hc|apply Z.leb_gt in Hc]; lia. }
        unfold destinations_canonical in Hdst.
        eapply (proj1 (Forall_lookup _ _) Hdst (k - 11)).
        rewrite lookup_drop. replace (ChNamesSize + (k - 11)) with k
          by (unfold ChNamesSize; lia).
        exact Hsrcs.
      * apply negb_false_iff, bool_decide_eq_true in Hc. exact Hc.
Qed.

Lemma fromString_toString (man : ChannelManipulation) :
  length (m_mix man) = MP_SPEAKER_ID_COUNT ->
  destinations_canonical man ->
  sources_canonical man ->
  fromString (CM.toString man) = man.
Proof.
  intros Hlen Hdst Hsrc. unfold CM.toString. cbv zeta.
  rewrite toString_body_fold. cbn [app].
  rewrite fromString_join by (apply toString_groups_clean; simpl; auto).
  rewrite fromString_body_groups by exact Hsrc.
  rewrite Hlen, restore_prefix by (assumption || lia).
  rewrite <- Hlen at 1. rewrite firstn_all.
  rewrite drop_ge by (rewrite length_replicate; lia).
  rewrite app_nil_r. destruct man; reflexivity.
Qed.

(** *** Reading what [set] wrote *)

Lemma sources_empty (d : Z) : CM.sources empty d = [].
Proof.
  unfold CM.sources, CM.empty. cbn [m_mix].
  destruct (d <? 0)%Z; [reflexivity|].
  destruct (replicate MP_SPEAKER_ID_COUNT (@nil Z) !! Z.to_nat d) as [srcs|] eqn:E;
    [|reflexivity].
  apply lookup_replicate_1 in E as [-> _]. reflexivity.
Qed.

Lemma sources_set_ne (man : ChannelManipulation) (d d' : Z) (srcs : list Z) :
  d <> d' -> CM.sources (CM.set d' srcs man) d = CM.sources man d.
Proof.
  clear COUNT_covers NONE_outside.
  intros Hne. unfold CM.sources, CM.set.
  destruct (d' <? 0)%Z eqn:Hd'; [reflexivity|].
  destruct (d <? 0)%Z eqn:Hd; [reflexivity|]. cbn [m_mix].
  apply Z.ltb_ge in Hd, Hd'.
  rewrite list_lookup_insert_ne by lia. reflexivity.
Qed.

Lemma sources_set_eq (man : ChannelManipulation) (d : Z) (srcs : list Z) :
  (0 <= d)%Z -> Z.to_nat d < length (m_mix man) ->
  CM.sources (CM.set d srcs man) d = srcs.
Proof.
  clear COUNT_covers NONE_outside.
  intros Hd Hlen. unfold CM.sources, CM.set.
  replace (d <? 0)%Z with false by (symmetry; apply Z.ltb_ge; lia).
  cbn [m_mix]. rewrite list_lookup_insert_eq by exact Hlen. reflexivity.
Qed.

(** *** The two outcomes of one iteration of [fromString] *)

Lemma fromString_body_cases (man : ChannelManipulation) (one : string) :
  fromString_body man one = man \/
  exists dn sf,
    splitSkipEmpty "!" one = [dn; sf] /\
    canonical (nameToId dn) = true /\
    parseSources (splitSkipEmpty "/" sf) <> [] /\
    fromString_body man one
    = CM.set (nameToId dn) (parseSources (splitSkipEmpty "/" sf)) man.
Proof.
  clear COUNT_covers NONE_outside.
  unfold CM.fromString_body.
  destruct (splitSkipEmpty "!" one) as [|dn [|sf [|? ?]]]; try (left; reflexivity).
  cbv zeta.
  destruct (nameToId dn =? MP_SPEAKER_ID_NONE)%Z eqn:Hdn; [left; reflexivity|].
  destruct (bool_decide (parseSources (splitSkipEmpty "/" sf) = [])) eqn:Hs;
    [left; reflexivity|].
  right. exists dn, sf. repeat split.
  - destruct (nameToId_range dn) as [H|H]; [|exact H].
    apply Z.eqb_neq in Hdn. contradiction.
  - apply bool_decide_eq_false in Hs. exact Hs.
Qed.

(** A group that does not have two fields, or whose destination is not a
    known abbreviation, is skipped. *)
Lemma fromString_body_malformed (man : ChannelManipulation) (one : string) :
  length (splitSkipEmpty "!" one) <> 2 \/
  nameToId (hd EmptyString (splitSkipEmpty "!" one)) = MP_SPEAKER_ID_NONE ->
  fromString_body man one = man.
Proof.
  unfold CM.fromString_body.
  destruct (splitSkipEmpty "!" one) as [|dn [|sf [|? ?]]]; try reflexivity.
  intros [H|H]; [simpl in H; congruence|].
  cbv zeta. simpl in H. rewrite H, Z.eqb_refl. reflexivity.
Qed.

(** A group with a known destination and no known source is skipped. *)
Lemma fromString_body_no_source (man : ChannelManipulation) (one dn sf : string) :
  splitSkipEmpty "!" one = [dn; sf] ->
  Forall (fun n => nameToId n = MP_SPEAKER_ID_NONE) (splitSkipEmpty "/" sf) ->
  fromString_body man one = man.
Proof.
  intros Hone Hsf. unfold CM.fromString_body. rewrite Hone. cbv zeta.
  assert (parseSources (splitSkipEmpty "/" sf) = []) as ->.
  { induction Hsf as [|n l Hn _ IH]; [reflexivity|].
    unfold CM.parseSources. cbn [foldl]. cbv zeta.
    rewrite Hn, Z.eqb_refl. exact IH. }
  destruct (nameToId dn =? MP_SPEAKER_ID_NONE)%Z; reflexivity.
Qed.

(** Slots after [MP_SPEAKER_ID_SR] write no group. *)
Lemma toString_tail (mix : list (list Z)) (a k : nat) :
  ChNamesSize <= a ->
  flat_map (CM.toString_body mix []) (seq a k) = [].
Proof.
  clear COUNT_covers NONE_outside.
  revert a. induction k as [|k IH]; intros a Ha; [reflexivity|].
  cbn [seq flat_map]. rewrite IH by lia.
  unfold CM.toString_body. cbv zeta.
  replace (canonical (Z.of_nat a)) with false; [reflexivity|].
  symmetry. unfold canonical, MP_SPEAKER_ID_FL, MP_SPEAKER_ID_SR.
  apply andb_false_iff. right. apply Z.leb_gt. unfold ChNamesSize in Ha. lia.
Qed.

Lemma fromString_FC_FL_FR :
  fromString "FC!FL/FR"
  = CM.set MP_SPEAKER_ID_FC [MP_SPEAKER_ID_FL; MP_SPEAKER_ID_FR] empty.
Proof.
  unfold CM.fromString. change (split "," "FC!FL/FR") with ["FC!FL/FR"].
  cbn [foldl].
  change "FC!FL/FR" with (group MP_SPEAKER_ID_FC [MP_SPEAKER_ID_FL; MP_SPEAKER_ID_FR]).
  apply fromString_body_group; [reflexivity|discriminate|].
  repeat constructor.
Qed.

(** The text of a manipulation depends on its first eleven slots only. *)
Lemma toString_canonical_slots (man : ChannelManipulation) :
  ChNamesSize <= length (m_mix man) ->
  CM.toString man
  = join "," (flat_map (CM.toString_body (m_mix man) []) (seq 0 ChNamesSize)).
Proof.
  clear COUNT_covers NONE_outside.
  intros Hlen. unfold CM.toString. cbv zeta. rewrite toString_body_fold.
  cbn [app].
  replace (length (m_mix man)) with (ChNamesSize + (length (m_mix man) - ChNamesSize))
    by lia.
  rewrite seq_app, flat_map_app.
  rewrite (toString_tail _ (0 + ChNamesSize)) by (simpl; lia).
  rewrite app_nil_r. reflexivity.
Qed.

(** C4: a manipulation whose set destinations are canonical and whose
    source lists hold canonical speakers only is read back unchanged from
    its text, [fromString(m.toString()) = m]; and the text "FC!FL/FR" is
    written back as it was read. *)
Theorem manipulation_round_trip :
  (forall man : ChannelManipulation,
      length (m_mix man) = MP_SPEAKER_ID_COUNT ->
      destinations_canonical man ->
      sources_canonical man ->
      fromString (CM.toString man) = man)
  /\ CM.toString (fromString "FC!FL/FR") = "FC!FL/FR".
Proof.
  split; [exact fromString_toString|].
  rewrite fromString_FC_FL_FR.
  rewrite toString_canonical_slots.
  - unfold CM.set, CM.empty. cbn [m_mix Z.ltb Z.compare MP_SPEAKER_ID_FC].
    destruct (Nat.le_exists_sub _ _ COUNT_covers) as [k [-> _]].
    rewrite Nat.add_comm. reflexivity.
  - unfold CM.set, CM.empty. cbn [m_mix Z.ltb Z.compare MP_SPEAKER_ID_FC].
    rewrite length_insert, length_replicate. exact COUNT_covers.
Qed.

(** C9: the text "FL!XX,FC!FL" yields the FC entry with source FrontLeft
    and nothing else; and a group that does not split on '!' into exactly
    two fields, or whose destination is not a known abbreviation, is
    skipped: the text parses as the text without that group does. *)
Theorem fromString_lenient :
  (fromString "FL!XX,FC!FL"
   = CM.set MP_SPEAKER_ID_FC [MP_SPEAKER_ID_FL] empty
   /\ forall d : Z,
        CM.sources (fromString "FL!XX,FC!FL") d
        = if (d =? MP_SPEAKER_ID_FC)%Z then [MP_SPEAKER_ID_FL] else [])
  /\ forall (pre post : list string) (bad : string),
      Forall (fun g => contains "," g = false) (pre ++ bad :: post) ->
      length (splitSkipEmpty "!" bad) <> 2 \/
      nameToId (hd EmptyString (splitSkipEmpty "!" bad)) = MP_SPEAKER_ID_NONE ->
      fromString (join "," (pre ++ bad :: post))
      = fromString (join "," (pre ++ post)).
Proof.
  assert (E : fromString "FL!XX,FC!FL"
              = CM.set MP_SPEAKER_ID_FC [MP_SPEAKER_ID_FL] empty).
  { unfold CM.fromString.
    change (split "," "FL!XX,FC!FL") with ["FL!XX"; "FC!FL"].
    cbn [foldl].
    rewrite (fromString_body_no_source empty "FL!XX" "FL" "XX");
      [|reflexivity|repeat constructor].
    change "FC!FL" with (group MP_SPEAKER_ID_FC [MP_SPEAKER_ID_FL]).
    apply fromString_body_group; [reflexivity|discriminate|].
    repeat constructor. }
  split; [split; [exact E|]|].
  - intros d. rewrite E. destruct (d =? MP_SPEAKER_ID_FC)%Z eqn:Hd.
    + apply Z.eqb_eq in Hd. subst d.
      apply sources_set_eq; [unfold MP_SPEAKER_ID_FC; lia|].
      unfold CM.empty. cbn [m_mix]. rewrite length_replicate.
      unfold ChNamesSize in COUNT_covers. unfold MP_SPEAKER_ID_FC. lia.
    + apply Z.eqb_neq in Hd.
      rewrite sources_set_ne by exact Hd. apply sources_empty.
  - intros pre post bad Hfree Hbad.
    rewrite !fromString_join.
    + rewrite !foldl_app. cbn [foldl].
      rewrite (fromString_body_malformed _ _ Hbad). reflexivity.
    + apply Forall_app in Hfree as [Hpre Hpost].
      apply Forall_app. split; [exact Hpre|].
      inversion Hpost; assumption.
    + exact Hfree.
Qed.

(** C10, amended: [fromString] installs no empty source list. Every
    iteration either leaves the manipulation as it is or sets a canonical
    destination to a non-empty list; a group whose destination is known
    and none of whose source names is (the source field may also be empty
    after the split on '/') leaves it as it is; so a destination named only
    by such groups has no source in the result. *)
Theorem fromString_no_empty_entry :
  (forall (man : ChannelManipulation) (one : string),
      fromString_body man one = man \/
      exists (dest : Z) (sources : list Z),
        canonical dest = true /\ sources <> [] /\
        fromString_body man one = CM.set dest sources man)
  /\ (forall (man : ChannelManipulation) (one dn sf : string),
        splitSkipEmpty "!" one = [dn; sf] ->
        nameToId dn <> MP_SPEAKER_ID_NONE ->
        Forall (fun n => nameToId n = MP_SPEAKER_ID_NONE) (splitSkipEmpty "/" sf) ->
        fromString_body man one = man)
  /\ (forall (text : string) (d : Z),
        (forall one dn sf : string,
            In one (split "," text) ->
            splitSkipEmpty "!" one = [dn; sf] ->
            nameToId dn = d ->
            Forall (fun n => nameToId n = MP_SPEAKER_ID_NONE)
                   (splitSkipEmpty "/" sf)) ->
        CM.sources (fromString text) d = []).
Proof.
  clear COUNT_covers NONE_outside.
  split; [|split].
  - intros man one.
    destruct (fromString_body_cases man one) as [H|(dn & sf & _ & Hd & Hs & H)];
      [left; exact H|right; eauto].
  - intros man one dn sf Hone _ Hsf.
    exact (fromString_body_no_source man one dn sf Hone Hsf).
  - intros text d Hgroups. unfold CM.fromString.
    assert (Hinv : forall (l : list string) (man : ChannelManipulation),
               (forall one, In one l -> In one (split "," text)) ->
               CM.sources man d = [] ->
               CM.sources (foldl fromString_body man l) d = []).
    { induction l as [|one l IH]; intros man Hl Hman; [exact Hman|].
      cbn [foldl]. apply IH; [intros o Ho; apply Hl; right; exact Ho|].
      destruct (fromString_body_cases man one)
        as [H|(dn & sf & Hone & Hd & Hs & H)]; rewrite H; [exact Hman|].
      destruct (Z.eq_dec (nameToId dn) d) as [Heq|Hne].
      - exfalso. apply Hs.
        specialize (Hgroups one dn sf (Hl one (or_introl eq_refl)) Hone Heq).
        clear -Hgroups.
        induction Hgroups as [|n ns Hn _ IHn]; [reflexivity|].
        unfold CM.parseSources. cbn [foldl]. cbv zeta.
        rewrite Hn, Z.eqb_refl. exact IHn.
      - rewrite sources_set_ne by congruence. exact Hman. }
    apply Hinv; [auto|apply sources_empty].
Qed.

End CMFacts.

Lemma manipulation_round_trip_witness :
  (ChNamesSize <= Sample.MP_SPEAKER_ID_COUNT
   /\ canonical Sample.MP_SPEAKER_ID_NONE = false
   /\ length (m_mix Sample.man) = Sample.MP_SPEAKER_ID_COUNT
   /\ destinations_canonical Sample.man
   /\ sources_canonical Sample.man)
  /\ CM.fromString Sample.MP_SPEAKER_ID_COUNT Sample.MP_SPEAKER_ID_NONE
       (CM.toString Sample.man) = Sample.man
  /\ CM.toString
       (CM.fromString Sample.MP_SPEAKER_ID_COUNT Sample.MP_SPEAKER_ID_NONE "FC!FL/FR")
     = "FC!FL/FR".
Proof.
  assert (H1 : ChNamesSize <= Sample.MP_SPEAKER_ID_COUNT) by (vm_compute; lia).
  assert (H2 : canonical Sample.MP_SPEAKER_ID_NONE = false) by reflexivity.
  assert (H3 : length (m_mix Sample.man) = Sample.MP_SPEAKER_ID_COUNT) by reflexivity.
  assert (H4 : destinations_canonical Sample.man) by (cbv; repeat constructor).
  assert (H5 : sources_canonical Sample.man) by (cbv; repeat constructor).
  split; [repeat split; assumption|].
  destruct (manipulation_round_trip _ _ H1 H2) as [Hround Htext].
  split; [exact (Hround Sample.man H3 H4 H5)|exact Htext].
Defined.

Lemma fromString_lenient_witness :
  (ChNamesSize <= Sample.MP_SPEAKER_ID_COUNT
   /\ canonical Sample.MP_SPEAKER_ID_NONE = false
   /\ Forall (fun g => contains "," g = false) (["FL!FR"] ++ "BL" :: ["FC!FL"])
   /\ length (splitSkipEmpty "!" "BL") <> 2)
  /\ CM.fromString Sample.MP_SPEAKER_ID_COUNT Sample.MP_SPEAKER_ID_NONE
       (join "," (["FL!FR"] ++ "BL" :: ["FC!FL"]))
     = CM.fromString Sample.MP_SPEAKER_ID_COUNT Sample.MP_SPEAKER_ID_NONE
         (join "," (["FL!FR"] ++ ["FC!FL"])).
Proof.
  assert (H1 : ChNamesSize <= Sample.MP_SPEAKER_ID_COUNT) by (vm_compute; lia).
  assert (H2 : canonical Sample.MP_SPEAKER_ID_NONE = false) by reflexivity.
  assert (H3 : Forall (fun g => contains "," g = false)
                      (["FL!FR"] ++ "BL" :: ["FC!FL"]))
    by (repeat constructor).
  assert (H4 : length (splitSkipEmpty "!" "BL") <> 2) by (vm_compute; lia).
  split; [repeat split; assumption|].
  destruct (fromString_lenient _ _ H1 H2) as [_ Hskip].
  exact (Hskip ["FL!FR"] ["FC!FL"] "BL" H3 (or_introl H4)).
Defined.

(** C10 as stated fails on "FL!FR,FL!XX": the second group names
    FrontLeft and none of its source names is known, so the group is
    dropped, and FrontLeft keeps the source the first group gave it. *)
Lemma fromString_no_empty_entry_counterexample :
  In "FL!XX" (split "," "FL!FR,FL!XX") /\
  splitSkipEmpty "!" "FL!XX" = ["FL"; "XX"] /\
  CM.nameToId Sample.MP_SPEAKER_ID_NONE "FL" = MP_SPEAKER_ID_FL /\
  MP_SPEAKER_ID_FL <> Sample.MP_SPEAKER_ID_NONE /\
  Forall (fun n => CM.nameToId Sample.MP_SPEAKER_ID_NONE n
                   = Sample.MP_SPEAKER_ID_NONE)
         (splitSkipEmpty "/" "XX") /\
  CM.sources (CM.fromString Sample.MP_SPEAKER_ID_COUNT Sample.MP_SPEAKER_ID_NONE
                            "FL!FR,FL!XX")
             MP_SPEAKER_ID_FL
  = [MP_SPEAKER_ID_FR] /\
  CM.sources (CM.fromString Sample.MP_SPEAKER_ID_COUNT Sample.MP_SPEAKER_ID_NONE
                            "FL!FR,FL!XX")
             MP_SPEAKER_ID_FL
  <> [].
Proof.
  split; [right; left; reflexivity|].
  split; [reflexivity|].
  split; [reflexivity|].
  split; [vm_compute; discriminate|].
  split; [repeat constructor|].
  split; [reflexivity|].
  vm_compute. discriminate.
Qed.

Lemma fromString_no_empty_entry_witness :
  (splitSkipEmpty "!" "FL!XX/YY" = ["FL"; "XX/YY"]
   /\ CM.nameToId Sample.MP_SPEAKER_ID_NONE "FL" <> Sample.MP_SPEAKER_ID_NONE
   /\ Forall (fun n => CM.nameToId Sample.MP_SPEAKER_ID_NONE n
                       = Sample.MP_SPEAKER_ID_NONE)
             (splitSkipEmpty "/" "XX/YY"))
  /\ CM.fromString_body Sample.MP_SPEAKER_ID_NONE Sample.man "FL!XX/YY" = Sample.man.
Proof.
  assert (H3 : splitSkipEmpty "!" "FL!XX/YY" = ["FL"; "XX/YY"]) by reflexivity.
  assert (H4 : CM.nameToId Sample.MP_SPEAKER_ID_NONE "FL" <> Sample.MP_SPEAKER_ID_NONE)
    by (vm_compute; discriminate).
  assert (H5 : Forall (fun n => CM.nameToId Sample.MP_SPEAKER_ID_NONE n
                                = Sample.MP_SPEAKER_ID_NONE)
                      (splitSkipEmpty "/" "XX/YY"))
    by (repeat constructor).
  split; [repeat split; assumption|].
  destruct (fromString_no_empty_entry Sample.MP_SPEAKER_ID_COUNT
              Sample.MP_SPEAKER_ID_NONE) as (_ & Hdrop & _).
  exact (Hdrop Sample.man "FL!XX/YY" "FL" "XX/YY" H3 H4 H5).
Defined.

(** ** Layout bits and the speakers of a layout *)


(** [dstLayout & (int)id], the test of [testAndSet]. *)
Lemma nonzero_land_comm (layout : Z) (id : SpeakerId) :
  Speaker.nonzero (Z.land layout (Speaker.value id)) = Speaker.present id layout.
Proof. unfold Speaker.present. rewrite Z.land_comm. reflexivity. Qed.

(** [dstLayout & (left | right)], the test of [testAndSet2], holds as soon
    as one of the two speakers is present. *)
Lemma nonzero_land_pair (layout : Z) (left right : SpeakerId) :
  Speaker.nonzero (Z.land layout (Z.lor (Speaker.value left) (Speaker.value right)))
  = Speaker.present left layout || Speaker.present right layout.
Proof.
  unfold Speaker.present, Speaker.nonzero.
  rewrite Z.land_lor_distr_r, (Z.land_comm layout), (Z.land_comm layout).
  destruct (Z.eqb_spec (Z.land (Speaker.value left) layout) 0) as [Hl|Hl];
    destruct (Z.eqb_spec (Z.land (Speaker.value right) layout) 0) as [Hr|Hr];
    simpl.
  - rewrite Hl, Hr. reflexivity.
  - apply negb_true_iff, Z.eqb_neq. rewrite Z.lor_eq_0_iff. tauto.
  - apply negb_true_iff, Z.eqb_neq. rewrite Z.lor_eq_0_iff. tauto.
  - apply negb_true_iff, Z.eqb_neq. rewrite Z.lor_eq_0_iff. tauto.
Qed.

Lemma CHECK_filter (layout : Z) (a : SpeakerId) (l : list SpeakerId) :
  Speaker.CHECK layout a l
  = l ++ List.filter (fun s => Speaker.present s layout) [a].
Proof.
  unfold Speaker.CHECK, Speaker.present. simpl.
  destruct (Speaker.nonzero _); [reflexivity|symmetry; apply app_nil_r].
Qed.

(** [speakersInLayout] lists the present speakers in the fixed order. *)
Lemma speakersInLayout_filter (layout : Z) :
  Speaker.speakersInLayout layout
  = List.filter (fun s => Speaker.present s layout) Derivation.speakers.
Proof.
  unfold Speaker.speakersInLayout. cbv zeta. rewrite !CHECK_filter.
  change Derivation.speakers
    with (((((((((((@nil SpeakerId ++ [FrontLeft]) ++ [FrontRight])
                    ++ [FrontCenter]) ++ [LowFrequency]) ++ [BackLeft])
                 ++ [BackRight]) ++ [FrontLeftCenter]) ++ [FrontRightCenter])
              ++ [BackCenter]) ++ [SideLeft]) ++ [SideRight]).
  rewrite !List.filter_app. reflexivity.
Qed.

Lemma In_speakersInLayout (layout : Z) (s : SpeakerId) :
  In s (Speaker.speakersInLayout layout) <-> Speaker.present s layout = true.
Proof.
  rewrite speakersInLayout_filter, List.filter_In. split; [tauto|].
  intros H. split; [|exact H]. destruct s; simpl; tauto.
Qed.

Lemma NoDup_speakers : List.NoDup Derivation.speakers.
Proof.
  unfold Derivation.speakers.
  repeat (constructor; [simpl; intuition discriminate|]). constructor.
Qed.

Lemma NoDup_speakersInLayout (layout : Z) :
  List.NoDup (Speaker.speakersInLayout layout).
Proof.
  rewrite speakersInLayout_filter. apply List.NoDup_filter, NoDup_speakers.
Qed.

Lemma to_mp_speaker_id_inj (s s' : SpeakerId) :
  Speaker.to_mp_speaker_id s = Speaker.to_mp_speaker_id s' -> s = s'.
Proof. destruct s, s'; simpl; intros H; first [reflexivity|discriminate H]. Qed.

Lemma to_mp_speaker_id_range (s : SpeakerId) :
  (0 <= Speaker.to_mp_speaker_id s < 11)%Z.
Proof. destruct s; cbv; split; congruence. Qed.

(** ** Arrays slot by slot *)

Lemma pointwise_length (a b : list (list Z)) :
  length a = length b -> length (Derivation.pointwise a b) = length a.
Proof.
  intros H. unfold Derivation.pointwise. rewrite length_zip_with. lia.
Qed.

Lemma pointwise_fresh (n : nat) (mix : list (list Z)) :
  length mix = n -> Derivation.pointwise mix (replicate n []) = mix.
Proof.
  intros <-. unfold Derivation.pointwise.
  induction mix as [|srcs mix IH]; [reflexivity|].
  simpl. rewrite IH, app_nil_r. reflexivity.
Qed.

Lemma pointwise_assoc (a b c : list (list Z)) :
  Derivation.pointwise (Derivation.pointwise a b) c
  = Derivation.pointwise a (Derivation.pointwise b c).
Proof.
  unfold Derivation.pointwise. revert b c.
  induction a as [|x a IH]; intros [|y b] [|z c]; simpl; try reflexivity.
  rewrite IH, app_assoc. reflexivity.
Qed.

Lemma pointwise_alter (n i : nat) (x : Z) (mix : list (list Z)) :
  length mix = n ->
  alter (fun srcs => srcs ++ [x]) i mix
  = Derivation.pointwise mix (alter (fun srcs => srcs ++ [x]) i (replicate n [])).
Proof.
  intros <-. unfold Derivation.pointwise. revert i.
  induction mix as [|srcs mix IH]; intros i; [reflexivity|].
  destruct i as [|i]; simpl.
  - f_equal. symmetry. apply (pointwise_fresh (length mix)). reflexivity.
  - rewrite app_nil_r. f_equal. apply IH.
Qed.

Lemma sources_pointwise (a b : list (list Z)) (d : Z) :
  length a = length b ->
  CM.sources (mkChannelManipulation (Derivation.pointwise a b)) d
  = CM.sources (mkChannelManipulation a) d
    ++ CM.sources (mkChannelManipulation b) d.
Proof.
  intros Hlen. unfold CM.sources. cbn [m_mix].
  destruct (d <? 0)%Z; [reflexivity|].
  unfold Derivation.pointwise. rewrite lookup_zip_with.
  destruct (a !! Z.to_nat d) as [x|] eqn:Ea; simpl.
  - destruct (lookup_lt_is_Some_2 b (Z.to_nat d)) as [y Eb].
    { rewrite <- Hlen. eapply lookup_lt_Some, Ea. }
    rewrite Eb. reflexivity.
  - apply lookup_ge_None in Ea.
    rewrite (proj2 (lookup_ge_None b (Z.to_nat d))) by lia. reflexivity.
Qed.

(** What a fresh array holds after one [mix[i] << x]. *)
Lemma sources_append_fresh (n : nat) (i x d : Z) :
  (0 <= i)%Z -> Z.to_nat i < n ->
  CM.sources
    (mkChannelManipulation
       (alter (fun srcs => srcs ++ [x]) (Z.to_nat i) (replicate n [])))
    d
  = if (d =? i)%Z then [x] else [].
Proof.
  intros Hi Hn. unfold CM.sources. cbn [m_mix].
  destruct (Z.eqb_spec d i) as [->|Hne].
  - replace (i <? 0)%Z with false by (symmetry; apply Z.ltb_ge; lia).
    rewrite list_lookup_alter_eq, lookup_replicate_2 by exact Hn. reflexivity.
  - destruct (d <? 0)%Z eqn:Hd; [reflexivity|]. apply Z.ltb_ge in Hd.
    rewrite list_lookup_alter_ne by lia.
    destruct (replicate n (@nil Z) !! Z.to_nat d) as [srcs|] eqn:E; [|reflexivity].
    apply lookup_replicate_1 in E as [-> _]. reflexivity.
Qed.

(** ** The mixing computations only append *)

Create HintDb framed.

Section Frames.

Variable MP_SPEAKER_ID_COUNT : nat.
Variable Mono : Z.
Variable QT_NO_DEBUG : bool.

Local Abbreviation Framed := (Derivation.Framed MP_SPEAKER_ID_COUNT).
Local Abbreviation fresh := (replicate MP_SPEAKER_ID_COUNT (@nil Z)).

Lemma Framed_ret {A} (a : A) : Framed (MixM.ret a).
Proof.
  intros mix Hlen. unfold MixM.ret. split; [apply length_replicate|].
  rewrite pointwise_fresh by exact Hlen. reflexivity.
Qed.

Lemma Framed_append (dest src : Z) : Framed (MixM.append dest src).
Proof.
  intros mix Hlen. unfold MixM.append. split.
  - rewrite length_alter. apply length_replicate.
  - do 2 f_equal. apply pointwise_alter, Hlen.
Qed.

Lemma Framed_Q_ASSERT (no_debug cond : bool) :
  Framed (MixM.Q_ASSERT no_debug cond).
Proof.
  unfold MixM.Q_ASSERT.
  destruct (no_debug || cond); [apply (Framed_ret tt)|].
  intros mix _. reflexivity.
Qed.

Lemma Framed_bind {A B} (c : MixM.t A) (k : A -> MixM.t B) :
  Framed c -> (forall a, Framed (k a)) -> Framed (MixM.bind c k).
Proof.
  intros Hc Hk mix Hlen. unfold MixM.bind.
  specialize (Hc mix Hlen).
  destruct (c fresh) as [[a more]|]; [|rewrite Hc; reflexivity].
  destruct Hc as [Hmore ->].
  pose proof (Hk a more Hmore) as Hfresh.
  pose proof (Hk a (Derivation.pointwise mix more)) as Hmix.
  rewrite pointwise_length in Hmix by congruence.
  specialize (Hmix Hlen).
  destruct (k a fresh) as [[b more']|].
  - destruct Hfresh as [Hmore' ->]. destruct Hmix as [_ ->].
    split; [rewrite pointwise_length; congruence|].
    rewrite pointwise_assoc. reflexivity.
  - rewrite Hfresh. exact Hmix.
Qed.

Lemma Framed_if {A} (cond : bool) (a b : MixM.t A) :
  Framed a -> Framed b -> Framed (if cond then a else b).
Proof. destruct cond; auto. Qed.

Hint Resolve Framed_ret Framed_append Framed_Q_ASSERT Framed_bind Framed_if
  : framed.

Lemma Framed_not (a : MixM.t bool) : Framed a -> Framed (MixM.not_ a).
Proof. unfold MixM.not_. auto with framed. Qed.

Lemma Framed_or (a b : MixM.t bool) :
  Framed a -> Framed b -> Framed (MixM.or_ a b).
Proof. unfold MixM.or_. auto with framed. Qed.

Lemma Framed_and (a b : MixM.t bool) :
  Framed a -> Framed b -> Framed (MixM.and_ a b).
Proof. unfold MixM.and_. auto with framed. Qed.

Lemma Framed_when (c : MixM.t bool) (body : MixM.t unit) :
  Framed c -> Framed body -> Framed (MixM.when_ c body).
Proof. unfold MixM.when_. auto with framed. Qed.

Lemma Framed_for {A} (xs : list A) (body : A -> MixM.t unit) :
  (forall x, Framed (body x)) -> Framed (MixM.for_ xs body).
Proof.
  intros Hbody. induction xs as [|x xs IH]; simpl; auto with framed.
Qed.

Lemma Framed_testAndSet (dstLayout mps : Z) (id : SpeakerId) :
  Framed (CLM.testAndSet dstLayout mps id).
Proof. unfold CLM.testAndSet. auto with framed. Qed.

Lemma Framed_testAndSet2 (dstLayout mps : Z) (left right : SpeakerId) :
  Framed (CLM.testAndSet2 dstLayout mps left right).
Proof. unfold CLM.testAndSet2. auto 7 with framed. Qed.

Hint Resolve Framed_not Framed_or Framed_and Framed_when Framed_for
  Framed_testAndSet Framed_testAndSet2 : framed.

Lemma Framed_switch (dstLayout mps : Z) (srcSpeaker : SpeakerId) :
  Framed (CLM.switch_ QT_NO_DEBUG dstLayout mps srcSpeaker).
Proof.
  destruct srcSpeaker;
    unfold CLM.switch_, CLM.setBoth, CLM.setLeft, CLM.setRight;
    auto 7 with framed.
Qed.

Lemma Framed_mixSpeaker (dstLayout : Z) (srcSpeaker : SpeakerId) :
  Framed (CLM.mixSpeaker Mono QT_NO_DEBUG dstLayout srcSpeaker).
Proof.
  unfold CLM.mixSpeaker. cbv zeta.
  repeat apply Framed_if; auto using Framed_switch with framed.
Qed.

End Frames.

(** ** QMap and the entries of a ChannelLayoutMap *)

Lemma QMap_find_insert_eq {V} (key : Z) (v : V) (m : QMap.t V) :
  QMap.find key (QMap.insert key v m) = Some v.
Proof.
  induction m as [|[k w] m IH]; simpl.
  - rewrite Z.eqb_refl. reflexivity.
  - destruct (key <? k)%Z eqn:Hlt; simpl; [rewrite Z.eqb_refl; reflexivity|].
    destruct (key =? k)%Z eqn:Heq; simpl; [rewrite Z.eqb_refl; reflexivity|].
    rewrite Z.eqb_sym, Heq. exact IH.
Qed.

Lemma QMap_find_insert_ne {V} (key key' : Z) (v : V) (m : QMap.t V) :
  key <> key' -> QMap.find key' (QMap.insert key v m) = QMap.find key' m.
Proof.
  intros Hne. apply Z.eqb_neq in Hne.
  induction m as [|[k w] m IH]; simpl.
  - rewrite Hne. reflexivity.
  - destruct (key <? k)%Z eqn:Hlt; simpl; [rewrite Hne; reflexivity|].
    destruct (key =? k)%Z eqn:Heq; simpl.
    + apply Z.eqb_eq in Heq. subst k. rewrite Hne. reflexivity.
    + rewrite IH. reflexivity.
Qed.

Section Entries.

Variable MP_SPEAKER_ID_COUNT : nat.

Lemma lookup_assign (map : ChannelLayoutMap) (src dest src' dest' : Z)
    (man : ChannelManipulation) :
  Derivation.lookup (CLM.assign map src dest man) src' dest'
  = if decide (src' = src /\ dest' = dest) then Some man
    else Derivation.lookup map src' dest'.
Proof.
  unfold Derivation.lookup, CLM.assign, QMap.value. cbn [m_map].
  destruct (decide (src' = src)) as [->|Hsrc].
  - rewrite QMap_find_insert_eq.
    destruct (decide (dest' = dest)) as [->|Hdest].
    + rewrite QMap_find_insert_eq. rewrite decide_True by tauto. reflexivity.
    + rewrite QMap_find_insert_ne by congruence.
      rewrite decide_False by tauto.
      match goal with |- context [default [] ?inner] => set (o := inner) end.
      change (QMap.find src (m_map map)) with o.
      destruct o; reflexivity.
  - rewrite QMap_find_insert_ne by congruence.
    rewrite decide_False by tauto. reflexivity.
Qed.

(** [operator()] reads the stored entry, or a fresh manipulation. *)
Lemma at_lookup (map : ChannelLayoutMap) (src dest : Z) :
  CLM.at_ MP_SPEAKER_ID_COUNT map src dest
  = default (CM.empty MP_SPEAKER_ID_COUNT) (Derivation.lookup map src dest).
Proof.
  unfold CLM.at_, Derivation.lookup, QMap.value.
  match goal with |- context [default [] ?inner] => set (o := inner) end.
  change (QMap.find src (m_map map)) with o.
  destruct o; reflexivity.
Qed.

End Entries.

(** ** The loops of [default_] *)

Section Loops.

Variable MP_SPEAKER_ID_COUNT : nat.
Variables Default Mono : Z.
Variable QT_NO_DEBUG : bool.

Local Abbreviation fresh := (replicate MP_SPEAKER_ID_COUNT (@nil Z)).
Local Abbreviation default_dst := (CLM.default_dst MP_SPEAKER_ID_COUNT Default Mono QT_NO_DEBUG).
Local Abbreviation default_src := (CLM.default_src MP_SPEAKER_ID_COUNT Default Mono QT_NO_DEBUG).
Local Abbreviation default_ := (CLM.default_ MP_SPEAKER_ID_COUNT Default Mono QT_NO_DEBUG).
Local Abbreviation derive := (Derivation.derive MP_SPEAKER_ID_COUNT Mono QT_NO_DEBUG).

(** The loop over the destination layouts writes the entries of its source
    layout, each from a fresh array, and nothing else. *)
Lemma default_dst_loop (srcLayout : Z) (dsts : list Z) :
  forall map map' : ChannelLayoutMap,
    List.NoDup dsts ->
    (forall dst, In dst dsts -> Derivation.lookup map srcLayout dst = None) ->
    CLM.forLayouts dsts
      (default_dst srcLayout (Speaker.speakersInLayout srcLayout)) map = Some map' ->
    (forall src' dst',
        ~ (src' = srcLayout /\ In dst' dsts /\ dst' <> Default) ->
        Derivation.lookup map' src' dst' = Derivation.lookup map src' dst')
    /\ (forall dst',
          In dst' dsts -> dst' <> Default ->
          exists mix,
            derive srcLayout dst' = Some (tt, mix) /\
            Derivation.lookup map' srcLayout dst'
            = Some (mkChannelManipulation mix)).
Proof.
  induction dsts as [|dst dsts IH]; intros map map' Hnodup Hnew Hrun.
  - simpl in Hrun. injection Hrun as <-. split; [reflexivity|].
    intros dst' [].
  - apply List.NoDup_cons_iff in Hnodup as [Hfirst Hnodup].
    cbn [CLM.forLayouts] in Hrun. unfold CLM.default_dst in Hrun at 1.
    destruct (Z.eqb_spec dst Default) as [->|Hdst].
    + destruct (IH map map' Hnodup) as [Hother Hmine]; [|exact Hrun|].
      { intros d Hd. apply Hnew. right. exact Hd. }
      split.
      * intros src' dst' Hno. apply Hother. intros (? & ? & ?).
        apply Hno. repeat split; try assumption. right. assumption.
      * intros dst' [<-|Hin] Hne; [congruence|]. apply Hmine; assumption.
    + cbv zeta in Hrun. rewrite at_lookup in Hrun.
      rewrite Hnew in Hrun by (left; reflexivity).
      cbn [default from_option id CM.empty m_mix] in Hrun.
      destruct (MixM.for_ (Speaker.speakersInLayout srcLayout)
                          (CLM.mixSpeaker Mono QT_NO_DEBUG dst) fresh)
        as [[[] mix]|] eqn:Hmix; [|discriminate Hrun].
      destruct (IH (CLM.assign map srcLayout dst (mkChannelManipulation mix))
                   map' Hnodup) as [Hother Hmine]; [|exact Hrun|].
      { intros d Hd. rewrite lookup_assign, decide_False; [|intros [_ ->]; tauto].
        apply Hnew. right. exact Hd. }
      split.
      * intros src' dst' Hno. rewrite Hother.
        -- rewrite lookup_assign, decide_False; [reflexivity|].
           intros [-> ->]. apply Hno. repeat split; [left; reflexivity|exact Hdst].
        -- intros (? & ? & ?). apply Hno. repeat split; try assumption.
           right. assumption.
      * intros dst' [<-|Hin] Hne; [|apply Hmine; assumption].
        exists mix. split; [exact Hmix|].
        rewrite Hother by tauto.
        rewrite lookup_assign, decide_True by tauto. reflexivity.
Qed.

Lemma default_src_loop (items srcs : list Z) :
  forall map map' : ChannelLayoutMap,
    List.NoDup items -> List.NoDup srcs ->
    (forall src dst, In src srcs -> Derivation.lookup map src dst = None) ->
    CLM.forLayouts srcs (default_src items) map = Some map' ->
    (forall src' dst',
        ~ (In src' srcs /\ src' <> Default /\ In dst' items /\ dst' <> Default) ->
        Derivation.lookup map' src' dst' = Derivation.lookup map src' dst')
    /\ (forall src' dst',
          In src' srcs -> src' <> Default -> In dst' items -> dst' <> Default ->
          exists mix,
            derive src' dst' = Some (tt, mix) /\
            Derivation.lookup map' src' dst'
            = Some (mkChannelManipulation mix)).
Proof.
  induction srcs as [|src srcs IH]; intros map map' Hitems Hnodup Hnew Hrun.
  - simpl in Hrun. injection Hrun as <-. split; [reflexivity|].
    intros src' dst' [].
  - apply List.NoDup_cons_iff in Hnodup as [Hfirst Hnodup].
    cbn [CLM.forLayouts] in Hrun. unfold CLM.default_src in Hrun at 1.
    destruct (Z.eqb_spec src Default) as [->|Hsrc].
    + destruct (IH map map' Hitems Hnodup) as [Hother Hmine]; [|exact Hrun|].
      { intros s d Hs. apply Hnew. right. exact Hs. }
      split.
      * intros src' dst' Hno. apply Hother. intros (? & ? & ?).
        apply Hno. repeat split; try tauto. right. assumption.
      * intros src' dst' [<-|Hin] Hne; [congruence|]. apply Hmine; assumption.
    + cbv zeta in Hrun.
      destruct (CLM.forLayouts items _ map) as [map1|] eqn:Hinner;
        [|discriminate Hrun].
      destruct (default_dst_loop src items map map1 Hitems)
        as [Hrow_other Hrow]; [|exact Hinner|].
      { intros d _. apply Hnew. left. reflexivity. }
      destruct (IH map1 map' Hitems Hnodup) as [Hother Hmine]; [|exact Hrun|].
      { intros s d Hs. rewrite Hrow_other; [apply Hnew; right; exact Hs|].
        intros [-> _]. contradiction. }
      split.
      * intros src' dst' Hno. rewrite Hother.
        -- apply Hrow_other. intros (-> & ? & ?). apply Hno.
           repeat split; try assumption. left. reflexivity.
        -- intros (? & ? & ?). apply Hno. repeat split; try tauto.
           right. assumption.
      * intros src' dst' [<-|Hin] Hne Hd Hdne; [|apply Hmine; assumption].
        destruct (Hrow dst' Hd Hdne) as (mix & Hmix & Hlook).
        exists mix. split; [exact Hmix|].
        rewrite Hother; [exact Hlook|]. intros [? _]. contradiction.
Qed.

(** The entry of a pair of registered layouts, neither of them Default, is
    what the speaker loop derives on a fresh array. *)
Lemma default_lookup (items : list Z) (map : ChannelLayoutMap) (src dst : Z) :
  List.NoDup items ->
  default_ items = Some map ->
  In src items -> In dst items -> src <> Default -> dst <> Default ->
  exists mix,
    derive src dst = Some (tt, mix) /\
    Derivation.lookup map src dst = Some (mkChannelManipulation mix).
Proof.
  intros Hnodup Hrun Hsrc Hdst Hs Hd. unfold CLM.default_ in Hrun.
  destruct (default_src_loop items items (mkChannelLayoutMap []) map
              Hnodup Hnodup) as [_ Hmine]; [reflexivity|exact Hrun|].
  apply Hmine; assumption.
Qed.

End Loops.

(** ** One source speaker at a time *)

Lemma sources_append (mix : list (list Z)) (i x d : Z) :
  (0 <= i)%Z -> Z.to_nat i < length mix ->
  CM.sources
    (mkChannelManipulation (alter (fun srcs => srcs ++ [x]) (Z.to_nat i) mix)) d
  = CM.sources (mkChannelManipulation mix) d ++ (if (d =? i)%Z then [x] else []).
Proof.
  intros Hi Hlen. unfold CM.sources. cbn [m_mix].
  destruct (d <? 0)%Z eqn:Hd.
  - apply Z.ltb_lt in Hd. destruct (Z.eqb_spec d i); [lia|reflexivity].
  - apply Z.ltb_ge in Hd. destruct (Z.eqb_spec d i) as [->|Hne].
    + rewrite list_lookup_alter_eq.
      destruct (lookup_lt_is_Some_2 mix (Z.to_nat i) Hlen) as [srcs ->].
      reflexivity.
    + rewrite list_lookup_alter_ne by lia. symmetry. apply app_nil_r.
Qed.

Ltac slot :=
  cbn [Speaker.to_mp_speaker_id];
  unfold MP_SPEAKER_ID_FL, MP_SPEAKER_ID_FR, MP_SPEAKER_ID_FC,
    MP_SPEAKER_ID_LFE, MP_SPEAKER_ID_BL, MP_SPEAKER_ID_BR, MP_SPEAKER_ID_FLC,
    MP_SPEAKER_ID_FRC, MP_SPEAKER_ID_BC, MP_SPEAKER_ID_SL, MP_SPEAKER_ID_SR,
    ChNamesSize in *;
  rewrite ?length_alter, ?length_replicate; lia.

Ltac mix_tests :=
  unfold CLM.switch_, CLM.testAndSet, CLM.testAndSet2, CLM.setBoth,
    CLM.setLeft, CLM.setRight;
  rewrite ?nonzero_land_comm, ?nonzero_land_pair.

Ltac mix_eval :=
  cbv [MixM.when_ MixM.or_ MixM.and_ MixM.not_ MixM.bind MixM.ret
       MixM.append MixM.Q_ASSERT negb orb].

Section Speakers.

Variable MP_SPEAKER_ID_COUNT : nat.
Variables Default Mono : Z.
Variable QT_NO_DEBUG : bool.

Hypothesis COUNT_covers : ChNamesSize <= MP_SPEAKER_ID_COUNT.

Local Abbreviation fresh := (replicate MP_SPEAKER_ID_COUNT (@nil Z)).
Local Abbreviation mixSpeaker := (CLM.mixSpeaker Mono QT_NO_DEBUG).
Local Abbreviation derive := (Derivation.derive MP_SPEAKER_ID_COUNT Mono QT_NO_DEBUG).

(** What one source speaker adds to the destination [d] of a fresh array. *)
Local Abbreviation contribution dstLayout d :=
  (fun srcSpeaker : SpeakerId =>
     match mixSpeaker dstLayout srcSpeaker fresh with
     | Some (_, more) => CM.sources (mkChannelManipulation more) d
     | None => []
     end).

Lemma sources_fresh (d : Z) : CM.sources (mkChannelManipulation fresh) d = [].
Proof. apply (sources_empty MP_SPEAKER_ID_COUNT). Qed.

(** The array after the speaker loop holds, at each destination, what the
    source speakers add one after the other. *)
Lemma for_sources (dstLayout d : Z) (srcSpeakers : list SpeakerId) :
  forall mix,
    MixM.for_ srcSpeakers (mixSpeaker dstLayout) fresh = Some (tt, mix) ->
    length mix = MP_SPEAKER_ID_COUNT /\
    CM.sources (mkChannelManipulation mix) d
    = flat_map (contribution dstLayout d) srcSpeakers.
Proof.
  induction srcSpeakers as [|s rest IH]; intros mix Hrun.
  - injection Hrun as <-. split; [apply length_replicate|apply sources_fresh].
  - cbn [MixM.for_] in Hrun. unfold MixM.bind in Hrun.
    pose proof (Framed_mixSpeaker MP_SPEAKER_ID_COUNT Mono QT_NO_DEBUG dstLayout s fresh
                  (length_replicate _ _)) as Hs.
    cbn [flat_map].
    destruct (mixSpeaker dstLayout s fresh) as [[[] first]|]; [|discriminate Hrun].
    destruct Hs as [Hfirst _].
    pose proof (Framed_for MP_SPEAKER_ID_COUNT rest (mixSpeaker dstLayout)
                  (Framed_mixSpeaker MP_SPEAKER_ID_COUNT Mono QT_NO_DEBUG dstLayout)
                  first Hfirst) as Hrest.
    destruct (MixM.for_ rest (mixSpeaker dstLayout) fresh) as [[[] more]|] eqn:Hmore;
      [|congruence].
    destruct Hrest as [Hlen Hrest]. rewrite Hrest in Hrun. injection Hrun as <-.
    destruct (IH more eq_refl) as [_ IHsrc].
    split; [rewrite pointwise_length; congruence|].
    rewrite sources_pointwise by congruence. rewrite IHsrc. reflexivity.
Qed.

Lemma derive_sources (srcLayout dstLayout d : Z) (mix : list (list Z)) :
  derive srcLayout dstLayout = Some (tt, mix) ->
  CM.sources (mkChannelManipulation mix) d
  = flat_map (contribution dstLayout d) (Speaker.speakersInLayout srcLayout).
Proof. intros H. apply for_sources, H. Qed.

(** *** Direct pass-through and Mono collapse *)

Lemma contribution_present (dstLayout d : Z) (s : SpeakerId) :
  Speaker.present s dstLayout = true ->
  contribution dstLayout d s
  = if (d =? Speaker.to_mp_speaker_id s)%Z then [Speaker.to_mp_speaker_id s] else [].
Proof.
  intros Hs. unfold CLM.mixSpeaker. cbv zeta.
  change (Speaker.nonzero (Z.land (Speaker.value s) dstLayout))
    with (Speaker.present s dstLayout).
  rewrite Hs. mix_eval. apply sources_append_fresh.
  - pose proof (to_mp_speaker_id_range s). lia.
  - pose proof (to_mp_speaker_id_range s). unfold ChNamesSize in *. lia.
Qed.

Lemma contribution_Mono (d : Z) (s : SpeakerId) :
  Speaker.present s Mono = false ->
  contribution Mono d s
  = if (d =? MP_SPEAKER_ID_FC)%Z then [Speaker.to_mp_speaker_id s] else [].
Proof.
  intros Hs. unfold CLM.mixSpeaker. cbv zeta.
  change (Speaker.nonzero (Z.land (Speaker.value s) Mono))
    with (Speaker.present s Mono).
  rewrite Hs, Z.eqb_refl. mix_eval. apply sources_append_fresh; slot.
Qed.

(** *** The positional fallback of BackLeft, LowFrequency and FrontCenter *)

Lemma contribution_BackLeft (dstLayout d : Z) :
  Speaker.present BackLeft dstLayout = false ->
  dstLayout <> Mono ->
  contribution dstLayout d BackLeft
  = if (d =? (if Speaker.present BackCenter dstLayout then MP_SPEAKER_ID_BC
              else if Speaker.present SideLeft dstLayout then MP_SPEAKER_ID_SL
                   else MP_SPEAKER_ID_FL))%Z
    then [MP_SPEAKER_ID_BL] else [].
Proof.
  intros Hs HMono. unfold CLM.mixSpeaker. cbv zeta.
  change (Speaker.nonzero (Z.land (Speaker.value BackLeft) dstLayout))
    with (Speaker.present BackLeft dstLayout).
  rewrite Hs, (proj2 (Z.eqb_neq _ _) HMono). mix_tests.
  destruct (Speaker.present BackCenter dstLayout),
    (Speaker.present SideLeft dstLayout);
    mix_eval; apply sources_append_fresh; slot.
Qed.

(** With FrontCenter in the destination, LowFrequency is appended there
    and once more: the second test of the condition runs as well. *)
Lemma contribution_LowFrequency (dstLayout d : Z) :
  Speaker.present LowFrequency dstLayout = false ->
  dstLayout <> Mono ->
  contribution dstLayout d LowFrequency
  = if Speaker.present FrontCenter dstLayout then
      (if (d =? MP_SPEAKER_ID_FC)%Z then [MP_SPEAKER_ID_LFE] else [])
      ++ (if (d =? (if Speaker.present FrontLeftCenter dstLayout
                    then MP_SPEAKER_ID_FLC else MP_SPEAKER_ID_FL))%Z
          then [MP_SPEAKER_ID_LFE] else [])
    else if (d =? MP_SPEAKER_ID_FL)%Z then [MP_SPEAKER_ID_LFE] else [].
Proof.
  intros Hs HMono. unfold CLM.mixSpeaker. cbv zeta.
  change (Speaker.nonzero (Z.land (Speaker.value LowFrequency) dstLayout))
    with (Speaker.present LowFrequency dstLayout).
  rewrite Hs, (proj2 (Z.eqb_neq _ _) HMono). mix_tests.
  destruct (Speaker.present FrontCenter dstLayout),
    (Speaker.present FrontLeftCenter dstLayout);
    mix_eval;
    rewrite !sources_append by slot;
    rewrite sources_fresh; reflexivity.
Qed.


(** *** A source speaker writes its own identifier only *)

Lemma contribution_own (dstLayout d : Z) (s : SpeakerId) (x : Z) :
  In x (contribution dstLayout d s) -> x = Speaker.to_mp_speaker_id s.
Proof.
  destruct (Speaker.present s dstLayout) eqn:Hs.
  { rewrite contribution_present by exact Hs.
    destruct (d =? _)%Z; simpl; intuition congruence. }
  destruct (Z.eqb_spec dstLayout Mono) as [->|HMono].
  { rewrite contribution_Mono by exact Hs.
    destruct (d =? _)%Z; simpl; intuition congruence. }
  unfold CLM.mixSpeaker. cbv zeta.
  change (Speaker.nonzero (Z.land (Speaker.value s) dstLayout))
    with (Speaker.present s dstLayout).
  rewrite Hs, (proj2 (Z.eqb_neq _ _) HMono). clear Hs.
  destruct s, QT_NO_DEBUG; mix_tests;
    repeat match goal with
           | |- context [Speaker.present ?a ?b] => destruct (Speaker.present a b)
           end;
    mix_eval; rewrite ?sources_append by slot; rewrite ?sources_fresh;
    repeat match goal with
           | |- context [(d =? ?c)%Z] => destruct (d =? c)%Z
           end;
    simpl; intuition congruence.
Qed.

(** After the speaker loop a destination lists a speaker of the source
    layout exactly when that speaker's own iteration wrote it there. *)
Lemma derive_contributes (srcLayout dstLayout d : Z) (mix : list (list Z))
    (s : SpeakerId) :
  derive srcLayout dstLayout = Some (tt, mix) ->
  Speaker.present s srcLayout = true ->
  In (Speaker.to_mp_speaker_id s) (CM.sources (mkChannelManipulation mix) d)
  <-> In (Speaker.to_mp_speaker_id s) (contribution dstLayout d s).
Proof.
  intros Hrun Hs. rewrite (derive_sources _ _ _ _ Hrun), in_flat_map. split.
  - intros (s' & _ & Hin).
    pose proof (contribution_own _ _ _ _ Hin) as Heq.
    apply to_mp_speaker_id_inj in Heq. subst s'. exact Hin.
  - intros Hin. exists s. split; [|exact Hin].
    apply In_speakersInLayout, Hs.
Qed.

(** *** No abort without assertions, or on a table of stereo-based layouts *)

Lemma mixSpeaker_total (dstLayout : Z) (s : SpeakerId) (mix : list (list Z)) :
  QT_NO_DEBUG = true \/ dstLayout = Mono \/
  (Speaker.present FrontLeft dstLayout = true /\
   Speaker.present FrontRight dstLayout = true) ->
  exists mix', mixSpeaker dstLayout s mix = Some (tt, mix').
Proof.
  clear COUNT_covers. intros Hdst. unfold CLM.mixSpeaker. cbv zeta.
  change (Speaker.nonzero (Z.land (Speaker.value s) dstLayout))
    with (Speaker.present s dstLayout).
  destruct (Speaker.present s dstLayout) eqn:Hs; [eexists; reflexivity|].
  destruct (Z.eqb_spec dstLayout Mono) as [->|HMono]; [eexists; reflexivity|].
  destruct Hdst as [->|[|[HL HR]]]; [|contradiction|].
  - clear Hs. destruct s; mix_tests;
      repeat match goal with
             | |- context [Speaker.present ?a ?b] => destruct (Speaker.present a b)
             end;
      mix_eval; eexists; reflexivity.
  - destruct s; try congruence; clear Hs; mix_tests;
      repeat match goal with
             | |- context [Speaker.present ?a ?b] => destruct (Speaker.present a b)
             end;
      mix_eval; eexists; reflexivity.
Qed.

Lemma for_total (dstLayout : Z) (srcSpeakers : list SpeakerId) :
  QT_NO_DEBUG = true \/ dstLayout = Mono \/
  (Speaker.present FrontLeft dstLayout = true /\
   Speaker.present FrontRight dstLayout = true) ->
  forall mix,
  exists mix', MixM.for_ srcSpeakers (mixSpeaker dstLayout) mix = Some (tt, mix').
Proof.
  clear COUNT_covers. intros Hdst.
  induction srcSpeakers as [|s rest IH]; intros mix; [eexists; reflexivity|].
  cbn [MixM.for_]. unfold MixM.bind.
  destruct (mixSpeaker_total dstLayout s mix Hdst) as [mix1 ->]. apply IH.
Qed.

Lemma forLayouts_total (items : list Z)
    (body : ChannelLayoutMap -> Z -> option ChannelLayoutMap) :
  (forall map item, In item items -> exists map', body map item = Some map') ->
  forall map, exists map', CLM.forLayouts items body map = Some map'.
Proof.
  clear COUNT_covers.
  induction items as [|item items IH]; intros Hbody map; [eexists; reflexivity|].
  cbn [CLM.forLayouts].
  destruct (Hbody map item (or_introl eq_refl)) as [map1 ->].
  apply IH. intros m i Hi. apply Hbody. right. exact Hi.
Qed.

Lemma default_total (items : list Z) :
  QT_NO_DEBUG = true \/ Derivation.stereo_based Default Mono items ->
  exists map,
    CLM.default_ MP_SPEAKER_ID_COUNT Default Mono QT_NO_DEBUG items = Some map.
Proof.
  clear COUNT_covers. intros Hitems. unfold CLM.default_.
  apply forLayouts_total. intros map src _. unfold CLM.default_src.
  destruct (src =? Default)%Z; [eexists; reflexivity|]. cbv zeta.
  apply forLayouts_total. intros map1 dst Hdst. unfold CLM.default_dst.
  destruct (Z.eqb_spec dst Default) as [->|Hne]; [eexists; reflexivity|].
  cbv zeta.
  assert (Hok : QT_NO_DEBUG = true \/ dst = Mono \/
                (Speaker.present FrontLeft dst = true /\
                 Speaker.present FrontRight dst = true)).
  { destruct Hitems as [HQ|Hitems]; [left; exact HQ|right].
    unfold Derivation.stereo_based in Hitems.
    rewrite List.Forall_forall in Hitems.
    destruct (Hitems dst Hdst) as [?|[?|?]]; [contradiction|left|right]; assumption. }
  destruct (for_total dst (Speaker.speakersInLayout src) Hok
              (m_mix (CLM.at_ MP_SPEAKER_ID_COUNT map1 src dst))) as [mix' ->].
  eexists. reflexivity.
Qed.

(** The entry [default_] stores for a pair of registered layouts. *)
Lemma default_entry (items : list Z) (src dst : Z) :
  List.NoDup items ->
  QT_NO_DEBUG = true \/ Derivation.stereo_based Default Mono items ->
  In src items -> In dst items -> src <> Default -> dst <> Default ->
  exists map mix,
    CLM.default_ MP_SPEAKER_ID_COUNT Default Mono QT_NO_DEBUG items = Some map /\
    derive src dst = Some (tt, mix) /\
    Derivation.lookup map src dst = Some (mkChannelManipulation mix) /\
    CLM.at_ MP_SPEAKER_ID_COUNT map src dst = mkChannelManipulation mix.
Proof.
  clear COUNT_covers. intros Hnodup Hitems Hsrc Hdst Hs Hd.
  destruct (default_total items Hitems) as [map Hmap].
  destruct (default_lookup _ _ _ _ items map src dst Hnodup Hmap Hsrc Hdst Hs Hd)
    as (mix & Hmix & Hlook).
  exists map, mix. repeat split; try assumption.
  rewrite at_lookup, Hlook. reflexivity.
Qed.

End Speakers.

(** ** Lists of single contributions *)

Lemma in_single_if (x d c : Z) :
  In x (if (d =? c)%Z then [x] else []) <-> d = c.
Proof.
  destruct (Z.eqb_spec d c); simpl; intuition.
Qed.

Lemma flat_map_ext_In {A B} (f g : A -> list B) (l : list A) :
  (forall a, In a l -> f a = g a) -> flat_map f l = flat_map g l.
Proof.
  induction l as [|a l IH]; intros H; [reflexivity|].
  cbn [flat_map]. rewrite (H a (or_introl eq_refl)), IH; [reflexivity|].
  intros b Hb. apply H. right. exact Hb.
Qed.

Lemma flat_map_if {A B} (cond : bool) (f : A -> B) (l : list A) :
  flat_map (fun a => if cond then [f a] else []) l
  = if cond then List.map f l else [].
Proof.
  destruct cond; induction l as [|a l IH]; simpl; congruence.
Qed.

Lemma flat_map_none (d : Z) (l : list SpeakerId) :
  (forall s, In s l -> d <> Speaker.to_mp_speaker_id s) ->
  flat_map (fun s => if (d =? Speaker.to_mp_speaker_id s)%Z
                     then [Speaker.to_mp_speaker_id s] else []) l = [].
Proof.
  induction l as [|a l IH]; intros H; [reflexivity|].
  cbn [flat_map]. rewrite IH by (intros s Hs; apply H; right; exact Hs).
  rewrite (proj2 (Z.eqb_neq _ _) (H a (or_introl eq_refl))). reflexivity.
Qed.

Lemma flat_map_one (s0 : SpeakerId) (l : list SpeakerId) :
  List.NoDup l -> In s0 l ->
  flat_map (fun s => if (Speaker.to_mp_speaker_id s0 =? Speaker.to_mp_speaker_id s)%Z
                     then [Speaker.to_mp_speaker_id s] else []) l
  = [Speaker.to_mp_speaker_id s0].
Proof.
  induction 1 as [|a l Ha Hl IH]; intros Hin; [destruct Hin|].
  cbn [flat_map]. destruct Hin as [->|Hin].
  - rewrite Z.eqb_refl, flat_map_none; [reflexivity|].
    intros s Hs Heq. apply to_mp_speaker_id_inj in Heq. congruence.
  - rewrite IH by exact Hin.
    destruct (Z.eqb_spec (Speaker.to_mp_speaker_id s0) (Speaker.to_mp_speaker_id a))
      as [Heq|_]; [|reflexivity].
    apply to_mp_speaker_id_inj in Heq. congruence.
Qed.

(** ** The entries of [default_] *)

Section DefaultFacts.

Variable MP_SPEAKER_ID_COUNT : nat.
Variables Default Mono : Z.
Variable QT_NO_DEBUG : bool.
Variable items : list Z.

Hypothesis COUNT_covers : ChNamesSize <= MP_SPEAKER_ID_COUNT.
Hypothesis items_distinct : List.NoDup items.

(** No run aborts: the assertions are compiled out, or no pair of layouts
    of the table reaches one. *)
Hypothesis items_no_abort :
  QT_NO_DEBUG = true \/ Derivation.stereo_based Default Mono items.

Local Abbreviation default_ := (CLM.default_ MP_SPEAKER_ID_COUNT Default Mono QT_NO_DEBUG items).
Local Abbreviation at_ := (CLM.at_ MP_SPEAKER_ID_COUNT).
Local Abbreviation mp := Speaker.to_mp_speaker_id.

(** C7: in the entry of (S, Mono), every speaker whose bit is set in S is a
    source of FrontCenter, FrontCenter's sources are exactly these speakers
    (the eleven speakers in the order of [speakersInLayout], those kept
    whose bit is set in S), and no other destination has a source. Mono is
    taken to be a layout whose only speaker is FrontCenter. *)
Theorem mono_collapse (S : Z) :
  In S items -> In Mono items -> S <> Default -> Mono <> Default ->
  (forall s, Speaker.present s Mono = true <-> s = FrontCenter) ->
  exists map,
    default_ = Some map /\
    (forall s, Speaker.present s S = true ->
               In (mp s) (CM.sources (at_ map S Mono) MP_SPEAKER_ID_FC)) /\
    (forall x, In x (CM.sources (at_ map S Mono) MP_SPEAKER_ID_FC) ->
               exists s, Speaker.present s S = true /\ x = mp s) /\
    CM.sources (at_ map S Mono) MP_SPEAKER_ID_FC
    = List.map mp (List.filter (fun s => Speaker.present s S)
                               [FrontLeft; FrontRight; FrontCenter; LowFrequency;
                                BackLeft; BackRight; FrontLeftCenter;
                                FrontRightCenter; BackCenter; SideLeft; SideRight]) /\
    forall d, d <> MP_SPEAKER_ID_FC -> CM.sources (at_ map S Mono) d = [].
Proof.
  intros HS HMono HSd HMd Hmono.
  destruct (default_entry MP_SPEAKER_ID_COUNT Default Mono QT_NO_DEBUG items S Mono)
    as (map & mix & Hmap & Hmix & _ & Hat); try assumption.
  exists map. split; [exact Hmap|]. rewrite Hat.
  assert (Hall : forall d,
             CM.sources (mkChannelManipulation mix) d
             = if (d =? MP_SPEAKER_ID_FC)%Z
               then List.map mp (Speaker.speakersInLayout S) else []).
  { intros d.
    rewrite (derive_sources _ _ _ _ _ d _ Hmix).
    rewrite <- flat_map_if. apply flat_map_ext. intros s.
    destruct (Speaker.present s Mono) eqn:Hs.
    - assert (s = FrontCenter) as -> by (apply Hmono, Hs).
      apply (contribution_present _ _ _ COUNT_covers), Hs.
    - apply (contribution_Mono _ _ _ COUNT_covers), Hs. }
  assert (HFC : CM.sources (mkChannelManipulation mix) MP_SPEAKER_ID_FC
                = List.map mp (Speaker.speakersInLayout S)).
  { rewrite Hall, Z.eqb_refl. reflexivity. }
  split; [|split; [|split]].
  - intros s Hs. rewrite HFC. apply List.in_map, In_speakersInLayout, Hs.
  - intros x Hx. rewrite HFC in Hx. apply List.in_map_iff in Hx.
    destruct Hx as (s & Hx & Hs). exists s.
    split; [apply In_speakersInLayout, Hs | symmetry; exact Hx].
  - rewrite HFC, speakersInLayout_filter. reflexivity.
  - intros d Hd. rewrite Hall, (proj2 (Z.eqb_neq _ _) Hd). reflexivity.
Qed.

(** C8: in the entry of (L, L) every speaker of L has itself as its only
    source, and a destination that is no speaker of L has none. *)
Theorem pass_through_identity (L : Z) :
  In L items -> L <> Default ->
  exists map,
    default_ = Some map /\
    (forall s, Speaker.present s L = true ->
               CM.sources (at_ map L L) (mp s) = [mp s]) /\
    (forall d, (forall s, Speaker.present s L = true -> d <> mp s) ->
               CM.sources (at_ map L L) d = []).
Proof.
  intros HL HLd.
  destruct (default_entry MP_SPEAKER_ID_COUNT Default Mono QT_NO_DEBUG items L L)
    as (map & mix & Hmap & Hmix & _ & Hat); try assumption.
  exists map. split; [exact Hmap|]. rewrite Hat.
  assert (Hall : forall d,
             CM.sources (mkChannelManipulation mix) d
             = flat_map (fun s => if (d =? mp s)%Z then [mp s] else [])
                        (Speaker.speakersInLayout L)).
  { intros d. rewrite (derive_sources _ _ _ _ _ d _ Hmix).
    apply flat_map_ext_In. intros s Hs.
    apply (contribution_present _ _ _ COUNT_covers), In_speakersInLayout, Hs. }
  split.
  - intros s Hs. rewrite Hall.
    apply flat_map_one; [apply NoDup_speakersInLayout|].
    apply In_speakersInLayout, Hs.
  - intros d Hd. rewrite Hall. apply flat_map_none.
    intros s Hs. apply Hd, In_speakersInLayout, Hs.
Qed.

(** C3, for the speakers S and D share: the entry of (S, D) exists, and
    every speaker present in both S and D has a contributing source,
    itself. *)
Theorem coverage_of_shared_speakers (S D : Z) :
  In S items -> In D items -> S <> Default -> D <> Default ->
  exists map man,
    default_ = Some map /\
    Derivation.lookup map S D = Some man /\
    forall s, Speaker.present s D = true -> Speaker.present s S = true ->
              In (mp s) (CM.sources man (mp s)) /\ CM.sources man (mp s) <> [].
Proof.
  intros HS HD HSd HDd.
  destruct (default_entry MP_SPEAKER_ID_COUNT Default Mono QT_NO_DEBUG items S D)
    as (map & mix & Hmap & Hmix & Hlook & _); try assumption.
  exists map, (mkChannelManipulation mix).
  split; [exact Hmap|]. split; [exact Hlook|].
  intros s HsD HsS.
  assert (Hin : In (mp s) (CM.sources (mkChannelManipulation mix) (mp s))).
  { apply (derive_contributes _ _ _ COUNT_covers _ _ _ _ _ Hmix HsS).
    rewrite (contribution_present _ _ _ COUNT_covers) by exact HsD.
    rewrite Z.eqb_refl. left. reflexivity. }
  split; [exact Hin|]. intros Hnil. rewrite Hnil in Hin. destruct Hin.
Qed.

(** C6, for BackLeft absent from D: BackLeft of S (D not Mono) goes to one
    destination: BackCenter if D has it, else SideLeft if D has it, else
    FrontLeft; so with neither BackCenter nor SideLeft in D it goes to
    FrontLeft. *)
Theorem BackLeft_fallback (S D : Z) :
  In S items -> In D items -> S <> Default -> D <> Default -> D <> Mono ->
  Speaker.present BackLeft S = true ->
  Speaker.present BackLeft D = false ->
  exists map,
    default_ = Some map /\
    (forall d,
        In MP_SPEAKER_ID_BL (CM.sources (at_ map S D) d) <->
        d = if Speaker.present BackCenter D then MP_SPEAKER_ID_BC
            else if Speaker.present SideLeft D then MP_SPEAKER_ID_SL
                 else MP_SPEAKER_ID_FL) /\
    (Speaker.present BackCenter D = false ->
     Speaker.present SideLeft D = false ->
     In MP_SPEAKER_ID_BL (CM.sources (at_ map S D) MP_SPEAKER_ID_FL)).
Proof.
  intros HS HD HSd HDd HDm HBS HBD.
  destruct (default_entry MP_SPEAKER_ID_COUNT Default Mono QT_NO_DEBUG items S D)
    as (map & mix & Hmap & Hmix & _ & Hat); try assumption.
  exists map. split; [exact Hmap|]. rewrite Hat.
  assert (Hall : forall d,
             In MP_SPEAKER_ID_BL (CM.sources (mkChannelManipulation mix) d) <->
             d = if Speaker.present BackCenter D then MP_SPEAKER_ID_BC
                 else if Speaker.present SideLeft D then MP_SPEAKER_ID_SL
                      else MP_SPEAKER_ID_FL).
  { intros d.
    rewrite (derive_contributes _ _ _ COUNT_covers S D d mix BackLeft Hmix HBS).
    rewrite (contribution_BackLeft _ _ _ COUNT_covers) by assumption.
    apply in_single_if. }
  split; [exact Hall|].
  intros HBC HSL. apply Hall. rewrite HBC, HSL. reflexivity.
Qed.

(** C1, what the code does: LowFrequency of S, absent from D (D not
    Mono), goes to FrontLeft only when D has no FrontCenter; when D has
    FrontCenter it goes to FrontCenter and to a second destination,
    FrontLeftCenter if D has it and FrontLeft otherwise. *)
Theorem LowFrequency_routing (S D : Z) :
  In S items -> In D items -> S <> Default -> D <> Default -> D <> Mono ->
  Speaker.present LowFrequency S = true ->
  Speaker.present LowFrequency D = false ->
  exists map,
    default_ = Some map /\
    forall d,
      In MP_SPEAKER_ID_LFE (CM.sources (at_ map S D) d) <->
      if Speaker.present FrontCenter D then
        d = MP_SPEAKER_ID_FC \/
        d = (if Speaker.present FrontLeftCenter D then MP_SPEAKER_ID_FLC
             else MP_SPEAKER_ID_FL)
      else d = MP_SPEAKER_ID_FL.
Proof.
  intros HS HD HSd HDd HDm HLS HLD.
  destruct (default_entry MP_SPEAKER_ID_COUNT Default Mono QT_NO_DEBUG items S D)
    as (map & mix & Hmap & Hmix & _ & Hat); try assumption.
  exists map. split; [exact Hmap|]. rewrite Hat. intros d.
  rewrite (derive_contributes _ _ _ COUNT_covers S D d mix LowFrequency Hmix HLS).
  rewrite (contribution_LowFrequency _ _ _ COUNT_covers) by assumption.
  destruct (Speaker.present FrontCenter D); [|apply in_single_if].
  rewrite in_app_iff, !in_single_if. reflexivity.
Qed.


End DefaultFacts.

(** ** The sample table *)

Ltac distinct_layouts :=
  repeat (apply List.NoDup_cons; [cbv; intuition discriminate|]);
  apply List.NoDup_nil.

Ltac stereo_based_layouts :=
  unfold Derivation.stereo_based;
  repeat (apply List.Forall_cons;
          [first [left; reflexivity
                 |right; left; reflexivity
                 |right; right; split; reflexivity]|]);
  apply List.Forall_nil.

Lemma Sample_COUNT_covers : ChNamesSize <= Sample.MP_SPEAKER_ID_COUNT.
Proof. unfold ChNamesSize, Sample.MP_SPEAKER_ID_COUNT. lia. Defined.

Lemma Sample_items_distinct : List.NoDup Sample.items.
Proof. distinct_layouts. Defined.

Lemma Sample_items_no_abort :
  Sample.QT_NO_DEBUG = true \/
  Derivation.stereo_based Sample.Default Sample.Mono Sample.items.
Proof. right. stereo_based_layouts. Defined.

(** The entry of (5.1, Mono): FrontCenter mixes the six speakers of 5.1. *)
Lemma mono_collapse_witness :
  (ChNamesSize <= Sample.MP_SPEAKER_ID_COUNT
   /\ List.NoDup Sample.items
   /\ (Sample.QT_NO_DEBUG = true \/
       Derivation.stereo_based Sample.Default Sample.Mono Sample.items)
   /\ In Sample._5_1 Sample.items /\ In Sample.Mono Sample.items
   /\ Sample._5_1 <> Sample.Default /\ Sample.Mono <> Sample.Default
   /\ (forall s, Speaker.present s Sample.Mono = true <-> s = FrontCenter))
  /\ exists map,
      CLM.default_ Sample.MP_SPEAKER_ID_COUNT Sample.Default Sample.Mono
                   Sample.QT_NO_DEBUG Sample.items
      = Some map /\
      CM.sources (CLM.at_ Sample.MP_SPEAKER_ID_COUNT map Sample._5_1 Sample.Mono)
                 MP_SPEAKER_ID_FC
      = [MP_SPEAKER_ID_FL; MP_SPEAKER_ID_FR; MP_SPEAKER_ID_FC;
         MP_SPEAKER_ID_LFE; MP_SPEAKER_ID_BL; MP_SPEAKER_ID_BR] /\
      forall d, d <> MP_SPEAKER_ID_FC ->
                CM.sources
                  (CLM.at_ Sample.MP_SPEAKER_ID_COUNT map Sample._5_1 Sample.Mono) d
                = [].
Proof.
  assert (H1 : In Sample._5_1 Sample.items) by (cbv; tauto).
  assert (H2 : In Sample.Mono Sample.items) by (cbv; tauto).
  assert (H3 : Sample._5_1 <> Sample.Default) by (cbv; discriminate).
  assert (H4 : Sample.Mono <> Sample.Default) by (cbv; discriminate).
  assert (H5 : forall s, Speaker.present s Sample.Mono = true <-> s = FrontCenter).
  { intros s. destruct s; split; intros H; (reflexivity || discriminate H). }
  split.
  - split; [exact Sample_COUNT_covers|].
    split; [exact Sample_items_distinct|].
    split; [exact Sample_items_no_abort|].
    split; [exact H1|]. split; [exact H2|]. split; [exact H3|].
    split; [exact H4|exact H5].
  - destruct (mono_collapse _ _ _ _ _ Sample_COUNT_covers Sample_items_distinct
                Sample_items_no_abort Sample._5_1 H1 H2 H3 H4 H5)
      as (map & Hmap & _ & _ & Hlist & Hnone).
    exists map. split; [exact Hmap|]. split; [|exact Hnone].
    rewrite Hlist. reflexivity.
Defined.

Lemma pass_through_identity_witness :
  (ChNamesSize <= Sample.MP_SPEAKER_ID_COUNT
   /\ List.NoDup Sample.items
   /\ (Sample.QT_NO_DEBUG = true \/
       Derivation.stereo_based Sample.Default Sample.Mono Sample.items)
   /\ In Sample._7_1 Sample.items /\ Sample._7_1 <> Sample.Default)
  /\ exists map,
      CLM.default_ Sample.MP_SPEAKER_ID_COUNT Sample.Default Sample.Mono
                   Sample.QT_NO_DEBUG Sample.items
      = Some map /\
      (forall s, Speaker.present s Sample._7_1 = true ->
                 CM.sources
                   (CLM.at_ Sample.MP_SPEAKER_ID_COUNT map Sample._7_1 Sample._7_1)
                   (Speaker.to_mp_speaker_id s)
                 = [Speaker.to_mp_speaker_id s]) /\
      (forall d, (forall s, Speaker.present s Sample._7_1 = true ->
                            d <> Speaker.to_mp_speaker_id s) ->
                 CM.sources
                   (CLM.at_ Sample.MP_SPEAKER_ID_COUNT map Sample._7_1 Sample._7_1) d
                 = []).
Proof.
  assert (H1 : In Sample._7_1 Sample.items) by (cbv; tauto).
  assert (H2 : Sample._7_1 <> Sample.Default) by (cbv; discriminate).
  split.
  - repeat split; try assumption.
    + exact Sample_COUNT_covers.
    + exact Sample_items_distinct.
    + exact Sample_items_no_abort.
  - exact (pass_through_identity _ _ _ _ _ Sample_COUNT_covers Sample_items_distinct
             Sample_items_no_abort Sample._7_1 H1 H2).
Defined.

(** The entry of (2.0, 5.1): FrontCenter, LowFrequency, BackLeft and
    BackRight are speakers of 5.1 and none has a source. *)
Lemma coverage_counterexample :
  exists map,
    CLM.default_ Sample.MP_SPEAKER_ID_COUNT Sample.Default Sample.Mono
                   Sample.QT_NO_DEBUG Sample.items
    = Some map /\
    In Sample._2_0 Sample.items /\ In Sample._5_1 Sample.items /\
    Sample._2_0 <> Sample.Default /\ Sample._5_1 <> Sample.Default /\
    Speaker.present FrontCenter Sample._5_1 = true /\
    Derivation.lookup map Sample._2_0 Sample._5_1
    = Some (CM.set MP_SPEAKER_ID_FR [MP_SPEAKER_ID_FR]
              (CM.set MP_SPEAKER_ID_FL [MP_SPEAKER_ID_FL]
                 (CM.empty Sample.MP_SPEAKER_ID_COUNT))) /\
    CM.sources (CLM.at_ Sample.MP_SPEAKER_ID_COUNT map Sample._2_0 Sample._5_1)
               MP_SPEAKER_ID_FC = [].
Proof.
  eexists. split; [vm_compute; reflexivity|].
  repeat split; try (cbv; tauto); try (cbv; discriminate).
Qed.

Lemma coverage_of_shared_speakers_witness :
  (ChNamesSize <= Sample.MP_SPEAKER_ID_COUNT
   /\ List.NoDup Sample.items
   /\ (Sample.QT_NO_DEBUG = true \/
       Derivation.stereo_based Sample.Default Sample.Mono Sample.items)
   /\ In Sample._2_0 Sample.items /\ In Sample._5_1 Sample.items
   /\ Sample._2_0 <> Sample.Default /\ Sample._5_1 <> Sample.Default)
  /\ exists map man,
      CLM.default_ Sample.MP_SPEAKER_ID_COUNT Sample.Default Sample.Mono
                   Sample.QT_NO_DEBUG Sample.items
      = Some map /\
      Derivation.lookup map Sample._2_0 Sample._5_1 = Some man /\
      forall s, Speaker.present s Sample._5_1 = true ->
                Speaker.present s Sample._2_0 = true ->
                In (Speaker.to_mp_speaker_id s)
                   (CM.sources man (Speaker.to_mp_speaker_id s)) /\
                CM.sources man (Speaker.to_mp_speaker_id s) <> [].
Proof.
  assert (H1 : In Sample._2_0 Sample.items) by (cbv; tauto).
  assert (H2 : In Sample._5_1 Sample.items) by (cbv; tauto).
  assert (H3 : Sample._2_0 <> Sample.Default) by (cbv; discriminate).
  assert (H4 : Sample._5_1 <> Sample.Default) by (cbv; discriminate).
  split.
  - repeat split; try assumption.
    + exact Sample_COUNT_covers.
    + exact Sample_items_distinct.
    + exact Sample_items_no_abort.
  - exact (coverage_of_shared_speakers _ _ _ _ _ Sample_COUNT_covers
             Sample_items_distinct Sample_items_no_abort
             Sample._2_0 Sample._5_1 H1 H2 H3 H4).
Defined.

(** The entry of (5.1, 5.1): 5.1 has BackLeft and neither BackCenter nor
    SideLeft, and BackLeft feeds BackLeft, not FrontLeft. *)
Lemma BackLeft_counterexample :
  exists map,
    CLM.default_ Sample.MP_SPEAKER_ID_COUNT Sample.Default Sample.Mono
                   Sample.QT_NO_DEBUG Sample.items
    = Some map /\
    In Sample._5_1 Sample.items /\ Sample._5_1 <> Sample.Default /\
    Sample._5_1 <> Sample.Mono /\
    Speaker.present BackLeft Sample._5_1 = true /\
    Speaker.present BackCenter Sample._5_1 = false /\
    Speaker.present SideLeft Sample._5_1 = false /\
    CM.sources (CLM.at_ Sample.MP_SPEAKER_ID_COUNT map Sample._5_1 Sample._5_1)
               MP_SPEAKER_ID_FL = [MP_SPEAKER_ID_FL] /\
    CM.sources (CLM.at_ Sample.MP_SPEAKER_ID_COUNT map Sample._5_1 Sample._5_1)
               MP_SPEAKER_ID_BL = [MP_SPEAKER_ID_BL].
Proof.
  eexists. split; [vm_compute; reflexivity|].
  repeat split; try (cbv; tauto); try (cbv; discriminate).
Qed.

Lemma BackLeft_fallback_witness :
  (ChNamesSize <= Sample.MP_SPEAKER_ID_COUNT
   /\ List.NoDup Sample.items
   /\ (Sample.QT_NO_DEBUG = true \/
       Derivation.stereo_based Sample.Default Sample.Mono Sample.items)
   /\ In Sample._5_1 Sample.items /\ In Sample._3_0 Sample.items
   /\ Sample._5_1 <> Sample.Default /\ Sample._3_0 <> Sample.Default
   /\ Sample._3_0 <> Sample.Mono
   /\ Speaker.present BackLeft Sample._5_1 = true
   /\ Speaker.present BackLeft Sample._3_0 = false
   /\ Speaker.present BackCenter Sample._3_0 = false
   /\ Speaker.present SideLeft Sample._3_0 = false)
  /\ exists map,
      CLM.default_ Sample.MP_SPEAKER_ID_COUNT Sample.Default Sample.Mono
                   Sample.QT_NO_DEBUG Sample.items
      = Some map /\
      In MP_SPEAKER_ID_BL
         (CM.sources (CLM.at_ Sample.MP_SPEAKER_ID_COUNT map Sample._5_1 Sample._3_0)
                     MP_SPEAKER_ID_FL).
Proof.
  assert (H1 : In Sample._5_1 Sample.items) by (cbv; tauto).
  assert (H2 : In Sample._3_0 Sample.items) by (cbv; tauto).
  assert (H3 : Sample._5_1 <> Sample.Default) by (cbv; discriminate).
  assert (H4 : Sample._3_0 <> Sample.Default) by (cbv; discriminate).
  assert (H5 : Sample._3_0 <> Sample.Mono) by (cbv; discriminate).
  assert (H6 : Speaker.present BackLeft Sample._5_1 = true) by reflexivity.
  assert (H7 : Speaker.present BackLeft Sample._3_0 = false) by reflexivity.
  assert (H8 : Speaker.present BackCenter Sample._3_0 = false) by reflexivity.
  assert (H9 : Speaker.present SideLeft Sample._3_0 = false) by reflexivity.
  split.
  - repeat split; try assumption.
    + exact Sample_COUNT_covers.
    + exact Sample_items_distinct.
    + exact Sample_items_no_abort.
  - destruct (BackLeft_fallback _ _ _ _ _ Sample_COUNT_covers Sample_items_distinct
                Sample_items_no_abort Sample._5_1 Sample._3_0
                H1 H2 H3 H4 H5 H6 H7) as (map & Hmap & _ & HFL).
    exists map. split; [exact Hmap|exact (HFL H8 H9)].
Defined.

(** From 5.1 to 5.0, LowFrequency is listed by FrontCenter and by
    FrontLeft. *)
Lemma LowFrequency_routing_witness :
  (ChNamesSize <= Sample.MP_SPEAKER_ID_COUNT
   /\ List.NoDup Sample.items
   /\ (Sample.QT_NO_DEBUG = true \/
       Derivation.stereo_based Sample.Default Sample.Mono Sample.items)
   /\ In Sample._5_1 Sample.items /\ In Sample._5_0 Sample.items
   /\ Sample._5_1 <> Sample.Default /\ Sample._5_0 <> Sample.Default
   /\ Sample._5_0 <> Sample.Mono
   /\ Speaker.present LowFrequency Sample._5_1 = true
   /\ Speaker.present LowFrequency Sample._5_0 = false)
  /\ exists map,
      CLM.default_ Sample.MP_SPEAKER_ID_COUNT Sample.Default Sample.Mono
                   Sample.QT_NO_DEBUG Sample.items
      = Some map /\
      forall d,
        In MP_SPEAKER_ID_LFE
           (CM.sources (CLM.at_ Sample.MP_SPEAKER_ID_COUNT map Sample._5_1 Sample._5_0) d)
        <-> d = MP_SPEAKER_ID_FC \/ d = MP_SPEAKER_ID_FL.
Proof.
  assert (H1 : In Sample._5_1 Sample.items) by (cbv; tauto).
  assert (H2 : In Sample._5_0 Sample.items) by (cbv; tauto).
  assert (H3 : Sample._5_1 <> Sample.Default) by (cbv; discriminate).
  assert (H4 : Sample._5_0 <> Sample.Default) by (cbv; discriminate).
  assert (H5 : Sample._5_0 <> Sample.Mono) by (cbv; discriminate).
  assert (H6 : Speaker.present LowFrequency Sample._5_1 = true) by reflexivity.
  assert (H7 : Speaker.present LowFrequency Sample._5_0 = false) by reflexivity.
  split.
  - repeat split; try assumption.
    + exact Sample_COUNT_covers.
    + exact Sample_items_distinct.
    + exact Sample_items_no_abort.
  - exact (LowFrequency_routing _ _ _ _ _ Sample_COUNT_covers Sample_items_distinct
             Sample_items_no_abort Sample._5_1 Sample._5_0
             H1 H2 H3 H4 H5 H6 H7).
Defined.

(** The eleven canonical slots of that entry. *)
Example default_5_1_to_5_0 :
  exists map,
    CLM.default_ Sample.MP_SPEAKER_ID_COUNT Sample.Default Sample.Mono
                   Sample.QT_NO_DEBUG Sample.items
    = Some map /\
    take ChNamesSize
         (m_mix (CLM.at_ Sample.MP_SPEAKER_ID_COUNT map Sample._5_1 Sample._5_0))
    = [ [MP_SPEAKER_ID_FL; MP_SPEAKER_ID_LFE]; [MP_SPEAKER_ID_FR];
        [MP_SPEAKER_ID_FC; MP_SPEAKER_ID_LFE]; [];
        [MP_SPEAKER_ID_BL]; [MP_SPEAKER_ID_BR]; []; []; []; []; [] ].
Proof.
  eexists. split; vm_compute; reflexivity.
Qed.





(** Why the table is taken with FrontLeftCenter and FrontRightCenter
    together: on a layout with the first and without the second the test
    of [testAndSet2], [dstLayout & (left | right)], holds as well. *)
Example default_3_0_to_front_left_wide :
  exists map,
    CLM.default_ Sample.MP_SPEAKER_ID_COUNT Sample.Default Sample.Mono
                   Sample.QT_NO_DEBUG
                 Sample.items_wide
    = Some map /\
    take ChNamesSize
         (m_mix (CLM.at_ Sample.MP_SPEAKER_ID_COUNT map
                         Sample._3_0 Sample.front_left_wide))
    = [ [MP_SPEAKER_ID_FL]; [MP_SPEAKER_ID_FR]; []; []; []; [];
        [MP_SPEAKER_ID_FC]; [MP_SPEAKER_ID_FC]; []; []; [] ].
Proof.
  eexists. split; vm_compute; reflexivity.
Qed.

(** ** Writing a QMap in ascending order *)

Section QMapOrder.

Context {V : Type}.

Lemma QMap_find_above (key : Z) (m : QMap.t V) :
  Forall (fun kv => (fst kv < key)%Z) m -> QMap.find key m = None.
Proof.
  induction 1 as [|[k v] m Hk _ IH]; [reflexivity|].
  simpl in *. rewrite (proj2 (Z.eqb_neq k key)) by lia. exact IH.
Qed.

Lemma QMap_insert_above (key : Z) (v : V) (m : QMap.t V) :
  Forall (fun kv => (fst kv < key)%Z) m ->
  QMap.insert key v m = m ++ [(key, v)].
Proof.
  induction 1 as [|[k w] m Hk _ IH]; [reflexivity|].
  simpl in *. rewrite (proj2 (Z.ltb_ge key k)) by lia.
  rewrite (proj2 (Z.eqb_neq key k)) by lia. rewrite IH. reflexivity.
Qed.

Lemma QMap_insert_last (key : Z) (v w : V) (m : QMap.t V) :
  Forall (fun kv => (fst kv < key)%Z) m ->
  QMap.insert key v (m ++ [(key, w)]) = m ++ [(key, v)].
Proof.
  induction 1 as [|[k u] m Hk _ IH]; simpl in *.
  - rewrite Z.ltb_irrefl, Z.eqb_refl. reflexivity.
  - rewrite (proj2 (Z.ltb_ge key k)) by lia.
    rewrite (proj2 (Z.eqb_neq key k)) by lia. rewrite IH. reflexivity.
Qed.

Lemma QMap_find_last (key : Z) (w : V) (m : QMap.t V) :
  Forall (fun kv => (fst kv < key)%Z) m ->
  QMap.find key (m ++ [(key, w)]) = Some w.
Proof.
  induction 1 as [|[k u] m Hk _ IH]; simpl in *.
  - rewrite Z.eqb_refl. reflexivity.
  - rewrite (proj2 (Z.eqb_neq k key)) by lia. exact IH.
Qed.

End QMapOrder.

(** ** Storing the entries of a map one after the other *)

Section Store.

(** [map(src, dst) = man] for one entry. *)
Local Abbreviation store :=
  (fun (map : ChannelLayoutMap) (e : Z * Z * ChannelManipulation) =>
     CLM.assign map (fst (fst e)) (snd (fst e)) (snd e)).

Local Abbreviation row src :=
  (List.map (fun dit : Z * ChannelManipulation => (src, fst dit, snd dit))).

Lemma entries_cons (src : Z) (inner : QMap.t ChannelManipulation)
    (rows : QMap.t (QMap.t ChannelManipulation)) :
  CLM.entries (mkChannelLayoutMap ((src, inner) :: rows))
  = row src inner ++ CLM.entries (mkChannelLayoutMap rows).
Proof.
  unfold CLM.entries. cbn [m_map flat_map]. f_equal.
  apply List.map_ext. intros [dst man]. reflexivity.
Qed.

Lemma assign_new_row (acc : QMap.t (QMap.t ChannelManipulation)) (src dst : Z)
    (man : ChannelManipulation) :
  Forall (fun kv => (fst kv < src)%Z) acc ->
  CLM.assign (mkChannelLayoutMap acc) src dst man
  = mkChannelLayoutMap (acc ++ [(src, [(dst, man)])]).
Proof.
  intros Hacc. unfold CLM.assign, QMap.value. cbn [m_map].
  rewrite QMap_find_above by exact Hacc. cbn [default from_option QMap.insert].
  rewrite QMap_insert_above by exact Hacc. reflexivity.
Qed.

Lemma assign_same_row (acc : QMap.t (QMap.t ChannelManipulation)) (src dst : Z)
    (pre : QMap.t ChannelManipulation) (man : ChannelManipulation) :
  Forall (fun kv => (fst kv < src)%Z) acc ->
  Forall (fun kv => (fst kv < dst)%Z) pre ->
  CLM.assign (mkChannelLayoutMap (acc ++ [(src, pre)])) src dst man
  = mkChannelLayoutMap (acc ++ [(src, pre ++ [(dst, man)])]).
Proof.
  intros Hacc Hpre. unfold CLM.assign, QMap.value. cbn [m_map].
  rewrite QMap_find_last by exact Hacc. cbn [default from_option id].
  rewrite (QMap_insert_above dst man pre Hpre).
  rewrite QMap_insert_last by exact Hacc. reflexivity.
Qed.

Lemma store_row_rest (acc : QMap.t (QMap.t ChannelManipulation)) (src : Z) :
  Forall (fun kv => (fst kv < src)%Z) acc ->
  forall inner pre : QMap.t ChannelManipulation,
    (forall p i, In p pre -> In i inner -> (fst p < fst i)%Z) ->
    QMap.ascending inner ->
    foldl store (mkChannelLayoutMap (acc ++ [(src, pre)])) (row src inner)
    = mkChannelLayoutMap (acc ++ [(src, pre ++ inner)]).
Proof.
  intros Hacc. induction inner as [|[dst man] inner IH]; intros pre Hord Hasc.
  - rewrite app_nil_r. reflexivity.
  - cbn [List.map foldl fst snd]. destruct Hasc as [Hdst Hasc].
    assert (Hpre : Forall (fun kv => (fst kv < dst)%Z) pre).
    { apply List.Forall_forall. intros p Hp.
      apply (Hord p (dst, man) Hp). left. reflexivity. }
    assert (Hord' : forall p i, In p (pre ++ [(dst, man)]) -> In i inner ->
                                (fst p < fst i)%Z).
    { intros p i Hp Hi. apply in_app_iff in Hp as [Hp|[<-|[]]].
      - apply Hord; [exact Hp|right; exact Hi].
      - exact (proj1 (List.Forall_forall _ _) Hdst i Hi). }
    rewrite (assign_same_row acc src dst pre man Hacc Hpre).
    etransitivity; [exact (IH (pre ++ [(dst, man)]) Hord' Hasc)|].
    rewrite <- app_assoc. reflexivity.
Qed.

Lemma store_row (acc : QMap.t (QMap.t ChannelManipulation)) (src : Z)
    (inner : QMap.t ChannelManipulation) :
  Forall (fun kv => (fst kv < src)%Z) acc ->
  QMap.ascending inner ->
  foldl store (mkChannelLayoutMap acc) (row src inner)
  = mkChannelLayoutMap
      (acc ++ match inner with [] => [] | _ :: _ => [(src, inner)] end).
Proof.
  intros Hacc Hasc. destruct inner as [|[dst man] inner].
  - rewrite app_nil_r. reflexivity.
  - cbn [List.map foldl fst snd]. destruct Hasc as [Hdst Hasc].
    rewrite assign_new_row by exact Hacc.
    apply (store_row_rest acc src Hacc inner [(dst, man)]); [|exact Hasc].
    intros p i [<-|[]] Hi. exact (proj1 (List.Forall_forall _ _) Hdst i Hi).
Qed.

Lemma store_rows (rows : QMap.t (QMap.t ChannelManipulation)) :
  forall acc : QMap.t (QMap.t ChannelManipulation),
    (forall a r, In a acc -> In r rows -> (fst a < fst r)%Z) ->
    QMap.ascending rows ->
    Forall (fun sit => QMap.ascending (snd sit)) rows ->
    CLM.entries
      (foldl store (mkChannelLayoutMap acc) (CLM.entries (mkChannelLayoutMap rows)))
    = CLM.entries (mkChannelLayoutMap (acc ++ rows)).
Proof.
  induction rows as [|[src inner] rows IH]; intros acc Hord Hasc Hinner.
  - rewrite app_nil_r. reflexivity.
  - destruct Hasc as [Hsrc Hasc].
    apply List.Forall_cons_iff in Hinner as [Hin Hinner]. cbn [snd] in Hin.
    assert (Hacc : Forall (fun kv => (fst kv < src)%Z) acc).
    { apply List.Forall_forall. intros a Ha.
      apply (Hord a (src, inner) Ha). left. reflexivity. }
    rewrite entries_cons, foldl_app.
    rewrite (store_row acc src inner Hacc Hin).
    rewrite IH; [| |exact Hasc|exact Hinner].
    + unfold CLM.entries. cbn [m_map].
      destruct inner; rewrite !flat_map_app; cbn [flat_map List.map app];
        rewrite ?app_nil_r, <- ?app_assoc; reflexivity.
    + intros a r Ha Hr. apply in_app_iff in Ha as [Ha|Ha].
      * apply Hord; [exact Ha|right; exact Hr].
      * destruct inner; [destruct Ha|destruct Ha as [<-|[]]].
        exact (proj1 (List.Forall_forall _ _) Hsrc r Hr).
Qed.

(** Storing the entries of an ascending map into an empty one gives a
    map with the same entries. *)
Lemma store_entries (map : ChannelLayoutMap) :
  Derivation.ascending map ->
  CLM.entries (foldl store (mkChannelLayoutMap []) (CLM.entries map))
  = CLM.entries map.
Proof.
  intros [Hasc Hinner]. destruct map as [rows]. cbn [m_map] in *.
  apply (store_rows rows []); [intros a r []|exact Hasc|exact Hinner].
Qed.

End Store.

(** ** The text of a map *)

Section MapText.

Variable MP_SPEAKER_ID_COUNT : nat.
Variable MP_SPEAKER_ID_NONE : Z.
Variable name : Z -> string.
Variable from : string -> Z.

Hypothesis COUNT_covers : ChNamesSize <= MP_SPEAKER_ID_COUNT.
Hypothesis NONE_outside : canonical MP_SPEAKER_ID_NONE = false.

Local Abbreviation named := (Derivation.named name from).
Local Abbreviation storable := (Derivation.storable MP_SPEAKER_ID_COUNT).

(** The record [toString] writes for one entry. *)
Local Abbreviation record :=
  (fun e : Z * Z * ChannelManipulation =>
     name (fst (fst e)) +:+ ":" +:+ name (snd (fst e)) +:+ ":"
     +:+ CM.toString (snd e)).

Local Abbreviation store :=
  (fun (map : ChannelLayoutMap) (e : Z * Z * ChannelManipulation) =>
     CLM.assign map (fst (fst e)) (snd (fst e)) (snd e)).

Lemma toString_inner_fold (src : Z) (acc : list string)
    (inner : QMap.t ChannelManipulation) :
  foldl (CLM.toString_inner (name src) name) acc inner
  = acc ++ List.map record
             (List.map (fun dit : Z * ChannelManipulation => (src, fst dit, snd dit))
                       inner).
Proof.
  revert acc. induction inner as [|dit inner IH]; intros acc.
  - symmetry. apply app_nil_r.
  - cbn [foldl List.map]. rewrite IH. unfold CLM.toString_inner.
    rewrite <- app_assoc. reflexivity.
Qed.

Lemma toString_outer_fold (acc : list string)
    (rows : QMap.t (QMap.t ChannelManipulation)) :
  foldl (CLM.toString_outer name) acc rows
  = acc ++ List.map record (CLM.entries (mkChannelLayoutMap rows)).
Proof.
  revert acc. induction rows as [|[src inner] rows IH]; intros acc.
  - symmetry. apply app_nil_r.
  - cbn [foldl]. rewrite IH. unfold CLM.toString_outer. cbn [fst snd].
    rewrite toString_inner_fold, entries_cons, List.map_app, <- app_assoc.
    reflexivity.
Qed.

Lemma toString_records (map : ChannelLayoutMap) :
  CLM.toString name map = join "#" (List.map record (CLM.entries map)).
Proof.
  unfold CLM.toString. rewrite toString_outer_fold. destruct map. reflexivity.
Qed.

(** The text of a manipulation has neither ':' nor '#'. *)
Lemma toString_clean (c : ascii) (man : ChannelManipulation) :
  In c [":" ; "#"]%char ->
  sources_canonical man ->
  contains c (CM.toString man) = false.
Proof.
  clear COUNT_covers NONE_outside.
  intros Hc Hman. unfold CM.toString. cbv zeta.
  rewrite toString_body_fold. cbn [app]. apply contains_join.
  - simpl in Hc. destruct Hc as [<-|[<-|[]]]; reflexivity.
  - apply toString_groups_clean; [|exact Hman]. simpl in *. tauto.
Qed.

(** A manipulation other than the fresh one has a text. *)
Lemma toString_nonempty (man : ChannelManipulation) :
  storable man -> isEmpty (CM.toString man) = false.
Proof.
  intros (Hlen & Hdst & Hsrc & Hfresh).
  destruct (isEmpty (CM.toString man)) eqn:Hempty; [|reflexivity].
  exfalso. apply Hfresh.
  rewrite <- (fromString_toString _ _ COUNT_covers NONE_outside man Hlen Hdst Hsrc).
  destruct (CM.toString man); [reflexivity|discriminate Hempty].
Qed.

Lemma record_split (e : Z * Z * ChannelManipulation) :
  named (fst (fst e)) -> named (snd (fst e)) -> storable (snd e) ->
  splitSkipEmpty ":" (record e)
  = [name (fst (fst e)); name (snd (fst e)); CM.toString (snd e)].
Proof.
  intros (_ & Hs1 & Hs2 & _) (_ & Hd1 & Hd2 & _) Hman.
  pose proof (toString_nonempty _ Hman) as Ht1.
  destruct Hman as (_ & _ & Hsrc & _).
  pose proof (toString_clean ":" _ ltac:(simpl; tauto) Hsrc) as Ht2.
  change (splitSkipEmpty ":"
            (name (fst (fst e))
             +:+ String ":" (name (snd (fst e)) +:+ String ":" (CM.toString (snd e))))
          = [name (fst (fst e)); name (snd (fst e)); CM.toString (snd e)]).
  unfold splitSkipEmpty.
  rewrite !split_append_sep by assumption.
  rewrite split_free by assumption.
  cbn [List.filter]. rewrite Hs1, Hd1, Ht1. reflexivity.
Qed.

Lemma record_clean (e : Z * Z * ChannelManipulation) :
  named (fst (fst e)) -> named (snd (fst e)) -> storable (snd e) ->
  contains "#" (record e) = false /\ isEmpty (record e) = false.
Proof.
  intros (_ & Hs1 & _ & Hs3) (_ & _ & _ & Hd3) (_ & _ & Hsrc & _).
  pose proof (toString_clean "#" _ ltac:(simpl; tauto) Hsrc) as Ht.
  set (text := name (fst (fst e))
               +:+ String ":" (name (snd (fst e)) +:+ String ":" (CM.toString (snd e)))).
  change (contains "#" text = false /\ isEmpty text = false). subst text.
  split.
  - rewrite contains_append. cbn [contains]. rewrite contains_append.
    cbn [contains]. rewrite Hs3, Hd3, Ht. reflexivity.
  - rewrite isEmpty_append, Hs1. reflexivity.
Qed.

(** A record written by [toString] is read back as one assignment. *)
Lemma fromString_body_record (map : ChannelLayoutMap)
    (e : Z * Z * ChannelManipulation) :
  named (fst (fst e)) -> named (snd (fst e)) -> storable (snd e) ->
  CLM.fromString_body MP_SPEAKER_ID_COUNT MP_SPEAKER_ID_NONE from map (record e)
  = store map e.
Proof.
  intros Hs Hd Hman. unfold CLM.fromString_body.
  rewrite (record_split e Hs Hd Hman). cbv zeta.
  destruct Hs as (-> & _). destruct Hd as (-> & _).
  destruct Hman as (Hlen & Hdst & Hsrc & _).
  rewrite (fromString_toString _ _ COUNT_covers NONE_outside _ Hlen Hdst Hsrc).
  reflexivity.
Qed.

Lemma fromString_body_records (l : list (Z * Z * ChannelManipulation)) :
  Forall (fun e => named (fst (fst e)) /\ named (snd (fst e)) /\ storable (snd e)) l ->
  forall map,
    foldl (CLM.fromString_body MP_SPEAKER_ID_COUNT MP_SPEAKER_ID_NONE from) map
          (List.map record l)
    = foldl store map l.
Proof.
  induction 1 as [|e l (Hs & Hd & Hman) _ IH]; intros map; [reflexivity|].
  cbn [List.map foldl]. rewrite (fromString_body_record map e Hs Hd Hman).
  apply IH.
Qed.

(** C5, for maps their text determines: a map in ascending order of keys
    whose layouts have
    usable names and whose manipulations are determined by their text and
    are not fresh is read back, from its text, with the same entries. *)
Theorem map_round_trip (map : ChannelLayoutMap) :
  Derivation.ascending map ->
  Forall (fun e => named (fst (fst e)) /\ named (snd (fst e)) /\ storable (snd e))
         (CLM.entries map) ->
  CLM.entries
    (CLM.fromString MP_SPEAKER_ID_COUNT MP_SPEAKER_ID_NONE from
                    (CLM.toString name map))
  = CLM.entries map.
Proof.
  intros Hasc Hentries. unfold CLM.fromString.
  rewrite toString_records, splitSkipEmpty_join.
  - rewrite (fromString_body_records _ Hentries). apply store_entries, Hasc.
  - apply Forall_map. eapply Forall_impl; [exact Hentries|].
    intros e (Hs & Hd & Hman). apply (record_clean e Hs Hd Hman).
  - apply Forall_map. eapply Forall_impl; [exact Hentries|].
    intros e (Hs & Hd & Hman). apply (record_clean e Hs Hd Hman).
Qed.

End MapText.

(** A map holding one entry that was created and never written: its
    record has two fields and is skipped, the entry is not read back. And a
    map whose entry feeds a slot after [MP_SPEAKER_ID_SR]: the text leaves
    the slot out, the entry is read back without it. *)
Lemma map_round_trip_counterexample :
  (CLM.entries Sample.untouched
   = [(Sample._2_0, Sample._2_0, CM.empty Sample.MP_SPEAKER_ID_COUNT)]
   /\ CLM.toString Sample.name Sample.untouched = "_2_0:_2_0:"
   /\ CLM.entries
        (CLM.fromString Sample.MP_SPEAKER_ID_COUNT Sample.MP_SPEAKER_ID_NONE
           Sample.from (CLM.toString Sample.name Sample.untouched))
      = []
   /\ CLM.entries
        (CLM.fromString Sample.MP_SPEAKER_ID_COUNT Sample.MP_SPEAKER_ID_NONE
           Sample.from (CLM.toString Sample.name Sample.untouched))
      <> CLM.entries Sample.untouched)
  /\ (CLM.toString Sample.name Sample.beyond = "_2_0:_2_0:FL!FL"
      /\ CM.sources
           (CLM.at_ Sample.MP_SPEAKER_ID_COUNT Sample.beyond Sample._2_0 Sample._2_0)
           (MP_SPEAKER_ID_SR + 1)
         = [MP_SPEAKER_ID_FL]
      /\ CM.sources
           (CLM.at_ Sample.MP_SPEAKER_ID_COUNT
              (CLM.fromString Sample.MP_SPEAKER_ID_COUNT Sample.MP_SPEAKER_ID_NONE
                 Sample.from (CLM.toString Sample.name Sample.beyond))
              Sample._2_0 Sample._2_0)
           (MP_SPEAKER_ID_SR + 1)
         = []
      /\ CLM.entries
           (CLM.fromString Sample.MP_SPEAKER_ID_COUNT Sample.MP_SPEAKER_ID_NONE
              Sample.from (CLM.toString Sample.name Sample.beyond))
         <> CLM.entries Sample.beyond).
Proof.
  split.
  - repeat split; try (vm_compute; reflexivity). vm_compute. discriminate.
  - repeat split; try (vm_compute; reflexivity). vm_compute. discriminate.
Qed.

Ltac sample_entry :=
  split; [repeat split; reflexivity|];
  split; [repeat split; reflexivity|];
  split; [reflexivity|];
  split; [cbv; repeat constructor|];
  split; [cbv; repeat constructor|];
  cbv; discriminate.

Lemma Sample_edited_ascending : Derivation.ascending Sample.edited.
Proof.
  unfold Derivation.ascending. vm_compute.
  repeat split; repeat constructor.
Defined.

Lemma Sample_edited_entries :
  Forall (fun e =>
            Derivation.named Sample.name Sample.from (fst (fst e)) /\
            Derivation.named Sample.name Sample.from (snd (fst e)) /\
            Derivation.storable Sample.MP_SPEAKER_ID_COUNT (snd e))
         (CLM.entries Sample.edited).
Proof.
  let l := eval vm_compute in (CLM.entries Sample.edited) in
  change (CLM.entries Sample.edited) with l.
  repeat (apply List.Forall_cons; [sample_entry|]). apply List.Forall_nil.
Defined.

Lemma map_round_trip_witness :
  (ChNamesSize <= Sample.MP_SPEAKER_ID_COUNT
   /\ canonical Sample.MP_SPEAKER_ID_NONE = false
   /\ Derivation.ascending Sample.edited
   /\ Forall (fun e =>
                Derivation.named Sample.name Sample.from (fst (fst e)) /\
                Derivation.named Sample.name Sample.from (snd (fst e)) /\
                Derivation.storable Sample.MP_SPEAKER_ID_COUNT (snd e))
             (CLM.entries Sample.edited))
  /\ CLM.entries
       (CLM.fromString Sample.MP_SPEAKER_ID_COUNT Sample.MP_SPEAKER_ID_NONE
          Sample.from (CLM.toString Sample.name Sample.edited))
     = CLM.entries Sample.edited.
Proof.
  assert (H2 : canonical Sample.MP_SPEAKER_ID_NONE = false) by reflexivity.
  split.
  - split; [exact Sample_COUNT_covers|]. split; [exact H2|].
    split; [exact Sample_edited_ascending|exact Sample_edited_entries].
  - exact (map_round_trip _ _ _ _ Sample_COUNT_covers H2 Sample.edited
             Sample_edited_ascending Sample_edited_entries).
Defined.

Example Sample_edited_text :
  CLM.toString Sample.name Sample.edited
  = "_2_0:_2_0:FR!FR#_2_0:Mono:FL!FL/BL,FC!FL/FR#_5_1:_2_0:FL!FL/BL,FC!FL/FR".
Proof. vm_compute. reflexivity. Qed.

(** * Further properties of the code *)

(** ** The text of a manipulation *)

Section ManipulationText.

Variable MP_SPEAKER_ID_COUNT : nat.
Variable MP_SPEAKER_ID_NONE : Z.

Local Abbreviation nameToId := (CM.nameToId MP_SPEAKER_ID_NONE).
Local Abbreviation parseSources := (CM.parseSources MP_SPEAKER_ID_NONE).
Local Abbreviation fromString_body := (CM.fromString_body MP_SPEAKER_ID_NONE).
Local Abbreviation fromString := (CM.fromString MP_SPEAKER_ID_COUNT MP_SPEAKER_ID_NONE).
Local Abbreviation empty := (CM.empty MP_SPEAKER_ID_COUNT).
Local Abbreviation known := (fun id : Z => negb (id =? MP_SPEAKER_ID_NONE)%Z).

(** The row at which the loop of [nameToId] stops holds the name. *)
Lemma nameToId_loop_found (names : list ChannelName) (k : Z) (name : string) (r : Z) :
  CM.nameToId_loop MP_SPEAKER_ID_NONE names k name = r ->
  r <> MP_SPEAKER_ID_NONE ->
  (k <= r)%Z /\ exists n, names !! Z.to_nat (r - k) = Some n /\ abbr n = name.
Proof.
  revert k. induction names as [|n names IH]; intros k; simpl; [congruence|].
  destruct (String.eqb name (abbr n)) eqn:E.
  - intros <- _. split; [lia|]. exists n. rewrite Z.sub_diag. split; [reflexivity|].
    apply String.eqb_eq in E. congruence.
  - intros Hr Hne. destruct (IH _ Hr Hne) as (Hk & m & Hm & Hname).
    split; [lia|]. exists m. split; [|exact Hname].
    replace (Z.to_nat (r - k)) with (S (Z.to_nat (r - (k + 1)))) by lia.
    exact Hm.
Qed.

(** The known sources of a list of names, in the order of the names. *)
Lemma parseSources_filter (names : list string) :
  parseSources names = List.filter known (List.map nameToId names).
Proof.
  induction names as [|n names IH]; [reflexivity|].
  unfold CM.parseSources. cbn [foldl List.map List.filter]. cbv zeta.
  destruct (nameToId n =? MP_SPEAKER_ID_NONE)%Z; cbn [negb].
  - exact IH.
  - rewrite parseSources_fold, IH. reflexivity.
Qed.

Lemma parseSources_canonical (names : list string) :
  Forall (fun src => canonical src = true) (parseSources names).
Proof.
  rewrite parseSources_filter. apply List.Forall_forall. intros src Hsrc.
  apply filter_In in Hsrc as [Hin Hknown].
  apply in_map_iff in Hin as (n & <- & _).
  destruct (nameToId_range MP_SPEAKER_ID_NONE n) as [H|H]; [|exact H].
  rewrite H, Z.eqb_refl in Hknown. discriminate.
Qed.

(** A group with two fields, a known destination and a known source is one
    [set], whatever the manipulation. *)
Lemma fromString_body_set (man : ChannelManipulation) (one dn sf : string) :
  splitSkipEmpty "!" one = [dn; sf] ->
  nameToId dn <> MP_SPEAKER_ID_NONE ->
  parseSources (splitSkipEmpty "/" sf) <> [] ->
  fromString_body man one
  = CM.set (nameToId dn) (parseSources (splitSkipEmpty "/" sf)) man.
Proof.
  intros Hone Hdn Hsf. unfold CM.fromString_body. rewrite Hone. cbv zeta.
  apply Z.eqb_neq in Hdn. rewrite Hdn.
  rewrite bool_decide_eq_false_2 by exact Hsf. reflexivity.
Qed.

(** What every iteration of [fromString] keeps. *)
Lemma fromString_body_canonical (man : ChannelManipulation) (one : string) :
  length (m_mix man) = MP_SPEAKER_ID_COUNT /\
  destinations_canonical man /\ sources_canonical man ->
  length (m_mix (fromString_body man one)) = MP_SPEAKER_ID_COUNT /\
  destinations_canonical (fromString_body man one) /\
  sources_canonical (fromString_body man one).
Proof.
  intros (Hlen & Hdst & Hsrc).
  destruct (fromString_body_cases MP_SPEAKER_ID_NONE man one)
    as [H|(dn & sf & _ & Hd & _ & H)]; rewrite H; [auto|].
  assert (Hrange : (0 <= nameToId dn <= 10)%Z).
  { unfold canonical, MP_SPEAKER_ID_FL, MP_SPEAKER_ID_SR in Hd.
    apply andb_true_iff in Hd as [H1 H2].
    apply Z.leb_le in H1. apply Z.leb_le in H2. lia. }
  unfold CM.set, destinations_canonical, sources_canonical.
  replace (nameToId dn <? 0)%Z with false by (symmetry; apply Z.ltb_ge; lia).
  cbn [m_mix]. split; [rewrite length_insert; exact Hlen|].
  split; [rewrite drop_insert_lt by (unfold ChNamesSize; lia); exact Hdst|].
  apply Forall_insert; [exact Hsrc|apply parseSources_canonical].
Qed.

Lemma foldl_fromString_body_canonical (l : list string) (man : ChannelManipulation) :
  length (m_mix man) = MP_SPEAKER_ID_COUNT /\
  destinations_canonical man /\ sources_canonical man ->
  length (m_mix (foldl fromString_body man l)) = MP_SPEAKER_ID_COUNT /\
  destinations_canonical (foldl fromString_body man l) /\
  sources_canonical (foldl fromString_body man l).
Proof.
  revert man. induction l as [|one l IH]; intros man H; [exact H|].
  cbn [foldl]. apply IH, fromString_body_canonical, H.
Qed.

Lemma empty_canonical :
  length (m_mix empty) = MP_SPEAKER_ID_COUNT /\
  destinations_canonical empty /\ sources_canonical empty.
Proof.
  unfold CM.empty, destinations_canonical, sources_canonical. cbn [m_mix].
  split; [apply length_replicate|]. split.
  - apply Forall_forall. intros srcs Hin.
    apply list_elem_of_lookup in Hin as [i Hi].
    rewrite lookup_drop in Hi. apply lookup_replicate_1 in Hi as [-> _]. reflexivity.
  - apply Forall_forall. intros srcs Hin.
    apply elem_of_replicate in Hin as [-> _]. constructor.
Qed.

Lemma fromString_invariant (text : string) :
  length (m_mix (fromString text)) = MP_SPEAKER_ID_COUNT /\
  destinations_canonical (fromString text) /\
  sources_canonical (fromString text).
Proof. apply foldl_fromString_body_canonical, empty_canonical. Qed.

(** A group that sets no source of [d] keeps the sources of [d]. *)
Lemma fromString_body_other (man : ChannelManipulation) (one : string) (d : Z) :
  (forall dn sf : string,
      splitSkipEmpty "!" one = [dn; sf] ->
      nameToId dn = d ->
      parseSources (splitSkipEmpty "/" sf) = []) ->
  CM.sources (fromString_body man one) d = CM.sources man d.
Proof.
  intros Hone.
  destruct (fromString_body_cases MP_SPEAKER_ID_NONE man one)
    as [H|(dn & sf & Hsplit & _ & Hs & H)]; rewrite H; [reflexivity|].
  apply sources_set_ne. intros Heq. apply Hs, (Hone dn sf Hsplit). congruence.
Qed.

End ManipulationText.

Lemma toString_beyond (mix : list (list Z)) (a k : nat) :
  length mix <= a ->
  flat_map (CM.toString_body mix []) (seq a k) = [].
Proof.
  revert a. induction k as [|k IH]; intros a Ha; [reflexivity|].
  cbn [seq flat_map]. rewrite IH by lia.
  unfold CM.toString_body. cbv zeta.
  rewrite lookup_ge_None_2 by exact Ha. cbn [default from_option].
  rewrite bool_decide_eq_true_2 by reflexivity.
  rewrite andb_false_r. reflexivity.
Qed.

(** Whatever the size of [m_mix], the text is made of the groups of the
    first eleven slots. *)
Lemma toString_eleven (man : ChannelManipulation) :
  CM.toString man
  = join "," (flat_map (CM.toString_body (m_mix man) []) (seq 0 ChNamesSize)).
Proof.
  destruct (le_lt_dec ChNamesSize (length (m_mix man))) as [Hle|Hlt].
  - apply toString_canonical_slots, Hle.
  - unfold CM.toString. cbv zeta. rewrite toString_body_fold. cbn [app].
    replace ChNamesSize with (length (m_mix man) + (ChNamesSize - length (m_mix man)))
      at 1 by lia.
    rewrite seq_app, flat_map_app.
    rewrite (toString_beyond _ (0 + length (m_mix man))) by (simpl; lia).
    rewrite app_nil_r. reflexivity.
Qed.

(** The group of a slot, from the sources of its destination. *)
Lemma toString_body_sources (man : ChannelManipulation) (i : nat) :
  CM.toString_body (m_mix man) [] i
  = if canonical (Z.of_nat i)
       && negb (bool_decide (CM.sources man (Z.of_nat i) = []))
    then [ChNames_abbr (Z.of_nat i)
          +:+ String "!" (join "/" (List.map ChNames_abbr (CM.sources man (Z.of_nat i))))]
    else [].
Proof.
  unfold CM.toString_body, CM.sources. cbv zeta.
  replace (Z.of_nat i <? 0)%Z with false by (symmetry; apply Z.ltb_ge; lia).
  rewrite Nat2Z.id. reflexivity.
Qed.

Lemma canonical_of_nat (i : nat) :
  In i (seq 0 ChNamesSize) -> canonical (Z.of_nat i) = true.
Proof.
  intros H. apply in_seq in H. unfold ChNamesSize in H.
  unfold canonical, MP_SPEAKER_ID_FL, MP_SPEAKER_ID_SR.
  apply andb_true_iff. split; apply Z.leb_le; lia.
Qed.

Lemma canonical_to_nat (d : Z) :
  canonical d = true -> In (Z.to_nat d) (seq 0 ChNamesSize) /\ Z.of_nat (Z.to_nat d) = d.
Proof.
  unfold canonical, MP_SPEAKER_ID_FL, MP_SPEAKER_ID_SR. intros H.
  apply andb_true_iff in H as [H1 H2]. apply Z.leb_le in H1. apply Z.leb_le in H2.
  split; [apply in_seq; unfold ChNamesSize|]; lia.
Qed.

Lemma flat_map_nil_inv {A B} (f : A -> list B) (l : list A) :
  flat_map f l = [] -> forall a, In a l -> f a = [].
Proof.
  induction l as [|x l IH]; intros H a Ha; [destruct Ha|].
  cbn [flat_map] in H. apply app_eq_nil in H as [Hx Hl].
  destruct Ha as [<-|Ha]; [exact Hx|exact (IH Hl a Ha)].
Qed.

Lemma toString_groups_nonempty (man : ChannelManipulation) (l : list nat) :
  Forall (fun g => isEmpty g = false) (flat_map (CM.toString_body (m_mix man) []) l).
Proof.
  induction l as [|i l IH]; [constructor|].
  cbn [flat_map]. apply Forall_app. split; [|exact IH].
  rewrite toString_body_sources. destruct (_ && _); constructor; [|constructor].
  rewrite isEmpty_append. apply andb_false_r.
Qed.

(** [nameToId] knows the eleven abbreviations of [ChNames], spelled as
    they are, and nothing else: it answers [i], other than
    [MP_SPEAKER_ID_NONE], exactly for the abbreviation of the canonical
    speaker [i]. *)
Theorem nameToId_exact (MP_SPEAKER_ID_NONE : Z) (name : string) (i : Z) :
  canonical MP_SPEAKER_ID_NONE = false ->
  (CM.nameToId MP_SPEAKER_ID_NONE name = i /\ i <> MP_SPEAKER_ID_NONE)
  <-> (canonical i = true /\ ChNames_abbr i = name).
Proof.
  intros HNONE. split.
  - intros [Hi Hne].
    destruct (nameToId_range MP_SPEAKER_ID_NONE name) as [H|H]; [congruence|].
    rewrite Hi in H. split; [exact H|].
    destruct (nameToId_loop_found MP_SPEAKER_ID_NONE ChNames 0 name i Hi Hne)
      as (Hpos & n & Hn & Hname).
    unfold ChNames_abbr. rewrite Z.sub_0_r in Hn. rewrite Hn.
    replace (i <? 0)%Z with false by (symmetry; apply Z.ltb_ge; lia).
    exact Hname.
  - intros [Hi <-]. split; [apply nameToId_abbr, Hi|]. congruence.
Qed.

(** Whatever the text, [fromString] yields an array of
    [MP_SPEAKER_ID_COUNT] slots in which only the eleven canonical
    destinations can be set and every listed source is one of the eleven
    canonical speakers. *)
Theorem fromString_canonical (MP_SPEAKER_ID_COUNT : nat) (MP_SPEAKER_ID_NONE : Z)
    (text : string) :
  let man := CM.fromString MP_SPEAKER_ID_COUNT MP_SPEAKER_ID_NONE text in
  length (m_mix man) = MP_SPEAKER_ID_COUNT /\
  destinations_canonical man /\
  sources_canonical man.
Proof. apply fromString_invariant. Qed.

(** Writing what was read and reading it again changes nothing: for every
    text, [fromString(fromString(text).toString())] is [fromString(text)]. *)
Theorem fromString_normal_form (MP_SPEAKER_ID_COUNT : nat) (MP_SPEAKER_ID_NONE : Z)
    (text : string) :
  ChNamesSize <= MP_SPEAKER_ID_COUNT ->
  canonical MP_SPEAKER_ID_NONE = false ->
  CM.fromString MP_SPEAKER_ID_COUNT MP_SPEAKER_ID_NONE
    (CM.toString (CM.fromString MP_SPEAKER_ID_COUNT MP_SPEAKER_ID_NONE text))
  = CM.fromString MP_SPEAKER_ID_COUNT MP_SPEAKER_ID_NONE text.
Proof.
  intros HCOUNT HNONE.
  destruct (fromString_invariant MP_SPEAKER_ID_COUNT MP_SPEAKER_ID_NONE text)
    as (Hlen & Hdst & Hsrc).
  apply fromString_toString; assumption.
Qed.

(** The last group that sets a destination decides its sources: when the
    groups of the text are [pre], [g] and [post], [g] has two fields, names
    the known destination [d] and a known source, and no group of [post]
    names [d] together with a known source, then the sources of [d] are
    the known names of the source field of [g], in their order, with their
    repetitions. *)
Theorem fromString_last_group (MP_SPEAKER_ID_COUNT : nat) (MP_SPEAKER_ID_NONE : Z)
    (text : string) (pre post : list string) (g dn sf : string) (d : Z) :
  ChNamesSize <= MP_SPEAKER_ID_COUNT ->
  split "," text = pre ++ g :: post ->
  splitSkipEmpty "!" g = [dn; sf] ->
  CM.nameToId MP_SPEAKER_ID_NONE dn = d ->
  d <> MP_SPEAKER_ID_NONE ->
  CM.parseSources MP_SPEAKER_ID_NONE (splitSkipEmpty "/" sf) <> [] ->
  (forall one dn' sf' : string,
      In one post ->
      splitSkipEmpty "!" one = [dn'; sf'] ->
      CM.nameToId MP_SPEAKER_ID_NONE dn' = d ->
      CM.parseSources MP_SPEAKER_ID_NONE (splitSkipEmpty "/" sf') = []) ->
  CM.sources (CM.fromString MP_SPEAKER_ID_COUNT MP_SPEAKER_ID_NONE text) d
  = List.filter (fun id => negb (id =? MP_SPEAKER_ID_NONE)%Z)
      (List.map (CM.nameToId MP_SPEAKER_ID_NONE) (splitSkipEmpty "/" sf)).
Proof.
  intros HCOUNT Htext Hg Hdn Hd Hsf Hpost.
  unfold CM.fromString. rewrite Htext, foldl_app. cbn [foldl].
  set (man := foldl (CM.fromString_body MP_SPEAKER_ID_NONE)
                    (CM.empty MP_SPEAKER_ID_COUNT) pre).
  assert (Hlen : length (m_mix man) = MP_SPEAKER_ID_COUNT).
  { apply foldl_fromString_body_canonical, empty_canonical. }
  assert (Hkeep : forall (l : list string) (m : ChannelManipulation),
             (forall one, In one l -> In one post) ->
             CM.sources (foldl (CM.fromString_body MP_SPEAKER_ID_NONE) m l) d
             = CM.sources m d).
  { induction l as [|one l IH]; intros m Hl; [reflexivity|].
    cbn [foldl]. rewrite IH by (intros o Ho; apply Hl; right; exact Ho).
    apply fromString_body_other. intros dn' sf'.
    apply Hpost, Hl. left. reflexivity. }
  rewrite Hkeep by auto.
  rewrite (fromString_body_set _ man g dn sf Hg) by congruence.
  rewrite Hdn, <- parseSources_filter.
  destruct (nameToId_range MP_SPEAKER_ID_NONE dn) as [H|H]; [congruence|].
  rewrite Hdn in H. unfold canonical, MP_SPEAKER_ID_FL, MP_SPEAKER_ID_SR in H.
  apply andb_true_iff in H as [H1 H2]. apply Z.leb_le in H1. apply Z.leb_le in H2.
  apply sources_set_eq; [lia|]. unfold ChNamesSize in HCOUNT. lia.
Qed.

(** The text of a manipulation whose sources are canonical speakers is
    empty exactly when none of the eleven canonical destinations has a
    source, whatever the other slots hold. *)
Theorem toString_empty_iff (man : ChannelManipulation) :
  sources_canonical man ->
  (CM.toString man = EmptyString
   <-> forall d : Z, canonical d = true -> CM.sources man d = []).
Proof.
  intros _. rewrite toString_eleven. split.
  - intros Htext d Hd.
    destruct (flat_map (CM.toString_body (m_mix man) []) (seq 0 ChNamesSize))
      as [|g groups] eqn:Hgroups.
    + destruct (canonical_to_nat d Hd) as [Hin Heq].
      assert (H := flat_map_nil_inv _ _ Hgroups _ Hin).
      rewrite toString_body_sources, Heq, Hd in H. cbn [andb] in H.
      destruct (bool_decide (CM.sources man d = [])) eqn:E; [|discriminate H].
      apply bool_decide_eq_true in E. exact E.
    + assert (H : isEmpty (join "," (g :: groups)) = false).
      { apply isEmpty_join; [discriminate|].
        rewrite <- Hgroups. apply toString_groups_nonempty. }
      rewrite Htext in H. discriminate H.
  - intros Hnone.
    assert (E : flat_map (CM.toString_body (m_mix man) []) (seq 0 ChNamesSize)
                = flat_map (fun _ => []) (seq 0 ChNamesSize)).
    { apply flat_map_ext_In. intros i Hi.
      rewrite toString_body_sources, (Hnone _ (canonical_of_nat i Hi)).
      rewrite bool_decide_eq_true_2 by reflexivity.
      rewrite andb_false_r. reflexivity. }
    rewrite E. reflexivity.
Qed.

(** [toString] writes the eleven canonical destinations and nothing else:
    two manipulations whose sources are canonical speakers and that agree
    on the sources of these destinations have the same text, whatever
    their other slots and their sizes. *)
Theorem toString_canonical_only (a b : ChannelManipulation) :
  sources_canonical a -> sources_canonical b ->
  (forall d : Z, canonical d = true -> CM.sources a d = CM.sources b d) ->
  CM.toString a = CM.toString b.
Proof.
  intros _ _ Hagree. rewrite !toString_eleven. f_equal.
  apply flat_map_ext_In. intros i Hi.
  rewrite !toString_body_sources, (Hagree _ (canonical_of_nat i Hi)). reflexivity.
Qed.

(** Two manipulations of [MP_SPEAKER_ID_COUNT] slots, with canonical
    destinations and sources only, that have the same text are the same. *)
Theorem toString_injective (MP_SPEAKER_ID_COUNT : nat) (a b : ChannelManipulation) :
  ChNamesSize <= MP_SPEAKER_ID_COUNT ->
  length (m_mix a) = MP_SPEAKER_ID_COUNT ->
  length (m_mix b) = MP_SPEAKER_ID_COUNT ->
  destinations_canonical a -> destinations_canonical b ->
  sources_canonical a -> sources_canonical b ->
  CM.toString a = CM.toString b -> a = b.
Proof.
  intros HCOUNT Hla Hlb Hda Hdb Hsa Hsb Htext.
  assert (HNONE : canonical (-1) = false) by reflexivity.
  rewrite <- (fromString_toString _ _ HCOUNT HNONE a Hla Hda Hsa).
  rewrite <- (fromString_toString _ _ HCOUNT HNONE b Hlb Hdb Hsb).
  rewrite Htext. reflexivity.
Qed.

(** The text of a manipulation whose sources are canonical speakers
    contains neither ':' nor '#', the separators of the text of a map. *)
Theorem toString_separator_free (man : ChannelManipulation) :
  sources_canonical man ->
  contains ":" (CM.toString man) = false /\ contains "#" (CM.toString man) = false.
Proof.
  intros Hman. rewrite toString_eleven.
  split; (apply contains_join; [reflexivity|]);
    (apply toString_groups_clean; [simpl; tauto|exact Hman]).
Qed.

Lemma nameToId_exact_witness :
  canonical Sample.MP_SPEAKER_ID_NONE = false
  /\ ((CM.nameToId Sample.MP_SPEAKER_ID_NONE "FLC" = MP_SPEAKER_ID_FLC
       /\ MP_SPEAKER_ID_FLC <> Sample.MP_SPEAKER_ID_NONE)
      <-> (canonical MP_SPEAKER_ID_FLC = true
           /\ ChNames_abbr MP_SPEAKER_ID_FLC = "FLC")).
Proof.
  split; [reflexivity|].
  apply (nameToId_exact Sample.MP_SPEAKER_ID_NONE "FLC" MP_SPEAKER_ID_FLC).
  reflexivity.
Defined.

Lemma fromString_normal_form_witness :
  (ChNamesSize <= Sample.MP_SPEAKER_ID_COUNT
   /\ canonical Sample.MP_SPEAKER_ID_NONE = false)
  /\ CM.fromString Sample.MP_SPEAKER_ID_COUNT Sample.MP_SPEAKER_ID_NONE
       (CM.toString
          (CM.fromString Sample.MP_SPEAKER_ID_COUNT Sample.MP_SPEAKER_ID_NONE
             "FC!FL/XX/FR,,BL!,fl!FR,SR!FC,FC!BL"))
     = CM.fromString Sample.MP_SPEAKER_ID_COUNT Sample.MP_SPEAKER_ID_NONE
         "FC!FL/XX/FR,,BL!,fl!FR,SR!FC,FC!BL".
Proof.
  assert (H1 : ChNamesSize <= Sample.MP_SPEAKER_ID_COUNT) by (vm_compute; lia).
  assert (H2 : canonical Sample.MP_SPEAKER_ID_NONE = false) by reflexivity.
  split; [split; assumption|].
  exact (fromString_normal_form Sample.MP_SPEAKER_ID_COUNT Sample.MP_SPEAKER_ID_NONE
           "FC!FL/XX/FR,,BL!,fl!FR,SR!FC,FC!BL" H1 H2).
Defined.

Lemma fromString_last_group_witness :
  (ChNamesSize <= Sample.MP_SPEAKER_ID_COUNT
   /\ split "," "FC!FL,FL!FR,FC!FR/XX/FR,BL!FC"
      = ["FC!FL"; "FL!FR"] ++ "FC!FR/XX/FR" :: ["BL!FC"]
   /\ splitSkipEmpty "!" "FC!FR/XX/FR" = ["FC"; "FR/XX/FR"]
   /\ CM.nameToId Sample.MP_SPEAKER_ID_NONE "FC" = MP_SPEAKER_ID_FC
   /\ MP_SPEAKER_ID_FC <> Sample.MP_SPEAKER_ID_NONE
   /\ CM.parseSources Sample.MP_SPEAKER_ID_NONE (splitSkipEmpty "/" "FR/XX/FR") <> []
   /\ (forall one dn' sf' : string,
          In one ["BL!FC"] ->
          splitSkipEmpty "!" one = [dn'; sf'] ->
          CM.nameToId Sample.MP_SPEAKER_ID_NONE dn' = MP_SPEAKER_ID_FC ->
          CM.parseSources Sample.MP_SPEAKER_ID_NONE (splitSkipEmpty "/" sf') = []))
  /\ CM.sources
       (CM.fromString Sample.MP_SPEAKER_ID_COUNT Sample.MP_SPEAKER_ID_NONE
          "FC!FL,FL!FR,FC!FR/XX/FR,BL!FC")
       MP_SPEAKER_ID_FC
     = [MP_SPEAKER_ID_FR; MP_SPEAKER_ID_FR].
Proof.
  assert (H1 : ChNamesSize <= Sample.MP_SPEAKER_ID_COUNT) by (vm_compute; lia).
  assert (H2 : split "," "FC!FL,FL!FR,FC!FR/XX/FR,BL!FC"
               = ["FC!FL"; "FL!FR"] ++ "FC!FR/XX/FR" :: ["BL!FC"]) by reflexivity.
  assert (H3 : splitSkipEmpty "!" "FC!FR/XX/FR" = ["FC"; "FR/XX/FR"]) by reflexivity.
  assert (H4 : CM.nameToId Sample.MP_SPEAKER_ID_NONE "FC" = MP_SPEAKER_ID_FC)
    by reflexivity.
  assert (H5 : MP_SPEAKER_ID_FC <> Sample.MP_SPEAKER_ID_NONE) by discriminate.
  assert (H6 : CM.parseSources Sample.MP_SPEAKER_ID_NONE
                 (splitSkipEmpty "/" "FR/XX/FR") <> []) by discriminate.
  assert (H7 : forall one dn' sf' : string,
             In one ["BL!FC"] ->
             splitSkipEmpty "!" one = [dn'; sf'] ->
             CM.nameToId Sample.MP_SPEAKER_ID_NONE dn' = MP_SPEAKER_ID_FC ->
             CM.parseSources Sample.MP_SPEAKER_ID_NONE (splitSkipEmpty "/" sf') = []).
  { intros one dn' sf' [<-|[]] Hsplit. injection Hsplit as <- <-. discriminate. }
  split; [repeat split; assumption|].
  exact (fromString_last_group Sample.MP_SPEAKER_ID_COUNT Sample.MP_SPEAKER_ID_NONE
           "FC!FL,FL!FR,FC!FR/XX/FR,BL!FC" ["FC!FL"; "FL!FR"] ["BL!FC"]
           "FC!FR/XX/FR" "FC" "FR/XX/FR" MP_SPEAKER_ID_FC H1 H2 H3 H4 H5 H6 H7).
Defined.

(** A manipulation whose only source list is in the slot after SideRight:
    its text is empty. *)
Lemma toString_empty_iff_witness :
  sources_canonical
    (CM.set (MP_SPEAKER_ID_SR + 1) [MP_SPEAKER_ID_FL]
            (CM.empty Sample.MP_SPEAKER_ID_COUNT))
  /\ (CM.toString (CM.set (MP_SPEAKER_ID_SR + 1) [MP_SPEAKER_ID_FL]
                          (CM.empty Sample.MP_SPEAKER_ID_COUNT))
      = EmptyString
      <-> forall d : Z,
          canonical d = true ->
          CM.sources (CM.set (MP_SPEAKER_ID_SR + 1) [MP_SPEAKER_ID_FL]
                             (CM.empty Sample.MP_SPEAKER_ID_COUNT)) d
          = []).
Proof.
  assert (H : sources_canonical
                (CM.set (MP_SPEAKER_ID_SR + 1) [MP_SPEAKER_ID_FL]
                        (CM.empty Sample.MP_SPEAKER_ID_COUNT)))
    by (cbv; repeat constructor).
  split; [exact H|].
  exact (toString_empty_iff
           (CM.set (MP_SPEAKER_ID_SR + 1) [MP_SPEAKER_ID_FL]
                   (CM.empty Sample.MP_SPEAKER_ID_COUNT)) H).
Defined.

Lemma toString_canonical_only_witness :
  (sources_canonical Sample.man
   /\ sources_canonical
        (CM.set (MP_SPEAKER_ID_SR + 1) [MP_SPEAKER_ID_FL] Sample.man)
   /\ forall d : Z,
      canonical d = true ->
      CM.sources Sample.man d
      = CM.sources (CM.set (MP_SPEAKER_ID_SR + 1) [MP_SPEAKER_ID_FL] Sample.man) d)
  /\ CM.toString Sample.man
     = CM.toString (CM.set (MP_SPEAKER_ID_SR + 1) [MP_SPEAKER_ID_FL] Sample.man).
Proof.
  assert (Ha : sources_canonical Sample.man) by (cbv; repeat constructor).
  assert (Hb : sources_canonical
                 (CM.set (MP_SPEAKER_ID_SR + 1) [MP_SPEAKER_ID_FL] Sample.man))
    by (cbv; repeat constructor).
  assert (H : forall d : Z,
             canonical d = true ->
             CM.sources Sample.man d
             = CM.sources (CM.set (MP_SPEAKER_ID_SR + 1) [MP_SPEAKER_ID_FL] Sample.man) d).
  { intros d Hd. canonical_cases Hd; reflexivity. }
  split; [split; [exact Ha|split; [exact Hb|exact H]]|].
  exact (toString_canonical_only Sample.man
           (CM.set (MP_SPEAKER_ID_SR + 1) [MP_SPEAKER_ID_FL] Sample.man) Ha Hb H).
Defined.

Lemma toString_injective_witness :
  (ChNamesSize <= Sample.MP_SPEAKER_ID_COUNT
   /\ length (m_mix Sample.man) = Sample.MP_SPEAKER_ID_COUNT
   /\ length (m_mix (CM.fromString Sample.MP_SPEAKER_ID_COUNT Sample.MP_SPEAKER_ID_NONE
        "FC!FL/FR,FL!FL/BL")) = Sample.MP_SPEAKER_ID_COUNT
   /\ destinations_canonical Sample.man
   /\ destinations_canonical (CM.fromString Sample.MP_SPEAKER_ID_COUNT Sample.MP_SPEAKER_ID_NONE
        "FC!FL/FR,FL!FL/BL")
   /\ sources_canonical Sample.man
   /\ sources_canonical (CM.fromString Sample.MP_SPEAKER_ID_COUNT Sample.MP_SPEAKER_ID_NONE
        "FC!FL/FR,FL!FL/BL")
   /\ CM.toString Sample.man = CM.toString (CM.fromString Sample.MP_SPEAKER_ID_COUNT Sample.MP_SPEAKER_ID_NONE
        "FC!FL/FR,FL!FL/BL"))
  /\ Sample.man = (CM.fromString Sample.MP_SPEAKER_ID_COUNT Sample.MP_SPEAKER_ID_NONE
        "FC!FL/FR,FL!FL/BL").
Proof.
  set (read := (CM.fromString Sample.MP_SPEAKER_ID_COUNT Sample.MP_SPEAKER_ID_NONE
        "FC!FL/FR,FL!FL/BL")).
  assert (H1 : ChNamesSize <= Sample.MP_SPEAKER_ID_COUNT) by (vm_compute; lia).
  assert (H2 : length (m_mix Sample.man) = Sample.MP_SPEAKER_ID_COUNT) by reflexivity.
  assert (H3 : length (m_mix read) = Sample.MP_SPEAKER_ID_COUNT) by reflexivity.
  assert (H4 : destinations_canonical Sample.man) by (cbv; repeat constructor).
  assert (H5 : destinations_canonical read) by (cbv; repeat constructor).
  assert (H6 : sources_canonical Sample.man) by (cbv; repeat constructor).
  assert (H7 : sources_canonical read) by (cbv; repeat constructor).
  assert (H8 : CM.toString Sample.man = CM.toString read) by reflexivity.
  split; [repeat split; assumption|].
  exact (toString_injective Sample.MP_SPEAKER_ID_COUNT Sample.man read
           H1 H2 H3 H4 H5 H6 H7 H8).
Defined.

Lemma toString_separator_free_witness :
  sources_canonical Sample.man
  /\ contains ":" (CM.toString Sample.man) = false
  /\ contains "#" (CM.toString Sample.man) = false.
Proof.
  assert (H : sources_canonical Sample.man) by (cbv; repeat constructor).
  split; [exact H|exact (toString_separator_free Sample.man H)].
Defined.

(** ** The layout of a channel map *)

Section ChannelMaps.

Local Abbreviation mp := Speaker.to_mp_speaker_id.

(** The loop of [toLayout] over a list of speakers of the mixer. *)
Local Abbreviation bits_from acc l :=
  (foldl (fun layout x => Z.lor layout (Speaker.value (Resolve.toSpeakerId x))) acc l).

Lemma layoutBits_loop (l : list Z) (n a : nat) (acc : Z) :
  a + n <= length l ->
  foldl (fun layout i =>
           Z.lor layout (Speaker.value (Resolve.toSpeakerId (default 0%Z (l !! i)))))
        acc (seq a n)
  = bits_from acc (take n (drop a l)).
Proof.
  revert a acc. induction n as [|n IH]; intros a acc Hlen; [reflexivity|].
  destruct (lookup_lt_is_Some_2 l a ltac:(lia)) as [x Hx].
  rewrite (drop_S _ _ _ Hx). cbn [seq foldl take]. rewrite Hx. cbn [default from_option id].
  apply IH. lia.
Qed.

Lemma layoutBits_take (chmap : mp_chmap) :
  num chmap <= length (speaker chmap) ->
  Resolve.layoutBits chmap = bits_from 0%Z (take (num chmap) (speaker chmap)).
Proof.
  intros H. unfold Resolve.layoutBits, Resolve.speaker_at.
  rewrite (layoutBits_loop (speaker chmap)) by (simpl; exact H). reflexivity.
Qed.

Lemma toSpeakerId_own (s : SpeakerId) : Resolve.toSpeakerId (mp s) = s.
Proof. destruct s; reflexivity. Qed.

Lemma toSpeakerId_canonical (x : Z) :
  canonical x = true -> mp (Resolve.toSpeakerId x) = x.
Proof. intros H. canonical_cases H; reflexivity. Qed.

(** A speaker of the mixer without row is taken for FrontLeft. *)
Lemma toSpeakerId_unknown (x : Z) :
  canonical x = false -> Resolve.toSpeakerId x = FrontLeft.
Proof.
  intros H. unfold Resolve.toSpeakerId, Resolve.items, Derivation.speakers.
  cbn [List.find].
  repeat (match goal with
          | |- context [(?k =? x)%Z] =>
              destruct (Z.eqb_spec k x) as [<-|_]; [discriminate H|]
          end).
  reflexivity.
Qed.

Lemma present_lor (s : SpeakerId) (a b : Z) :
  Speaker.present s (Z.lor a b) = Speaker.present s a || Speaker.present s b.
Proof.
  unfold Speaker.present, Speaker.nonzero. rewrite Z.land_lor_distr_r.
  destruct (Z.eqb_spec (Z.land (Speaker.value s) a) 0) as [Ha|Ha];
    destruct (Z.eqb_spec (Z.land (Speaker.value s) b) 0) as [Hb|Hb];
    simpl.
  - rewrite Ha, Hb. reflexivity.
  - apply negb_true_iff, Z.eqb_neq. rewrite Z.lor_eq_0_iff. tauto.
  - apply negb_true_iff, Z.eqb_neq. rewrite Z.lor_eq_0_iff. tauto.
  - apply negb_true_iff, Z.eqb_neq. rewrite Z.lor_eq_0_iff. tauto.
Qed.

Lemma present_value (s t : SpeakerId) :
  Speaker.present s (Speaker.value t) = bool_decide (t = s).
Proof. destruct s, t; reflexivity. Qed.

Lemma present_bits_from (s : SpeakerId) (l : list Z) (acc : Z) :
  Speaker.present s (bits_from acc l)
  = Speaker.present s acc
    || existsb (fun x => bool_decide (Resolve.toSpeakerId x = s)) l.
Proof.
  revert acc. induction l as [|x l IH]; intros acc; cbn [foldl existsb].
  - symmetry. apply orb_false_r.
  - rewrite IH, present_lor, present_value. symmetry. apply orb_assoc.
Qed.

(** The bit of a speaker in a layout. *)
Lemma value_land (s : SpeakerId) (layout : Z) :
  Z.land (Speaker.value s) layout
  = if Speaker.present s layout then Speaker.value s else 0%Z.
Proof.
  assert (Hpow : forall k : Z, (0 <= k)%Z ->
             Z.land (2 ^ k) layout = 0%Z \/ Z.land (2 ^ k) layout = (2 ^ k)%Z).
  { intros k Hk. destruct (Z.testbit layout k) eqn:E; [right|left];
      apply Z.bits_inj'; intros n Hn;
      rewrite Z.land_spec, ?Z.bits_0, !Z.pow2_bits_eqb by exact Hk;
      destruct (Z.eqb_spec k n) as [<-|Hne]; rewrite ?E; reflexivity. }
  unfold Speaker.present, Speaker.nonzero.
  destruct (Z.eqb_spec (Z.land (Speaker.value s) layout) 0) as [H0|H0];
    [exact H0|]. cbn [negb].
  assert (Hs : exists k : Z, (0 <= k)%Z /\ Speaker.value s = (2 ^ k)%Z).
  { destruct s; cbn [Speaker.value]; eexists; (split; [|apply Z.shiftl_1_l]); lia. }
  destruct Hs as (k & Hk & Hv). rewrite Hv in *.
  destruct (Hpow k Hk) as [H|H]; [contradiction|exact H].
Qed.

Lemma foldl_lor_filter (keep : SpeakerId -> bool) (l : list SpeakerId) (acc : Z) :
  foldl (fun layout s => Z.lor layout (Speaker.value s)) acc (List.filter keep l)
  = foldl (fun layout s => Z.lor layout (if keep s then Speaker.value s else 0%Z))
          acc l.
Proof.
  revert acc. induction l as [|s l IH]; intros acc; [reflexivity|].
  cbn [List.filter foldl]. destruct (keep s); cbn [foldl].
  - apply IH.
  - rewrite Z.lor_0_r. apply IH.
Qed.

(** What a layout keeps of the eleven speakers, bit by bit. *)
Lemma land_all_speakers (layout : Z) :
  Z.land layout Resolve.all_speakers
  = foldl (fun bits s =>
             Z.lor bits (if Speaker.present s layout then Speaker.value s else 0%Z))
          0%Z Derivation.speakers.
Proof.
  rewrite Z.land_comm. unfold Resolve.all_speakers, Derivation.speakers.
  cbn [foldl]. rewrite <- !value_land, !Z.land_lor_distr_l. reflexivity.
Qed.

Lemma bits_from_map (l : list SpeakerId) (acc : Z) :
  bits_from acc (List.map mp l)
  = foldl (fun layout s => Z.lor layout (Speaker.value s)) acc l.
Proof.
  revert acc. induction l as [|s l IH]; intros acc; [reflexivity|].
  cbn [List.map foldl]. rewrite toSpeakerId_own. apply IH.
Qed.

Lemma bits_from_masked (l : list Z) (acc : Z) :
  Z.land acc Resolve.all_speakers = acc ->
  Z.land (bits_from acc l) Resolve.all_speakers = bits_from acc l.
Proof.
  revert acc. induction l as [|x l IH]; intros acc Hacc; [exact Hacc|].
  cbn [foldl]. apply IH. rewrite Z.land_lor_distr_l, Hacc. f_equal.
  destruct (Resolve.toSpeakerId x); reflexivity.
Qed.

End ChannelMaps.

Section ChannelMapTheorems.

Local Abbreviation mp := Speaker.to_mp_speaker_id.

Lemma present_masked (s : SpeakerId) (layout : Z) :
  Speaker.present s (Z.land layout Resolve.all_speakers) = Speaker.present s layout.
Proof.
  unfold Speaker.present.
  rewrite (Z.land_comm layout), Z.land_assoc.
  replace (Z.land (Speaker.value s) Resolve.all_speakers) with (Speaker.value s)
    by (destruct s; reflexivity).
  reflexivity.
Qed.

(** Two layouts within the eleven speakers that have the same speakers are
    the same. *)
Lemma layout_determined (x y : Z) :
  Z.land x Resolve.all_speakers = x ->
  Z.land y Resolve.all_speakers = y ->
  (forall s, Speaker.present s x = Speaker.present s y) ->
  x = y.
Proof.
  intros Hx Hy Hsame. rewrite <- Hx, <- Hy, !land_all_speakers.
  unfold Derivation.speakers. cbn [foldl]. rewrite !Hsame. reflexivity.
Qed.

Lemma filter_ordered {A} (R : A -> A -> Prop) (keep : A -> bool) (l : list A) :
  (forall i j a b, i < j -> l !! i = Some a -> l !! j = Some b -> R a b) ->
  forall i j a b,
    i < j -> List.filter keep l !! i = Some a -> List.filter keep l !! j = Some b ->
    R a b.
Proof.
  induction l as [|x l IH]; intros H i j a b Hij Ha Hb; [discriminate Ha|].
  assert (Hl : forall i j a b, i < j -> l !! i = Some a -> l !! j = Some b -> R a b).
  { intros i' j' a' b' Hlt Ha' Hb'. apply (H (S i') (S j') a' b'); [lia|assumption..]. }
  cbn [List.filter] in Ha, Hb. destruct (keep x).
  - destruct i as [|i]; destruct j as [|j]; try lia.
    + injection Ha as <-. cbn in Hb.
      assert (Hin : In b l).
      { apply list_elem_of_lookup_2, list_elem_of_In, filter_In in Hb. tauto. }
      apply list_elem_of_In, list_elem_of_lookup in Hin as [k Hk].
      apply (H 0 (S k) x b); [lia|reflexivity|exact Hk].
    + apply (IH Hl i j a b); [lia|exact Ha|exact Hb].
  - apply (IH Hl i j a b); assumption.
Qed.

(** [speakersInLayout] lists exactly the speakers whose bit is set in the
    layout, in the ascending order of their speakers of the mixer, and so
    each of them once. *)
Theorem speakersInLayout_listing (layout : Z) :
  (forall s : SpeakerId,
      In s (Speaker.speakersInLayout layout) <-> Speaker.present s layout = true)
  /\ (forall (i j : nat) (s t : SpeakerId),
         i < j ->
         Speaker.speakersInLayout layout !! i = Some s ->
         Speaker.speakersInLayout layout !! j = Some t ->
         (mp s < mp t)%Z).
Proof.
  split; [intros s; apply In_speakersInLayout|].
  rewrite speakersInLayout_filter. apply filter_ordered.
  intros i j s t Hij Hs Ht.
  assert (Hj : j < 11).
  { apply lookup_lt_Some in Ht. exact Ht. }
  do 11 (destruct j as [|j]; [
    do 11 (destruct i as [|i]; [
      cbn in Hs, Ht; injection Hs as <-; injection Ht as <-; first [reflexivity|lia]|]);
    lia|]).
  lia.
Qed.

(** The layout read from a channel map has the bit of a speaker exactly
    when the map lists its speaker of the mixer among its first [num]
    channels; and a channel that is none of the eleven speakers sets the
    bit of FrontLeft. *)
Theorem layoutBits_present (chmap : mp_chmap) (s : SpeakerId) :
  num chmap <= length (speaker chmap) ->
  Speaker.present s (Resolve.layoutBits chmap) = true
  <-> In (mp s) (take (num chmap) (speaker chmap))
      \/ (s = FrontLeft
          /\ exists x : Z,
               In x (take (num chmap) (speaker chmap)) /\ canonical x = false).
Proof.
  intros Hnum. rewrite layoutBits_take by exact Hnum.
  rewrite present_bits_from.
  replace (Speaker.present s 0) with false by (destruct s; reflexivity).
  cbn [orb]. rewrite existsb_exists. split.
  - intros (x & Hin & Hx). apply bool_decide_eq_true in Hx.
    destruct (canonical x) eqn:Hc.
    + left. rewrite <- Hx, toSpeakerId_canonical by exact Hc. exact Hin.
    + right. rewrite toSpeakerId_unknown in Hx by exact Hc. eauto.
  - intros [Hin|(-> & x & Hin & Hc)].
    + exists (mp s). split; [exact Hin|].
      apply bool_decide_eq_true. apply toSpeakerId_own.
    + exists x. split; [exact Hin|].
      apply bool_decide_eq_true. apply toSpeakerId_unknown, Hc.
Qed.

Lemma layoutBits_listed (chmap : mp_chmap) (layout : Z) :
  num chmap <= length (speaker chmap) ->
  (forall x : Z,
      In x (take (num chmap) (speaker chmap))
      <-> exists s : SpeakerId, x = mp s /\ Speaker.present s layout = true) ->
  Resolve.layoutBits chmap = Z.land layout Resolve.all_speakers.
Proof.
  intros Hnum Hlist. rewrite layoutBits_take by exact Hnum.
  apply layout_determined.
  - apply bits_from_masked. reflexivity.
  - rewrite <- Z.land_assoc, Z.land_diag. reflexivity.
  - intros s. rewrite present_masked, present_bits_from.
    replace (Speaker.present s 0) with false by (destruct s; reflexivity).
    cbn [orb]. apply eq_true_iff_eq. rewrite existsb_exists. split.
    + intros (x & Hin & Hx). apply bool_decide_eq_true in Hx.
      apply Hlist in Hin as (t & -> & Ht).
      rewrite toSpeakerId_own in Hx. congruence.
    + intros Hs. exists (mp s). split.
      * apply Hlist. eauto.
      * apply bool_decide_eq_true, toSpeakerId_own.
Qed.

(** A channel map whose first [num] channels are the speakers of a layout,
    in any order and with any repetition, is read as the bits of the
    eleven speakers in that layout. *)
Theorem layoutBits_of_layout (chmap : mp_chmap) (layout : Z) :
  num chmap <= length (speaker chmap) ->
  (forall x : Z,
      In x (take (num chmap) (speaker chmap))
      <-> exists s : SpeakerId, x = mp s /\ Speaker.present s layout = true) ->
  Resolve.layoutBits chmap = Z.land layout Resolve.all_speakers.
Proof. apply layoutBits_listed. Qed.

Lemma chmap_of_listed (layout : Z) :
  num (Resolve.chmap_of layout) <= length (speaker (Resolve.chmap_of layout))
  /\ forall x : Z,
       In x (take (num (Resolve.chmap_of layout)) (speaker (Resolve.chmap_of layout)))
       <-> exists s : SpeakerId, x = mp s /\ Speaker.present s layout = true.
Proof.
  unfold Resolve.chmap_of. cbn [num speaker]. split; [reflexivity|].
  intros x. rewrite firstn_all, in_map_iff. split.
  - intros (s & <- & Hs). exists s. split; [reflexivity|].
    apply In_speakersInLayout, Hs.
  - intros (s & -> & Hs). exists s. split; [reflexivity|].
    apply In_speakersInLayout, Hs.
Qed.

(** [operator()(const mp_chmap &, const mp_chmap &)] on two channel maps
    that list the speakers of two layouts, in any order, reads the entry of
    these layouts, when [ChannelLayoutInfo::from(int)] answers each of the
    two layouts for its bits. *)
Theorem at_chmap_of_layouts (MP_SPEAKER_ID_COUNT : nat) (from_int : Z -> Z)
    (map : ChannelLayoutMap) (src dest : mp_chmap) (S D : Z) :
  num src <= length (speaker src) ->
  num dest <= length (speaker dest) ->
  (forall x : Z,
      In x (take (num src) (speaker src))
      <-> exists s : SpeakerId, x = mp s /\ Speaker.present s S = true) ->
  (forall x : Z,
      In x (take (num dest) (speaker dest))
      <-> exists s : SpeakerId, x = mp s /\ Speaker.present s D = true) ->
  from_int (Z.land S Resolve.all_speakers) = S ->
  from_int (Z.land D Resolve.all_speakers) = D ->
  Resolve.at_chmap MP_SPEAKER_ID_COUNT from_int map src dest
  = CLM.at_ MP_SPEAKER_ID_COUNT map S D.
Proof.
  intros Hsrc Hdest HsrcS HdestD HS HD.
  unfold Resolve.at_chmap, Resolve.toLayout. cbv zeta.
  rewrite (layoutBits_listed src S Hsrc HsrcS), (layoutBits_listed dest D Hdest HdestD).
  rewrite HS, HD. reflexivity.
Qed.

End ChannelMapTheorems.

Lemma layoutBits_present_witness :
  3 <= length [MP_SPEAKER_ID_FC; 200; MP_SPEAKER_ID_FR; MP_SPEAKER_ID_BL]%Z
  /\ (Speaker.present FrontLeft
        (Resolve.layoutBits
           (mk_mp_chmap 3 [MP_SPEAKER_ID_FC; 200; MP_SPEAKER_ID_FR; MP_SPEAKER_ID_BL]%Z))
      = true
      <-> In (Speaker.to_mp_speaker_id FrontLeft)
             (take 3 [MP_SPEAKER_ID_FC; 200; MP_SPEAKER_ID_FR; MP_SPEAKER_ID_BL]%Z)
          \/ (FrontLeft = FrontLeft
              /\ exists x : Z,
                   In x (take 3 [MP_SPEAKER_ID_FC; 200; MP_SPEAKER_ID_FR;
                                 MP_SPEAKER_ID_BL]%Z)
                   /\ canonical x = false)).
Proof.
  assert (H : 3 <= length [MP_SPEAKER_ID_FC; 200; MP_SPEAKER_ID_FR; MP_SPEAKER_ID_BL]%Z)
    by (simpl; lia).
  split; [exact H|].
  exact (layoutBits_present
           (mk_mp_chmap 3 [MP_SPEAKER_ID_FC; 200; MP_SPEAKER_ID_FR; MP_SPEAKER_ID_BL]%Z)
           FrontLeft H).
Defined.

Lemma layoutBits_of_layout_witness :
  (3 <= length [MP_SPEAKER_ID_FC; MP_SPEAKER_ID_FL; MP_SPEAKER_ID_FR; 0; 0]%Z
   /\ forall x : Z,
        In x (take 3 [MP_SPEAKER_ID_FC; MP_SPEAKER_ID_FL; MP_SPEAKER_ID_FR; 0; 0]%Z)
        <-> exists s : SpeakerId,
              x = Speaker.to_mp_speaker_id s /\ Speaker.present s Sample._3_0 = true)
  /\ Resolve.layoutBits
       (mk_mp_chmap 3 [MP_SPEAKER_ID_FC; MP_SPEAKER_ID_FL; MP_SPEAKER_ID_FR; 0; 0]%Z)
     = Z.land Sample._3_0 Resolve.all_speakers.
Proof.
  assert (H1 : 3 <= length [MP_SPEAKER_ID_FC; MP_SPEAKER_ID_FL; MP_SPEAKER_ID_FR; 0; 0]%Z)
    by (simpl; lia).
  assert (H2 : forall x : Z,
             In x (take 3 [MP_SPEAKER_ID_FC; MP_SPEAKER_ID_FL; MP_SPEAKER_ID_FR; 0; 0]%Z)
             <-> exists s : SpeakerId,
                   x = Speaker.to_mp_speaker_id s
                   /\ Speaker.present s Sample._3_0 = true).
  { intros x. cbn [take In]. split.
    - intros [<-|[<-|[<-|[]]]];
        [exists FrontCenter|exists FrontLeft|exists FrontRight]; split; reflexivity.
    - intros (s & -> & Hs). destruct s; try discriminate Hs; cbn; tauto. }
  split; [split; assumption|].
  exact (layoutBits_of_layout
           (mk_mp_chmap 3 [MP_SPEAKER_ID_FC; MP_SPEAKER_ID_FL; MP_SPEAKER_ID_FR; 0; 0]%Z)
           Sample._3_0 H1 H2).
Defined.

Lemma at_chmap_of_layouts_witness :
  (num (Resolve.chmap_of Sample._5_1) <= length (speaker (Resolve.chmap_of Sample._5_1))
   /\ num (Resolve.chmap_of Sample._2_0) <= length (speaker (Resolve.chmap_of Sample._2_0))
   /\ (forall x : Z,
          In x (take (num (Resolve.chmap_of Sample._5_1))
                     (speaker (Resolve.chmap_of Sample._5_1)))
          <-> exists s : SpeakerId,
                x = Speaker.to_mp_speaker_id s /\ Speaker.present s Sample._5_1 = true)
   /\ (forall x : Z,
          In x (take (num (Resolve.chmap_of Sample._2_0))
                     (speaker (Resolve.chmap_of Sample._2_0)))
          <-> exists s : SpeakerId,
                x = Speaker.to_mp_speaker_id s /\ Speaker.present s Sample._2_0 = true)
   /\ (fun bits : Z => bits) (Z.land Sample._5_1 Resolve.all_speakers) = Sample._5_1
   /\ (fun bits : Z => bits) (Z.land Sample._2_0 Resolve.all_speakers) = Sample._2_0)
  /\ Resolve.at_chmap Sample.MP_SPEAKER_ID_COUNT (fun bits : Z => bits) Sample.edited
       (Resolve.chmap_of Sample._5_1) (Resolve.chmap_of Sample._2_0)
     = CLM.at_ Sample.MP_SPEAKER_ID_COUNT Sample.edited Sample._5_1 Sample._2_0.
Proof.
  destruct (chmap_of_listed Sample._5_1) as [H1 H3].
  destruct (chmap_of_listed Sample._2_0) as [H2 H4].
  assert (H5 : (fun bits : Z => bits) (Z.land Sample._5_1 Resolve.all_speakers)
               = Sample._5_1) by reflexivity.
  assert (H6 : (fun bits : Z => bits) (Z.land Sample._2_0 Resolve.all_speakers)
               = Sample._2_0) by reflexivity.
  split; [repeat split; first [assumption|apply H3|apply H4]|].
  exact (at_chmap_of_layouts Sample.MP_SPEAKER_ID_COUNT (fun bits : Z => bits)
           Sample.edited (Resolve.chmap_of Sample._5_1) (Resolve.chmap_of Sample._2_0)
           Sample._5_1 Sample._2_0 H1 H2 H3 H4 H5 H6).
Defined.

(** ** The entries of [default_], one source speaker at a time *)

Section RoutingFacts.

Variable MP_SPEAKER_ID_COUNT : nat.
Variable Mono : Z.
Variable QT_NO_DEBUG : bool.

Hypothesis COUNT_covers : ChNamesSize <= MP_SPEAKER_ID_COUNT.

Local Abbreviation mp := Speaker.to_mp_speaker_id.
Local Abbreviation fresh := (replicate MP_SPEAKER_ID_COUNT (@nil Z)).
Local Abbreviation derive := (Derivation.derive MP_SPEAKER_ID_COUNT Mono QT_NO_DEBUG).

(** What one source speaker adds to the destination [d] of a fresh array. *)
Local Abbreviation contribution dstLayout d :=
  (fun srcSpeaker : SpeakerId =>
     match CLM.mixSpeaker Mono QT_NO_DEBUG dstLayout srcSpeaker fresh with
     | Some (_, more) => CM.sources (mkChannelManipulation more) d
     | None => []
     end).

(** A source speaker writes itself at most once to a destination, and to
    canonical destinations only. *)
Lemma contribution_shape (dstLayout d : Z) (s : SpeakerId) :
  contribution dstLayout d s = []
  \/ (contribution dstLayout d s = [mp s] /\ canonical d = true).
Proof.
  destruct (Speaker.present s dstLayout) eqn:Hs.
  { rewrite (contribution_present _ _ _ COUNT_covers) by exact Hs.
    destruct (Z.eqb_spec d (mp s)) as [->|_]; [right|left; reflexivity].
    split; [reflexivity|]. destruct s; reflexivity. }
  destruct (Z.eqb_spec dstLayout Mono) as [->|HMono].
  { rewrite (contribution_Mono _ _ _ COUNT_covers) by exact Hs.
    destruct (Z.eqb_spec d MP_SPEAKER_ID_FC) as [->|_]; [right|left; reflexivity].
    split; reflexivity. }
  unfold CLM.mixSpeaker. cbv zeta.
  change (Speaker.nonzero (Z.land (Speaker.value s) dstLayout))
    with (Speaker.present s dstLayout).
  rewrite Hs, (proj2 (Z.eqb_neq _ _) HMono). clear Hs.
  destruct s, QT_NO_DEBUG; mix_tests;
    repeat match goal with
           | |- context [Speaker.present ?a ?b] => destruct (Speaker.present a b)
           end;
    mix_eval; rewrite ?sources_append by slot;
    rewrite ?(sources_fresh MP_SPEAKER_ID_COUNT);
    repeat match goal with
           | |- context [(d =? ?c)%Z] => destruct (Z.eqb_spec d c) as [->|?]
           end;
    first [left; reflexivity|right; split; reflexivity|discriminate].
Qed.

(** On a destination layout whose halves match, a source speaker is
    written to speakers of that layout only. *)
Lemma contribution_inside (dstLayout d : Z) (s : SpeakerId) (x : Z) :
  Shape.symmetric Mono dstLayout ->
  In x (contribution dstLayout d s) ->
  exists t : SpeakerId, d = mp t /\ Speaker.present t dstLayout = true.
Proof.
  intros [HMono Hother].
  destruct (Speaker.present s dstLayout) eqn:Hs.
  { rewrite (contribution_present _ _ _ COUNT_covers) by exact Hs.
    destruct (Z.eqb_spec d (mp s)) as [->|_]; [|intros []].
    intros _. exists s. split; [reflexivity|exact Hs]. }
  destruct (Z.eqb_spec dstLayout Mono) as [->|Hne].
  { rewrite (contribution_Mono _ _ _ COUNT_covers) by exact Hs.
    destruct (Z.eqb_spec d MP_SPEAKER_ID_FC) as [->|_]; [|intros []].
    intros _. exists FrontCenter. split; [reflexivity|exact (HMono eq_refl)]. }
  destruct (Hother Hne) as (HFL & HFR & Hflc & Hbl & Hsl).
  unfold CLM.mixSpeaker. cbv zeta.
  change (Speaker.nonzero (Z.land (Speaker.value s) dstLayout))
    with (Speaker.present s dstLayout).
  rewrite Hs, (proj2 (Z.eqb_neq _ _) Hne).
  destruct s; try congruence; clear Hs; mix_tests;
    rewrite <- ?Hflc, <- ?Hbl, <- ?Hsl;
    repeat match goal with
           | |- context [Speaker.present ?a dstLayout] =>
               destruct (Speaker.present a dstLayout) eqn:?
           end;
    mix_eval; rewrite ?sources_append by slot;
    rewrite ?(sources_fresh MP_SPEAKER_ID_COUNT);
    repeat match goal with
           | |- context [(d =? ?c)%Z] => destruct (Z.eqb_spec d c) as [->|?]
           end;
    simpl; intros Hin; try contradiction;
    first [exists FrontLeft; split; [reflexivity|assumption]
          |exists FrontRight; split; [reflexivity|assumption]
          |exists FrontCenter; split; [reflexivity|assumption]
          |exists BackLeft; split; [reflexivity|assumption]
          |exists BackRight; split; [reflexivity|congruence]
          |exists FrontLeftCenter; split; [reflexivity|assumption]
          |exists FrontRightCenter; split; [reflexivity|congruence]
          |exists BackCenter; split; [reflexivity|assumption]
          |exists SideLeft; split; [reflexivity|assumption]
          |exists SideRight; split; [reflexivity|congruence]].
Qed.

(** On Mono and on a layout with FrontLeft and FrontRight every source
    speaker is written to some destination. *)
Lemma contribution_somewhere (dstLayout : Z) (s : SpeakerId) :
  dstLayout = Mono \/
  (Speaker.present FrontLeft dstLayout = true /\
   Speaker.present FrontRight dstLayout = true) ->
  exists d : Z, In (mp s) (contribution dstLayout d s).
Proof.
  intros Hdst.
  destruct (Speaker.present s dstLayout) eqn:Hs.
  { exists (mp s). rewrite (contribution_present _ _ _ COUNT_covers) by exact Hs.
    rewrite Z.eqb_refl. left. reflexivity. }
  destruct (Z.eqb_spec dstLayout Mono) as [->|Hne].
  { exists MP_SPEAKER_ID_FC.
    rewrite (contribution_Mono _ _ _ COUNT_covers) by exact Hs.
    left. reflexivity. }
  destruct Hdst as [|[HFL HFR]]; [contradiction|].
  assert (Hsome : flat_map (fun d => contribution dstLayout d s)
                           [0; 1; 2; 3; 4; 5; 6; 7; 8; 9; 10]%Z <> []).
  { unfold CLM.mixSpeaker. cbv zeta.
    change (Speaker.nonzero (Z.land (Speaker.value s) dstLayout))
      with (Speaker.present s dstLayout).
    rewrite Hs, (proj2 (Z.eqb_neq _ _) Hne).
    destruct s; try congruence; clear Hs; mix_tests;
      repeat match goal with
             | |- context [Speaker.present ?a dstLayout] =>
                 destruct (Speaker.present a dstLayout)
             end;
      mix_eval; cbn [flat_map]; rewrite ?sources_append by slot;
      rewrite ?(sources_fresh MP_SPEAKER_ID_COUNT); simpl; discriminate. }
  destruct (flat_map (fun d => contribution dstLayout d s)
                     [0; 1; 2; 3; 4; 5; 6; 7; 8; 9; 10]%Z) as [|x l] eqn:E;
    [congruence|].
  assert (Hx : In x (flat_map (fun d => contribution dstLayout d s)
                              [0; 1; 2; 3; 4; 5; 6; 7; 8; 9; 10]%Z))
    by (rewrite E; left; reflexivity).
  apply in_flat_map in Hx as (d & _ & Hd). exists d.
  destruct (contribution_shape dstLayout d s) as [Hnil|[Hone _]].
  - rewrite Hnil in Hd. destruct Hd.
  - rewrite Hone. left. reflexivity.
Qed.

(** A list made of at most one image per element keeps the order of the
    elements. *)
Lemma flat_map_sublist {A B} (f : A -> list B) (g : A -> B) (l : list A) :
  (forall a, f a = [] \/ f a = [g a]) ->
  sublist (flat_map f l) (List.map g l).
Proof.
  intros Hf. induction l as [|a l IH]; [constructor|].
  cbn [flat_map List.map]. destruct (Hf a) as [-> | ->]; cbn [app].
  - apply sublist_cons, IH.
  - apply sublist_skip, IH.
Qed.

(** The array the speaker loop leaves for a pair of layouts. *)
Lemma derive_shape (srcLayout dstLayout : Z) (mix : list (list Z)) :
  derive srcLayout dstLayout = Some (tt, mix) ->
  length mix = MP_SPEAKER_ID_COUNT /\
  destinations_canonical (mkChannelManipulation mix) /\
  sources_canonical (mkChannelManipulation mix) /\
  forall d : Z,
    sublist (CM.sources (mkChannelManipulation mix) d)
            (List.map mp (Speaker.speakersInLayout srcLayout)).
Proof.
  intros Hrun.
  assert (Hsrc : forall d,
             CM.sources (mkChannelManipulation mix) d
             = flat_map (contribution dstLayout d) (Speaker.speakersInLayout srcLayout)).
  { intros d. apply (derive_sources _ _ _ _ _ _ _ Hrun). }
  assert (Hslot : forall (i : nat) (srcs : list Z),
             mix !! i = Some srcs ->
             CM.sources (mkChannelManipulation mix) (Z.of_nat i) = srcs).
  { intros i srcs Hi. unfold CM.sources. cbn [m_mix].
    replace (Z.of_nat i <? 0)%Z with false by (symmetry; apply Z.ltb_ge; lia).
    rewrite Nat2Z.id, Hi. reflexivity. }
  split; [apply (for_sources _ _ _ dstLayout 0%Z _ _ Hrun)|]. split; [|split].
  - unfold destinations_canonical. cbn [m_mix]. apply Forall_lookup.
    intros i srcs Hi. rewrite lookup_drop in Hi.
    rewrite <- (Hslot _ _ Hi), Hsrc.
    destruct (flat_map _ _) as [|x l] eqn:E; [reflexivity|exfalso].
    assert (Hx : In x (flat_map (contribution dstLayout (Z.of_nat (ChNamesSize + i)))
                                (Speaker.speakersInLayout srcLayout)))
      by (rewrite E; left; reflexivity).
    apply in_flat_map in Hx as (s & _ & Hs).
    destruct (contribution_shape dstLayout (Z.of_nat (ChNamesSize + i)) s)
      as [Hnil|[_ Hcanon]].
    + rewrite Hnil in Hs. destruct Hs.
    + unfold canonical, MP_SPEAKER_ID_FL, MP_SPEAKER_ID_SR, ChNamesSize in Hcanon.
      apply andb_true_iff in Hcanon as [_ H]. apply Z.leb_le in H. lia.
  - unfold sources_canonical. cbn [m_mix]. apply Forall_lookup.
    intros i srcs Hi. rewrite <- (Hslot _ _ Hi), Hsrc.
    apply List.Forall_forall. intros x Hx.
    apply in_flat_map in Hx as (s & _ & Hs).
    rewrite (contribution_own _ _ _ COUNT_covers _ _ _ _ Hs).
    destruct s; reflexivity.
  - intros d. rewrite Hsrc. apply flat_map_sublist.
    intros s. destruct (contribution_shape dstLayout d s) as [H|[H _]]; auto.
Qed.

End RoutingFacts.

(** ** The map [default_] returns *)

Section DefaultMap.

Variable MP_SPEAKER_ID_COUNT : nat.
Variables Default Mono : Z.
Variable QT_NO_DEBUG : bool.
Variable items : list Z.

Hypothesis COUNT_covers : ChNamesSize <= MP_SPEAKER_ID_COUNT.
Hypothesis items_distinct : List.NoDup items.

Local Abbreviation default_ :=
  (CLM.default_ MP_SPEAKER_ID_COUNT Default Mono QT_NO_DEBUG items).
Local Abbreviation derive := (Derivation.derive MP_SPEAKER_ID_COUNT Mono QT_NO_DEBUG).
Local Abbreviation at_ := (CLM.at_ MP_SPEAKER_ID_COUNT).
Local Abbreviation mp := Speaker.to_mp_speaker_id.

(** The pairs of layouts of the table that [default_] visits. *)
Local Abbreviation visited S D :=
  (In S items /\ In D items /\ S <> Default /\ D <> Default).

Lemma default_stored (map : ChannelLayoutMap) :
  default_ = Some map ->
  (forall S D, ~ visited S D -> Derivation.lookup map S D = None)
  /\ (forall S D, visited S D ->
        exists mix, derive S D = Some (tt, mix)
                    /\ Derivation.lookup map S D = Some (mkChannelManipulation mix)).
Proof.
  clear COUNT_covers. intros Hmap.
  destruct (default_src_loop MP_SPEAKER_ID_COUNT Default Mono QT_NO_DEBUG items items
              (mkChannelLayoutMap []) map items_distinct items_distinct
              (fun _ _ _ => eq_refl) Hmap) as [Hout Hin].
  split.
  - intros S D Hno. rewrite Hout; [reflexivity|]. tauto.
  - intros S D (HS & HD & HSd & HDd). apply Hin; assumption.
Qed.

Lemma visited_dec (S D : Z) : visited S D \/ ~ visited S D.
Proof.
  clear COUNT_covers items_distinct.
  destruct (In_dec Z.eq_dec S items); [|tauto].
  destruct (In_dec Z.eq_dec D items); [|tauto].
  destruct (Z.eq_dec S Default); [tauto|].
  destruct (Z.eq_dec D Default); tauto.
Qed.

(** An entry of the map was made by the speaker loop for its two layouts. *)
Lemma default_stored_inv (map : ChannelLayoutMap) (S D : Z) (man : ChannelManipulation) :
  default_ = Some map ->
  Derivation.lookup map S D = Some man ->
  visited S D /\ derive S D = Some (tt, m_mix man).
Proof.
  clear COUNT_covers. intros Hmap Hlook.
  destruct (default_stored map Hmap) as [Hout Hin].
  destruct (visited_dec S D) as [Hv|Hv].
  - split; [exact Hv|]. destruct (Hin S D Hv) as (mix & Hmix & Hl).
    rewrite Hl in Hlook. injection Hlook as <-. exact Hmix.
  - rewrite (Hout S D Hv) in Hlook. discriminate Hlook.
Qed.

End DefaultMap.

Section DefaultTheorems.

Variable MP_SPEAKER_ID_COUNT : nat.
Variables Default Mono : Z.
Variable QT_NO_DEBUG : bool.
Variable items : list Z.

Hypothesis COUNT_covers : ChNamesSize <= MP_SPEAKER_ID_COUNT.
Hypothesis items_distinct : List.NoDup items.
Hypothesis items_no_abort :
  QT_NO_DEBUG = true \/ Derivation.stereo_based Default Mono items.

Local Abbreviation default_ :=
  (CLM.default_ MP_SPEAKER_ID_COUNT Default Mono QT_NO_DEBUG items).
Local Abbreviation at_ := (CLM.at_ MP_SPEAKER_ID_COUNT).
Local Abbreviation mp := Speaker.to_mp_speaker_id.

(** [default_] stores an entry exactly for the pairs of layouts of the
    table in which neither layout is Default: no entry has Default as
    source or destination, and none has a layout outside the table. *)
Theorem default_keys :
  exists map,
    default_ = Some map /\
    forall S D : Z,
      Derivation.lookup map S D <> None
      <-> (In S items /\ In D items /\ S <> Default /\ D <> Default).
Proof.
  destruct (default_total MP_SPEAKER_ID_COUNT Default Mono QT_NO_DEBUG items
              items_no_abort) as [map Hmap].
  exists map. split; [exact Hmap|]. intros S D.
  destruct (default_stored MP_SPEAKER_ID_COUNT Default Mono QT_NO_DEBUG items
              items_distinct map Hmap) as [Hout Hin].
  split.
  - intros Hsome.
    destruct (visited_dec Default items S D) as [Hv|Hv]; [exact Hv|].
    elim Hsome. apply Hout, Hv.
  - intros Hv. destruct (Hin S D Hv) as (mix & _ & Hl). rewrite Hl. discriminate.
Qed.


(** No speaker is lost on Mono or on a layout with FrontLeft and
    FrontRight: in the entry of (S, D) every speaker of S is a source of
    some destination. *)
Theorem default_covers_sources (S D : Z) :
  In S items -> In D items -> S <> Default -> D <> Default ->
  D = Mono \/
  (Speaker.present FrontLeft D = true /\ Speaker.present FrontRight D = true) ->
  exists map,
    default_ = Some map /\
    forall s : SpeakerId,
      Speaker.present s S = true ->
      exists d : Z, In (mp s) (CM.sources (at_ map S D) d).
Proof.
  intros HS HD HSd HDd Hshape.
  destruct (default_entry MP_SPEAKER_ID_COUNT Default Mono QT_NO_DEBUG items S D)
    as (map & mix & Hmap & Hmix & _ & Hat); try assumption.
  exists map. split; [exact Hmap|]. rewrite Hat. intros s Hs.
  destruct (contribution_somewhere MP_SPEAKER_ID_COUNT Mono QT_NO_DEBUG COUNT_covers
              D s Hshape) as [d Hd].
  exists d. apply (derive_contributes _ _ _ COUNT_covers _ _ _ _ _ Hmix Hs). exact Hd.
Qed.

(** On a destination layout whose left and right halves match, the entry
    of (S, D) feeds speakers of D only. *)
Theorem default_destinations_inside (S D : Z) :
  In S items -> In D items -> S <> Default -> D <> Default ->
  Shape.symmetric Mono D ->
  exists map,
    default_ = Some map /\
    forall d : Z,
      CM.sources (at_ map S D) d <> [] ->
      exists t : SpeakerId, d = mp t /\ Speaker.present t D = true.
Proof.
  intros HS HD HSd HDd Hshape.
  destruct (default_entry MP_SPEAKER_ID_COUNT Default Mono QT_NO_DEBUG items S D)
    as (map & mix & Hmap & Hmix & _ & Hat); try assumption.
  exists map. split; [exact Hmap|]. rewrite Hat. intros d Hd.
  rewrite (derive_sources _ _ _ _ _ d _ Hmix) in Hd.
  destruct (flat_map _ _) as [|x l] eqn:E; [congruence|].
  assert (Hx : In x (x :: l)) by (left; reflexivity).
  rewrite <- E in Hx. apply in_flat_map in Hx as (s & _ & Hs).
  exact (contribution_inside MP_SPEAKER_ID_COUNT Mono QT_NO_DEBUG COUNT_covers
           D d s x Hshape Hs).
Qed.

End DefaultTheorems.

(** ** The assertion on FrontLeft and FrontRight *)

Lemma for_abort {A} (xs : list A) (body : A -> MixM.t unit) (x : A) :
  In x xs -> (forall mix, body x mix = None) ->
  forall mix, MixM.for_ xs body mix = None.
Proof.
  intros Hin Hx. induction xs as [|y xs IH]; intros mix; [destruct Hin|].
  cbn [MixM.for_]. unfold MixM.bind.
  destruct (body y mix) as [[[] mix']|] eqn:Hy; [|reflexivity].
  destruct Hin as [->|Hin]; [rewrite Hx in Hy; discriminate Hy|].
  apply IH, Hin.
Qed.

Lemma forLayouts_abort (items : list Z)
    (body : ChannelLayoutMap -> Z -> option ChannelLayoutMap) (item : Z) :
  In item items -> (forall map, body map item = None) ->
  forall map, CLM.forLayouts items body map = None.
Proof.
  intros Hin Hitem. induction items as [|y items IH]; intros map; [destruct Hin|].
  cbn [CLM.forLayouts].
  destruct (body map y) as [map'|] eqn:Hy; [|reflexivity].
  destruct Hin as [->|Hin]; [rewrite Hitem in Hy; discriminate Hy|].
  apply IH, Hin.
Qed.

(** In a build with assertions [default_] aborts as soon as the table has
    a source layout with FrontLeft or FrontRight and a destination layout,
    other than Mono, without it (neither layout being Default). *)
Theorem default_aborts (MP_SPEAKER_ID_COUNT : nat) (Default Mono : Z)
    (items : list Z) (S D : Z) (s : SpeakerId) :
  In S items -> In D items -> S <> Default -> D <> Default -> D <> Mono ->
  s = FrontLeft \/ s = FrontRight ->
  Speaker.present s S = true ->
  Speaker.present s D = false ->
  CLM.default_ MP_SPEAKER_ID_COUNT Default Mono false items = None.
Proof.
  intros HS HD HSd HDd HDm Hs HsS HsD. unfold CLM.default_.
  apply (forLayouts_abort items _ S HS). intros map. unfold CLM.default_src.
  rewrite (proj2 (Z.eqb_neq _ _) HSd). cbv zeta.
  apply (forLayouts_abort items _ D HD). intros map'. unfold CLM.default_dst.
  rewrite (proj2 (Z.eqb_neq _ _) HDd). cbv zeta.
  rewrite (for_abort (Speaker.speakersInLayout S) _ s); [reflexivity| |].
  - apply In_speakersInLayout, HsS.
  - intros mix. unfold CLM.mixSpeaker. cbv zeta.
    change (Speaker.nonzero (Z.land (Speaker.value s) D)) with (Speaker.present s D).
    rewrite HsD, (proj2 (Z.eqb_neq _ _) HDm).
    destruct Hs as [-> | ->]; reflexivity.
Qed.

(** In a build without assertions the same pair of layouts has an entry in
    the map, the one [operator()] reads, and in it FrontLeft or FrontRight
    of the source layout, absent from the destination layout, is a source
    of no destination. *)
Theorem default_drops_front (MP_SPEAKER_ID_COUNT : nat) (Default Mono : Z)
    (items : list Z) (S D : Z) (s : SpeakerId) :
  ChNamesSize <= MP_SPEAKER_ID_COUNT ->
  List.NoDup items ->
  In S items -> In D items -> S <> Default -> D <> Default -> D <> Mono ->
  s = FrontLeft \/ s = FrontRight ->
  Speaker.present s S = true ->
  Speaker.present s D = false ->
  exists map man,
    CLM.default_ MP_SPEAKER_ID_COUNT Default Mono true items = Some map /\
    Derivation.lookup map S D = Some man /\
    CLM.at_ MP_SPEAKER_ID_COUNT map S D = man /\
    forall d : Z, ~ In (Speaker.to_mp_speaker_id s) (CM.sources man d).
Proof.
  intros HCOUNT Hnodup HS HD HSd HDd HDm Hs HsS HsD.
  destruct (default_entry MP_SPEAKER_ID_COUNT Default Mono true items S D)
    as (map & mix & Hmap & Hmix & Hlook & Hat); try assumption; [left; reflexivity|].
  exists map, (mkChannelManipulation mix).
  split; [exact Hmap|]. split; [exact Hlook|]. split; [exact Hat|]. intros d Hin.
  apply (derive_contributes _ _ _ HCOUNT _ _ _ _ _ Hmix HsS) in Hin.
  unfold CLM.mixSpeaker in Hin. cbv zeta in Hin.
  change (Speaker.nonzero (Z.land (Speaker.value s) D)) with (Speaker.present s D) in Hin.
  rewrite HsD, (proj2 (Z.eqb_neq _ _) HDm) in Hin.
  destruct Hs as [-> | ->]; cbn in Hin;
    rewrite (sources_fresh MP_SPEAKER_ID_COUNT) in Hin; destruct Hin.
Qed.

(** The entry of a pair of layouts does not depend on the other rows of
    the table: two tables without repeated row that both hold S and D give
    the same entry for (S, D). *)
Theorem default_entry_independent (MP_SPEAKER_ID_COUNT : nat) (Default Mono : Z)
    (QT_NO_DEBUG : bool) (items items' : list Z) (S D : Z) :
  List.NoDup items -> List.NoDup items' ->
  QT_NO_DEBUG = true \/ Derivation.stereo_based Default Mono items ->
  QT_NO_DEBUG = true \/ Derivation.stereo_based Default Mono items' ->
  In S items -> In D items -> In S items' -> In D items' ->
  S <> Default -> D <> Default ->
  exists map map',
    CLM.default_ MP_SPEAKER_ID_COUNT Default Mono QT_NO_DEBUG items = Some map /\
    CLM.default_ MP_SPEAKER_ID_COUNT Default Mono QT_NO_DEBUG items' = Some map' /\
    CLM.at_ MP_SPEAKER_ID_COUNT map S D = CLM.at_ MP_SPEAKER_ID_COUNT map' S D.
Proof.
  intros Hnodup Hnodup' Hok Hok' HS HD HS' HD' HSd HDd.
  destruct (default_entry MP_SPEAKER_ID_COUNT Default Mono QT_NO_DEBUG items S D)
    as (map & mix & Hmap & Hmix & _ & Hat); try assumption.
  destruct (default_entry MP_SPEAKER_ID_COUNT Default Mono QT_NO_DEBUG items' S D)
    as (map' & mix' & Hmap' & Hmix' & _ & Hat'); try assumption.
  exists map, map'. split; [exact Hmap|]. split; [exact Hmap'|].
  rewrite Hat, Hat'. congruence.
Qed.

Lemma default_keys_witness :
  (List.NoDup Sample.items
   /\ (Sample.QT_NO_DEBUG = true \/
       Derivation.stereo_based Sample.Default Sample.Mono Sample.items))
  /\ exists map,
      CLM.default_ Sample.MP_SPEAKER_ID_COUNT Sample.Default Sample.Mono
                   Sample.QT_NO_DEBUG Sample.items
      = Some map /\
      forall S D : Z,
        Derivation.lookup map S D <> None
        <-> (In S Sample.items /\ In D Sample.items
             /\ S <> Sample.Default /\ D <> Sample.Default).
Proof.
  split; [split; [exact Sample_items_distinct|exact Sample_items_no_abort]|].
  exact (default_keys Sample.MP_SPEAKER_ID_COUNT Sample.Default Sample.Mono
           Sample.QT_NO_DEBUG Sample.items Sample_items_distinct Sample_items_no_abort).
Defined.


Lemma default_covers_sources_witness :
  (ChNamesSize <= Sample.MP_SPEAKER_ID_COUNT
   /\ List.NoDup Sample.items
   /\ (Sample.QT_NO_DEBUG = true \/
       Derivation.stereo_based Sample.Default Sample.Mono Sample.items)
   /\ In Sample._7_1 Sample.items /\ In Sample._3_0 Sample.items
   /\ Sample._7_1 <> Sample.Default /\ Sample._3_0 <> Sample.Default
   /\ (Sample._3_0 = Sample.Mono \/
       (Speaker.present FrontLeft Sample._3_0 = true /\
        Speaker.present FrontRight Sample._3_0 = true)))
  /\ exists map,
      CLM.default_ Sample.MP_SPEAKER_ID_COUNT Sample.Default Sample.Mono
                   Sample.QT_NO_DEBUG Sample.items
      = Some map /\
      forall s : SpeakerId,
        Speaker.present s Sample._7_1 = true ->
        exists d : Z,
          In (Speaker.to_mp_speaker_id s)
             (CM.sources
                (CLM.at_ Sample.MP_SPEAKER_ID_COUNT map Sample._7_1 Sample._3_0) d).
Proof.
  assert (H1 : In Sample._7_1 Sample.items) by (cbv; tauto).
  assert (H2 : In Sample._3_0 Sample.items) by (cbv; tauto).
  assert (H3 : Sample._7_1 <> Sample.Default) by (cbv; discriminate).
  assert (H4 : Sample._3_0 <> Sample.Default) by (cbv; discriminate).
  assert (H5 : Sample._3_0 = Sample.Mono \/
               (Speaker.present FrontLeft Sample._3_0 = true /\
                Speaker.present FrontRight Sample._3_0 = true))
    by (right; split; reflexivity).
  split.
  - repeat split; try assumption.
    + exact Sample_COUNT_covers.
    + exact Sample_items_distinct.
    + exact Sample_items_no_abort.
  - exact (default_covers_sources _ _ _ _ _ Sample_COUNT_covers Sample_items_distinct
             Sample_items_no_abort Sample._7_1 Sample._3_0 H1 H2 H3 H4 H5).
Defined.

Lemma Sample_5_0_symmetric : Shape.symmetric Sample.Mono Sample._5_0.
Proof.
  split; [intros H; discriminate H|]. intros _. repeat split; reflexivity.
Defined.

Lemma default_destinations_inside_witness :
  (ChNamesSize <= Sample.MP_SPEAKER_ID_COUNT
   /\ List.NoDup Sample.items
   /\ (Sample.QT_NO_DEBUG = true \/
       Derivation.stereo_based Sample.Default Sample.Mono Sample.items)
   /\ In Sample._7_1 Sample.items /\ In Sample._5_0 Sample.items
   /\ Sample._7_1 <> Sample.Default /\ Sample._5_0 <> Sample.Default
   /\ Shape.symmetric Sample.Mono Sample._5_0)
  /\ exists map,
      CLM.default_ Sample.MP_SPEAKER_ID_COUNT Sample.Default Sample.Mono
                   Sample.QT_NO_DEBUG Sample.items
      = Some map /\
      forall d : Z,
        CM.sources (CLM.at_ Sample.MP_SPEAKER_ID_COUNT map Sample._7_1 Sample._5_0) d
        <> [] ->
        exists t : SpeakerId,
          d = Speaker.to_mp_speaker_id t /\ Speaker.present t Sample._5_0 = true.
Proof.
  assert (H1 : In Sample._7_1 Sample.items) by (cbv; tauto).
  assert (H2 : In Sample._5_0 Sample.items) by (cbv; tauto).
  assert (H3 : Sample._7_1 <> Sample.Default) by (cbv; discriminate).
  assert (H4 : Sample._5_0 <> Sample.Default) by (cbv; discriminate).
  split.
  - split; [exact Sample_COUNT_covers|]. split; [exact Sample_items_distinct|].
    split; [exact Sample_items_no_abort|].
    repeat (split; [assumption|]). exact Sample_5_0_symmetric.
  - exact (default_destinations_inside _ _ _ _ _ Sample_COUNT_covers
             Sample_items_distinct Sample_items_no_abort Sample._7_1 Sample._5_0
             H1 H2 H3 H4 Sample_5_0_symmetric).
Defined.

Lemma default_aborts_witness :
  (In Sample._2_0 Sample2.items_centre /\ In Sample2.centre_lfe Sample2.items_centre
   /\ Sample._2_0 <> Sample.Default /\ Sample2.centre_lfe <> Sample.Default
   /\ Sample2.centre_lfe <> Sample.Mono
   /\ (FrontLeft = FrontLeft \/ FrontLeft = FrontRight)
   /\ Speaker.present FrontLeft Sample._2_0 = true
   /\ Speaker.present FrontLeft Sample2.centre_lfe = false)
  /\ CLM.default_ Sample.MP_SPEAKER_ID_COUNT Sample.Default Sample.Mono false
       Sample2.items_centre
     = None.
Proof.
  assert (H1 : In Sample._2_0 Sample2.items_centre) by (cbv; tauto).
  assert (H2 : In Sample2.centre_lfe Sample2.items_centre) by (cbv; tauto).
  assert (H3 : Sample._2_0 <> Sample.Default) by (cbv; discriminate).
  assert (H4 : Sample2.centre_lfe <> Sample.Default) by (cbv; discriminate).
  assert (H5 : Sample2.centre_lfe <> Sample.Mono) by (cbv; discriminate).
  assert (H6 : FrontLeft = FrontLeft \/ FrontLeft = FrontRight) by (left; reflexivity).
  assert (H7 : Speaker.present FrontLeft Sample._2_0 = true) by reflexivity.
  assert (H8 : Speaker.present FrontLeft Sample2.centre_lfe = false) by reflexivity.
  split; [repeat split; assumption|].
  exact (default_aborts Sample.MP_SPEAKER_ID_COUNT Sample.Default Sample.Mono
           Sample2.items_centre Sample._2_0 Sample2.centre_lfe FrontLeft
           H1 H2 H3 H4 H5 H6 H7 H8).
Defined.

Lemma Sample2_items_centre_distinct : List.NoDup Sample2.items_centre.
Proof. distinct_layouts. Defined.

Lemma default_drops_front_witness :
  (ChNamesSize <= Sample.MP_SPEAKER_ID_COUNT
   /\ List.NoDup Sample2.items_centre
   /\ In Sample._2_0 Sample2.items_centre /\ In Sample2.centre_lfe Sample2.items_centre
   /\ Sample._2_0 <> Sample.Default /\ Sample2.centre_lfe <> Sample.Default
   /\ Sample2.centre_lfe <> Sample.Mono
   /\ (FrontRight = FrontLeft \/ FrontRight = FrontRight)
   /\ Speaker.present FrontRight Sample._2_0 = true
   /\ Speaker.present FrontRight Sample2.centre_lfe = false)
  /\ exists map man,
      CLM.default_ Sample.MP_SPEAKER_ID_COUNT Sample.Default Sample.Mono true
        Sample2.items_centre
      = Some map /\
      Derivation.lookup map Sample._2_0 Sample2.centre_lfe = Some man /\
      CLM.at_ Sample.MP_SPEAKER_ID_COUNT map Sample._2_0 Sample2.centre_lfe = man /\
      forall d : Z, ~ In (Speaker.to_mp_speaker_id FrontRight) (CM.sources man d).
Proof.
  assert (H1 : In Sample._2_0 Sample2.items_centre) by (cbv; tauto).
  assert (H2 : In Sample2.centre_lfe Sample2.items_centre) by (cbv; tauto).
  assert (H3 : Sample._2_0 <> Sample.Default) by (cbv; discriminate).
  assert (H4 : Sample2.centre_lfe <> Sample.Default) by (cbv; discriminate).
  assert (H5 : Sample2.centre_lfe <> Sample.Mono) by (cbv; discriminate).
  assert (H6 : FrontRight = FrontLeft \/ FrontRight = FrontRight)
    by (right; reflexivity).
  assert (H7 : Speaker.present FrontRight Sample._2_0 = true) by reflexivity.
  assert (H8 : Speaker.present FrontRight Sample2.centre_lfe = false) by reflexivity.
  split.
  - split; [exact Sample_COUNT_covers|].
    split; [exact Sample2_items_centre_distinct|]. repeat split; assumption.
  - exact (default_drops_front Sample.MP_SPEAKER_ID_COUNT Sample.Default Sample.Mono
             Sample2.items_centre Sample._2_0 Sample2.centre_lfe FrontRight
             Sample_COUNT_covers Sample2_items_centre_distinct
             H1 H2 H3 H4 H5 H6 H7 H8).
Defined.

Lemma Sample2_items_short_distinct : List.NoDup Sample2.items_short.
Proof. distinct_layouts. Defined.

Lemma Sample2_items_short_no_abort :
  Sample.QT_NO_DEBUG = true \/
  Derivation.stereo_based Sample.Default Sample.Mono Sample2.items_short.
Proof. right. stereo_based_layouts. Defined.

Lemma default_entry_independent_witness :
  (List.NoDup Sample.items /\ List.NoDup Sample2.items_short
   /\ (Sample.QT_NO_DEBUG = true \/
       Derivation.stereo_based Sample.Default Sample.Mono Sample.items)
   /\ (Sample.QT_NO_DEBUG = true \/
       Derivation.stereo_based Sample.Default Sample.Mono Sample2.items_short)
   /\ In Sample._5_1 Sample.items /\ In Sample._2_0 Sample.items
   /\ In Sample._5_1 Sample2.items_short /\ In Sample._2_0 Sample2.items_short
   /\ Sample._5_1 <> Sample.Default /\ Sample._2_0 <> Sample.Default)
  /\ exists map map',
      CLM.default_ Sample.MP_SPEAKER_ID_COUNT Sample.Default Sample.Mono
        Sample.QT_NO_DEBUG Sample.items = Some map /\
      CLM.default_ Sample.MP_SPEAKER_ID_COUNT Sample.Default Sample.Mono
        Sample.QT_NO_DEBUG Sample2.items_short = Some map' /\
      CLM.at_ Sample.MP_SPEAKER_ID_COUNT map Sample._5_1 Sample._2_0
      = CLM.at_ Sample.MP_SPEAKER_ID_COUNT map' Sample._5_1 Sample._2_0.
Proof.
  assert (H1 : In Sample._5_1 Sample.items) by (cbv; tauto).
  assert (H2 : In Sample._2_0 Sample.items) by (cbv; tauto).
  assert (H3 : In Sample._5_1 Sample2.items_short) by (cbv; tauto).
  assert (H4 : In Sample._2_0 Sample2.items_short) by (cbv; tauto).
  assert (H5 : Sample._5_1 <> Sample.Default) by (cbv; discriminate).
  assert (H6 : Sample._2_0 <> Sample.Default) by (cbv; discriminate).
  split.
  - split; [exact Sample_items_distinct|].
    split; [exact Sample2_items_short_distinct|].
    split; [exact Sample_items_no_abort|].
    split; [exact Sample2_items_short_no_abort|]. repeat split; assumption.
  - exact (default_entry_independent Sample.MP_SPEAKER_ID_COUNT Sample.Default
             Sample.Mono Sample.QT_NO_DEBUG Sample.items Sample2.items_short
             Sample._5_1 Sample._2_0 Sample_items_distinct Sample2_items_short_distinct
             Sample_items_no_abort Sample2_items_short_no_abort H1 H2 H3 H4 H5 H6).
Defined.

(** ** The order of the keys of a map *)

Section QMapInvariant.

Context {V : Type}.

Lemma QMap_insert_In (key : Z) (v : V) (m : QMap.t V) (x : Z * V) :
  In x (QMap.insert key v m) -> x = (key, v) \/ In x m.
Proof.
  induction m as [|[k w] m IH]; simpl.
  - intros [<-|[]]. left. reflexivity.
  - destruct (key <? k)%Z; [simpl; intuition auto|].
    destruct (key =? k)%Z; simpl; intuition auto.
Qed.

Lemma QMap_insert_ascending (key : Z) (v : V) (m : QMap.t V) :
  QMap.ascending m -> QMap.ascending (QMap.insert key v m).
Proof.
  induction m as [|[k w] m IH]; simpl.
  - intros _. split; [constructor|exact I].
  - intros [Hk Hm]. destruct (Z.ltb_spec key k) as [Hlt|Hge].
    + simpl. split; [|split; assumption].
      constructor; [simpl; exact Hlt|].
      eapply Forall_impl; [exact Hk|]. simpl. intros kv H. lia.
    + destruct (Z.eqb_spec key k) as [->|Hne]; simpl.
      * split; assumption.
      * split; [|exact (IH Hm)].
        apply List.Forall_forall. intros x Hx.
        apply QMap_insert_In in Hx as [->|Hx]; [simpl; lia|].
        exact (proj1 (List.Forall_forall _ _) Hk x Hx).
Qed.

Lemma QMap_find_In (key : Z) (v : V) (m : QMap.t V) :
  QMap.ascending m -> In (key, v) m -> QMap.find key m = Some v.
Proof.
  induction m as [|[k w] m IH]; simpl; [intros _ []|].
  intros [Hk Hm] [Heq|Hin].
  - injection Heq as -> ->. rewrite Z.eqb_refl. reflexivity.
  - pose proof (proj1 (List.Forall_forall _ _) Hk _ Hin) as Hlt. simpl in Hlt.
    rewrite (proj2 (Z.eqb_neq k key)) by lia. exact (IH Hm Hin).
Qed.

Lemma QMap_find_Some_In (key : Z) (v : V) (m : QMap.t V) :
  QMap.find key m = Some v -> In (key, v) m.
Proof.
  induction m as [|[k w] m IH]; simpl; [discriminate|].
  destruct (Z.eqb_spec k key) as [->|_].
  - intros H. injection H as ->. left. reflexivity.
  - intros H. right. exact (IH H).
Qed.

End QMapInvariant.

Lemma assign_ascending (map : ChannelLayoutMap) (src dst : Z) (man : ChannelManipulation) :
  Derivation.ascending map -> Derivation.ascending (CLM.assign map src dst man).
Proof.
  intros [Hrows Hinner]. unfold Derivation.ascending, CLM.assign. cbn [m_map].
  split; [apply QMap_insert_ascending, Hrows|].
  apply List.Forall_forall. intros x Hx.
  apply QMap_insert_In in Hx as [->|Hx].
  - cbn [snd]. apply QMap_insert_ascending. unfold QMap.value.
    match goal with
    | |- context [default [] ?o] => destruct o as [inner|] eqn:E
    end; [|exact I].
    apply QMap_find_Some_In in E.
    exact (proj1 (List.Forall_forall _ _) Hinner _ E).
  - exact (proj1 (List.Forall_forall _ _) Hinner x Hx).
Qed.

(** An entry met by the loops of [toString] is the one [operator()]
    reads. *)
Lemma entries_lookup (map : ChannelLayoutMap) (src dst : Z) (man : ChannelManipulation) :
  Derivation.ascending map ->
  In (src, dst, man) (CLM.entries map) ->
  Derivation.lookup map src dst = Some man.
Proof.
  intros [Hrows Hinner] Hin. unfold CLM.entries in Hin.
  apply in_flat_map in Hin as ([s inner] & Hrow & Hin).
  apply in_map_iff in Hin as ([d m] & Heq & Hin).
  injection Heq as -> -> ->. unfold Derivation.lookup.
  match goal with
  | |- match ?o with Some _ => _ | None => _ end = _ =>
      replace o with (Some inner)
        by (symmetry; exact (QMap_find_In src inner _ Hrows Hrow))
  end.
  apply QMap_find_In; [|exact Hin].
  exact (proj1 (List.Forall_forall _ _) Hinner _ Hrow).
Qed.

Lemma forLayouts_invariant (P : ChannelLayoutMap -> Prop) (items : list Z)
    (body : ChannelLayoutMap -> Z -> option ChannelLayoutMap) :
  (forall map item map', P map -> body map item = Some map' -> P map') ->
  forall map map', P map -> CLM.forLayouts items body map = Some map' -> P map'.
Proof.
  intros Hbody. induction items as [|item items IH]; intros map map' HP Hrun.
  - injection Hrun as <-. exact HP.
  - cbn [CLM.forLayouts] in Hrun.
    destruct (body map item) as [map1|] eqn:E; [|discriminate Hrun].
    exact (IH map1 map' (Hbody _ _ _ HP E) Hrun).
Qed.

(** [default_] keeps the keys of the two levels of the map in order. *)
Lemma default_ascending (MP_SPEAKER_ID_COUNT : nat) (Default Mono : Z)
    (QT_NO_DEBUG : bool) (items : list Z) (map : ChannelLayoutMap) :
  CLM.default_ MP_SPEAKER_ID_COUNT Default Mono QT_NO_DEBUG items = Some map ->
  Derivation.ascending map.
Proof.
  unfold CLM.default_.
  apply (forLayouts_invariant Derivation.ascending);
    [|split; [exact I|constructor]].
  intros m S m' Hm. unfold CLM.default_src.
  destruct (S =? Default)%Z; [intros H; injection H as <-; exact Hm|]. cbv zeta.
  apply (forLayouts_invariant Derivation.ascending); [|exact Hm].
  clear. intros m D m' Hm. unfold CLM.default_dst.
  destruct (D =? Default)%Z; [intros H; injection H as <-; exact Hm|]. cbv zeta.
  destruct (MixM.for_ _ _ _) as [[[] mix]|]; [|discriminate].
  intros H. injection H as <-. apply assign_ascending, Hm.
Qed.

(** ** The text of the map [default_] returns *)

Section DefaultText.

Variable MP_SPEAKER_ID_COUNT : nat.
Variable MP_SPEAKER_ID_NONE : Z.
Variables Default Mono : Z.
Variable QT_NO_DEBUG : bool.
Variable items : list Z.
Variable name : Z -> string.
Variable from : string -> Z.

Hypothesis COUNT_covers : ChNamesSize <= MP_SPEAKER_ID_COUNT.
Hypothesis NONE_outside : canonical MP_SPEAKER_ID_NONE = false.

Local Abbreviation usable :=
  (fun e : Z * Z * ChannelManipulation =>
     Derivation.named name from (fst (fst e)) /\
     Derivation.named name from (snd (fst e)) /\
     Derivation.storable MP_SPEAKER_ID_COUNT (snd e)).

Lemma entries_read_back (map : ChannelLayoutMap) :
  Derivation.ascending map ->
  Forall usable (CLM.entries map) ->
  CLM.entries
    (CLM.fromString MP_SPEAKER_ID_COUNT MP_SPEAKER_ID_NONE from
                    (CLM.toString name map))
  = CLM.entries map.
Proof.
  intros Hasc Hentries. unfold CLM.fromString.
  rewrite toString_records, splitSkipEmpty_join.
  - rewrite (fromString_body_records _ _ _ _ COUNT_covers NONE_outside _ Hentries).
    apply store_entries, Hasc.
  - apply Forall_map. eapply Forall_impl; [exact Hentries|].
    intros e (Hs & Hd & Hman).
    apply (record_clean _ MP_SPEAKER_ID_NONE _ _ e Hs Hd Hman).
  - apply Forall_map. eapply Forall_impl; [exact Hentries|].
    intros e (Hs & Hd & Hman).
    apply (record_clean _ MP_SPEAKER_ID_NONE _ _ e Hs Hd Hman).
Qed.

(** The map of [default_] is read back from its text with all its
    entries, when no layout of the table is repeated, every layout other
    than Default and Mono has FrontLeft and FrontRight, and every layout
    other than Default has a usable name and at least one of the eleven
    speakers. *)
Theorem default_text_round_trip :
  List.NoDup items ->
  Derivation.stereo_based Default Mono items ->
  (forall layout : Z,
      In layout items -> layout <> Default ->
      Derivation.named name from layout /\ Speaker.speakersInLayout layout <> []) ->
  exists map,
    CLM.default_ MP_SPEAKER_ID_COUNT Default Mono QT_NO_DEBUG items = Some map /\
    CLM.entries
      (CLM.fromString MP_SPEAKER_ID_COUNT MP_SPEAKER_ID_NONE from
                      (CLM.toString name map))
    = CLM.entries map.
Proof.
  intros Hnodup Hstereo Hlayouts.
  destruct (default_total MP_SPEAKER_ID_COUNT Default Mono QT_NO_DEBUG items
              (or_intror Hstereo)) as [map Hmap].
  exists map. split; [exact Hmap|].
  pose proof (default_ascending _ _ _ _ _ _ Hmap) as Hasc.
  apply entries_read_back; [exact Hasc|].
  apply List.Forall_forall. intros [[S D] man] Hin. cbn [fst snd].
  apply (entries_lookup _ _ _ _ Hasc) in Hin.
  destruct (default_stored_inv MP_SPEAKER_ID_COUNT Default Mono QT_NO_DEBUG items
              Hnodup map S D man Hmap Hin) as [(HS & HD & HSd & HDd) Hrun].
  destruct (Hlayouts S HS HSd) as [HnameS HspeakersS].
  destruct (Hlayouts D HD HDd) as [HnameD _].
  split; [exact HnameS|]. split; [exact HnameD|].
  destruct man as [mix]. cbn [m_mix] in Hrun.
  destruct (derive_shape _ _ _ COUNT_covers S D mix Hrun) as (Hlen & Hdst & Hsrc & _).
  split; [exact Hlen|]. split; [exact Hdst|]. split; [exact Hsrc|].
  intros Hempty.
  destruct (Speaker.speakersInLayout S) as [|s l] eqn:Hs; [congruence|].
  assert (HsS : Speaker.present s S = true).
  { apply In_speakersInLayout. rewrite Hs. left. reflexivity. }
  assert (Hshape : D = Mono \/
                   (Speaker.present FrontLeft D = true /\
                    Speaker.present FrontRight D = true)).
  { unfold Derivation.stereo_based in Hstereo.
    rewrite List.Forall_forall in Hstereo.
    destruct (Hstereo D HD) as [?|[?|?]]; [contradiction|left|right]; assumption. }
  destruct (contribution_somewhere MP_SPEAKER_ID_COUNT Mono QT_NO_DEBUG COUNT_covers
              D s Hshape) as [d Hd].
  apply (derive_contributes _ _ _ COUNT_covers _ _ _ _ _ Hrun HsS) in Hd.
  rewrite Hempty, sources_empty in Hd. destruct Hd.
Qed.

End DefaultText.

Lemma Sample_items_stereo_based :
  Derivation.stereo_based Sample.Default Sample.Mono Sample.items.
Proof. stereo_based_layouts. Defined.

Lemma Sample_items_named (layout : Z) :
  In layout Sample.items -> layout <> Sample.Default ->
  Derivation.named Sample.name Sample.from layout
  /\ Speaker.speakersInLayout layout <> [].
Proof.
  intros Hin Hne. unfold Sample.items in Hin. simpl in Hin.
  repeat (destruct Hin as [<-|Hin]; [try congruence|]); [..|destruct Hin].
  all: split; [repeat split; reflexivity|cbv; discriminate].
Defined.

Lemma default_text_round_trip_witness :
  (ChNamesSize <= Sample.MP_SPEAKER_ID_COUNT
   /\ canonical Sample.MP_SPEAKER_ID_NONE = false
   /\ List.NoDup Sample.items
   /\ Derivation.stereo_based Sample.Default Sample.Mono Sample.items
   /\ (forall layout : Z,
          In layout Sample.items -> layout <> Sample.Default ->
          Derivation.named Sample.name Sample.from layout
          /\ Speaker.speakersInLayout layout <> []))
  /\ exists map,
      CLM.default_ Sample.MP_SPEAKER_ID_COUNT Sample.Default Sample.Mono
        Sample.QT_NO_DEBUG Sample.items = Some map /\
      CLM.entries
        (CLM.fromString Sample.MP_SPEAKER_ID_COUNT Sample.MP_SPEAKER_ID_NONE
           Sample.from (CLM.toString Sample.name map))
      = CLM.entries map.
Proof.
  assert (H2 : canonical Sample.MP_SPEAKER_ID_NONE = false) by reflexivity.
  split.
  - split; [exact Sample_COUNT_covers|]. split; [exact H2|].
    split; [exact Sample_items_distinct|].
    split; [exact Sample_items_stereo_based|exact Sample_items_named].
  - exact (default_text_round_trip Sample.MP_SPEAKER_ID_COUNT Sample.MP_SPEAKER_ID_NONE
             Sample.Default Sample.Mono Sample.QT_NO_DEBUG Sample.items
             Sample.name Sample.from Sample_COUNT_covers H2 Sample_items_distinct
             Sample_items_stereo_based Sample_items_named).
Defined.

(** ** Reading the text of a map *)

Section MapParse.

Variable MP_SPEAKER_ID_COUNT : nat.
Variable MP_SPEAKER_ID_NONE : Z.
Variable from : string -> Z.

Local Abbreviation fromString_body :=
  (CLM.fromString_body MP_SPEAKER_ID_COUNT MP_SPEAKER_ID_NONE from).
Local Abbreviation fromString :=
  (CLM.fromString MP_SPEAKER_ID_COUNT MP_SPEAKER_ID_NONE from).
Local Abbreviation at_ := (CLM.at_ MP_SPEAKER_ID_COUNT).

(** One record either leaves the map alone or assigns one entry. *)
Lemma map_fromString_body_cases (map : ChannelLayoutMap) (one : string) :
  fromString_body map one = map \/
  exists a b c : string,
    splitSkipEmpty ":" one = [a; b; c] /\
    fromString_body map one
    = CLM.assign map (from a) (from b)
        (CM.fromString MP_SPEAKER_ID_COUNT MP_SPEAKER_ID_NONE c).
Proof.
  unfold CLM.fromString_body.
  destruct (splitSkipEmpty ":" one) as [|a [|b [|c [|? ?]]]];
    try (left; reflexivity).
  right. exists a, b, c. split; reflexivity.
Qed.

(** The last record of a pair of layouts decides its entry: when the
    records of the text are [pre], [rec] and [post], [rec] has the three
    fields [a], [b] and [c], and no record of [post] with three fields
    names the same two layouts, then the entry of the layouts of [a] and
    [b] is what [ChannelManipulation::fromString] reads from [c]. *)
Theorem map_fromString_last_record (text : string) (pre post : list string)
    (rec a b c : string) :
  splitSkipEmpty "#" text = pre ++ rec :: post ->
  splitSkipEmpty ":" rec = [a; b; c] ->
  (forall r a' b' c' : string,
      In r post ->
      splitSkipEmpty ":" r = [a'; b'; c'] ->
      ~ (from a' = from a /\ from b' = from b)) ->
  at_ (fromString text) (from a) (from b)
  = CM.fromString MP_SPEAKER_ID_COUNT MP_SPEAKER_ID_NONE c.
Proof.
  intros Htext Hrec Hpost. unfold CLM.fromString.
  rewrite Htext, foldl_app. cbn [foldl].
  set (map1 := foldl fromString_body (mkChannelLayoutMap []) pre).
  assert (Hkeep : forall (l : list string) (m : ChannelLayoutMap),
             (forall r, In r l -> In r post) ->
             Derivation.lookup (foldl fromString_body m l) (from a) (from b)
             = Derivation.lookup m (from a) (from b)).
  { induction l as [|r l IH]; intros m Hl; [reflexivity|].
    cbn [foldl]. rewrite IH by (intros o Ho; apply Hl; right; exact Ho).
    destruct (map_fromString_body_cases m r) as [->|(a' & b' & c' & Hr & ->)];
      [reflexivity|].
    rewrite lookup_assign.
    destruct (decide (from a = from a' /\ from b = from b')) as [[H1 H2]|_];
      [|reflexivity].
    exfalso. apply (Hpost r a' b' c' (Hl r (or_introl eq_refl)) Hr). auto. }
  rewrite at_lookup, Hkeep by auto.
  unfold CLM.fromString_body at 1. rewrite Hrec. cbv zeta.
  rewrite lookup_assign.
  destruct (decide (from a = from a /\ from b = from b)) as [_|H]; [reflexivity|].
  exfalso. apply H. auto.
Qed.

(** Whatever the text of a map, every entry read through [operator()],
    stored or not, fills an array of [MP_SPEAKER_ID_COUNT] slots, sets
    canonical destinations only and lists canonical speakers only. *)
Theorem map_fromString_canonical (text : string) (S D : Z) :
  length (m_mix (at_ (fromString text) S D)) = MP_SPEAKER_ID_COUNT /\
  destinations_canonical (at_ (fromString text) S D) /\
  sources_canonical (at_ (fromString text) S D).
Proof.
  set (P := fun man : ChannelManipulation =>
              length (m_mix man) = MP_SPEAKER_ID_COUNT /\
              destinations_canonical man /\ sources_canonical man).
  assert (Hinv : forall (l : list string) (m : ChannelLayoutMap),
             (forall s d man, Derivation.lookup m s d = Some man -> P man) ->
             forall s d man,
               Derivation.lookup (foldl fromString_body m l) s d = Some man -> P man).
  { induction l as [|r l IH]; intros m Hm; [exact Hm|].
    cbn [foldl]. apply (IH (fromString_body m r)).
    destruct (map_fromString_body_cases m r) as [->|(a & b & c & _ & ->)];
      [exact Hm|].
    intros s d man. rewrite lookup_assign.
    destruct (decide (s = from a /\ d = from b)) as [_|_]; [|apply Hm].
    intros H. injection H as <-. apply fromString_invariant. }
  change (P (at_ (fromString text) S D)). rewrite at_lookup.
  destruct (Derivation.lookup (fromString text) S D) as [man|] eqn:E.
  - apply (Hinv (splitSkipEmpty "#" text) (mkChannelLayoutMap [])
                (fun s d man' H => ltac:(discriminate H)) S D man E).
  - apply empty_canonical.
Qed.

End MapParse.

Lemma map_fromString_last_record_witness :
  (splitSkipEmpty "#" "_2_0:Mono:FL!FL#bad##_2_0:Mono:FC!FL/FR#_5_1:_2_0:FL!BL"
   = ["_2_0:Mono:FL!FL"; "bad"] ++ "_2_0:Mono:FC!FL/FR" :: ["_5_1:_2_0:FL!BL"]
   /\ splitSkipEmpty ":" "_2_0:Mono:FC!FL/FR" = ["_2_0"; "Mono"; "FC!FL/FR"]
   /\ (forall r a' b' c' : string,
          In r ["_5_1:_2_0:FL!BL"] ->
          splitSkipEmpty ":" r = [a'; b'; c'] ->
          ~ (Sample.from a' = Sample.from "_2_0"
             /\ Sample.from b' = Sample.from "Mono")))
  /\ CLM.at_ Sample.MP_SPEAKER_ID_COUNT
       (CLM.fromString Sample.MP_SPEAKER_ID_COUNT Sample.MP_SPEAKER_ID_NONE Sample.from
          "_2_0:Mono:FL!FL#bad##_2_0:Mono:FC!FL/FR#_5_1:_2_0:FL!BL")
       (Sample.from "_2_0") (Sample.from "Mono")
     = CM.fromString Sample.MP_SPEAKER_ID_COUNT Sample.MP_SPEAKER_ID_NONE "FC!FL/FR".
Proof.
  assert (H1 : splitSkipEmpty "#"
                 "_2_0:Mono:FL!FL#bad##_2_0:Mono:FC!FL/FR#_5_1:_2_0:FL!BL"
               = ["_2_0:Mono:FL!FL"; "bad"] ++ "_2_0:Mono:FC!FL/FR"
                 :: ["_5_1:_2_0:FL!BL"]) by reflexivity.
  assert (H2 : splitSkipEmpty ":" "_2_0:Mono:FC!FL/FR" = ["_2_0"; "Mono"; "FC!FL/FR"])
    by reflexivity.
  assert (H3 : forall r a' b' c' : string,
             In r ["_5_1:_2_0:FL!BL"] ->
             splitSkipEmpty ":" r = [a'; b'; c'] ->
             ~ (Sample.from a' = Sample.from "_2_0"
                /\ Sample.from b' = Sample.from "Mono")).
  { intros r a' b' c' [<-|[]] Hsplit. injection Hsplit as <- <- <-.
    intros [H _]. vm_compute in H. discriminate H. }
  split; [repeat split; assumption|].
  exact (map_fromString_last_record Sample.MP_SPEAKER_ID_COUNT Sample.MP_SPEAKER_ID_NONE
           Sample.from "_2_0:Mono:FL!FL#bad##_2_0:Mono:FC!FL/FR#_5_1:_2_0:FL!BL"
           ["_2_0:Mono:FL!FL"; "bad"] ["_5_1:_2_0:FL!BL"] "_2_0:Mono:FC!FL/FR"
           "_2_0" "Mono" "FC!FL/FR" H1 H2 H3).
Defined.

(** ** The table of the widget and the map *)

Section WidgetFacts.

Variable MP_SPEAKER_ID_COUNT : nat.
Variable QT_NO_DEBUG : bool.
Variable chmap_from_layout : Z -> mp_chmap.
Variable mp_chmap_reorder_norm : mp_chmap -> mp_chmap.

Local Abbreviation at_ := (CLM.at_ MP_SPEAKER_ID_COUNT).
Local Abbreviation touch := (Widget.touch MP_SPEAKER_ID_COUNT).
Local Abbreviation makeTable_cell := (Widget.makeTable_cell MP_SPEAKER_ID_COUNT).
Local Abbreviation makeTable_row := (Widget.makeTable_row MP_SPEAKER_ID_COUNT).
Local Abbreviation makeTable :=
  (Widget.makeTable MP_SPEAKER_ID_COUNT QT_NO_DEBUG chmap_from_layout
                    mp_chmap_reorder_norm).
Local Abbreviation fillMap :=
  (Widget.fillMap MP_SPEAKER_ID_COUNT chmap_from_layout mp_chmap_reorder_norm).
Local Abbreviation norm layout := (mp_chmap_reorder_norm (chmap_from_layout layout)).

Lemma assign_at (m : ChannelLayoutMap) (s d S D : Z) (man : ChannelManipulation) :
  at_ (CLM.assign m s d man) S D
  = if decide (S = s /\ D = d) then man else at_ m S D.
Proof.
  rewrite !at_lookup, lookup_assign.
  destruct (decide (S = s /\ D = d)); reflexivity.
Qed.

(** Creating the entry that is read changes no reading. *)
Lemma touch_at (m : ChannelLayoutMap) (s d S D : Z) :
  at_ (touch m s d) S D = at_ m S D.
Proof.
  unfold Widget.touch. rewrite assign_at.
  destruct (decide (S = s /\ D = d)) as [[-> ->]|_]; reflexivity.
Qed.

(** The cells of one row after the inner loop of [makeTable]. *)
Lemma makeTable_cells_spec (input output : Z) (src dest : mp_chmap) (i n : nat)
    (t : QTableWidget) (m : ChannelLayoutMap) :
  let st := foldl (makeTable_cell input output src dest i) (t, m) (seq 0 n) in
  rowCount (fst st) = rowCount t /\
  columnCount (fst st) = columnCount t /\
  (forall S D, at_ (snd st) S D = at_ m S D) /\
  (forall i' j',
      cells (fst st) i' j'
      = if (i' =? i)%nat && (j' <? n)%nat
        then Some (Widget.shown (at_ m input output) src dest i j')
        else cells t i' j').
Proof.
  induction n as [|n IH]; cbv zeta.
  - cbn [seq foldl fst snd]. repeat split; try reflexivity.
    intros i' j'. rewrite andb_false_r. reflexivity.
  - rewrite seq_S, foldl_app. cbn [foldl plus].
    destruct IH as (Hr & Hc & Hat & Hcells).
    set (st := foldl (makeTable_cell input output src dest i) (t, m) (seq 0 n)) in *.
    unfold Widget.makeTable_cell. cbn [fst snd Table.setCheckState rowCount columnCount cells].
    split; [exact Hr|]. split; [exact Hc|]. split.
    + intros S D. rewrite touch_at. apply Hat.
    + intros i' j'. rewrite touch_at, Hat, Hcells.
      destruct (Nat.eqb_spec i' i) as [->|Hi]; cbn [andb]; [|reflexivity].
      destruct (Nat.eqb_spec j' n) as [->|Hj].
      * rewrite (proj2 (Nat.ltb_lt n (S n))) by lia. reflexivity.
      * destruct (Nat.ltb_spec j' n); destruct (Nat.ltb_spec j' (S n));
          first [reflexivity|lia].
Qed.

(** The cells after the two loops of [makeTable]. *)
Lemma makeTable_rows_spec (input output : Z) (src dest : mp_chmap) (r : nat)
    (t : QTableWidget) (m : ChannelLayoutMap) :
  let st := foldl (makeTable_row input output src dest) (t, m) (seq 0 r) in
  rowCount (fst st) = rowCount t /\
  columnCount (fst st) = columnCount t /\
  (forall S D, at_ (snd st) S D = at_ m S D) /\
  (forall i' j',
      cells (fst st) i' j'
      = if (i' <? r)%nat && (j' <? columnCount t)%nat
        then Some (Widget.shown (at_ m input output) src dest i' j')
        else cells t i' j').
Proof.
  induction r as [|r IH]; cbv zeta.
  - cbn [seq foldl fst snd]. repeat split; reflexivity.
  - rewrite seq_S, foldl_app. cbn [foldl plus].
    destruct IH as (Hr & Hc & Hat & Hcells).
    set (st := foldl (makeTable_row input output src dest) (t, m) (seq 0 r)) in *.
    unfold Widget.makeTable_row.
    destruct (makeTable_cells_spec input output src dest r (columnCount (fst st))
                (fst st) (snd st)) as (Hr' & Hc' & Hat' & Hcells').
    rewrite <- surjective_pairing in Hr', Hc', Hat', Hcells'.
    split; [congruence|]. split; [congruence|]. split.
    + intros S D. rewrite Hat'. apply Hat.
    + intros i' j'. rewrite Hcells', Hat, Hcells, Hc.
      destruct (Nat.eqb_spec i' r) as [->|Hi]; cbn [andb].
      * rewrite (proj2 (Nat.ltb_lt r (S r))) by lia.
        rewrite Nat.ltb_irrefl. reflexivity.
      * destruct (Nat.ltb_spec i' r); destruct (Nat.ltb_spec i' (S r));
          first [reflexivity|lia].
Qed.

Lemma makeHeader_loop_total (chmap : mp_chmap) (indices : list nat) (header : list string) :
  (forall i, In i indices -> canonical (Resolve.speaker_at chmap i) = true) ->
  exists labels,
    Widget.makeHeader_loop QT_NO_DEBUG chmap indices header = Some labels
    /\ length labels = length header + length indices.
Proof.
  revert header. induction indices as [|i indices IH]; intros header Hall.
  - exists header. split; [reflexivity|simpl; lia].
  - cbn [Widget.makeHeader_loop]. cbv zeta.
    rewrite (Hall i (or_introl eq_refl)), orb_true_r.
    destruct (IH (header ++ [ChNames_abbr (Resolve.speaker_at chmap i)]))
      as (labels & Hrun & Hlen); [intros k Hk; apply Hall; right; exact Hk|].
    exists labels. split; [exact Hrun|].
    rewrite Hlen, length_app. simpl. lia.
Qed.

Lemma makeHeader_total (layout : Z) :
  (forall i, i < num (chmap_from_layout layout) ->
             canonical (Resolve.speaker_at (chmap_from_layout layout) i) = true) ->
  exists labels,
    Widget.makeHeader QT_NO_DEBUG chmap_from_layout layout
    = Some (labels, chmap_from_layout layout)
    /\ length labels = num (chmap_from_layout layout).
Proof.
  intros Hall. unfold Widget.makeHeader. cbv zeta.
  destruct (makeHeader_loop_total (chmap_from_layout layout)
              (seq 0 (num (chmap_from_layout layout))) [])
    as (labels & -> & Hlen).
  - intros i Hi. apply Hall. apply in_seq in Hi. lia.
  - exists labels. split; [reflexivity|]. rewrite Hlen, length_seq. reflexivity.
Qed.

(** [makeTable] on two regular layouts: the table gets one row for each
    channel of the output layout and one column for each channel of the
    input layout, every cell gets an item, checked exactly when the entry
    of the two layouts lists the speaker of the column among the sources
    of the speaker of the row, and no reading of the map changes. *)
Lemma makeTable_spec (d : Widget.Data) :
  Widget.regular chmap_from_layout mp_chmap_reorder_norm (Widget.input d) ->
  Widget.regular chmap_from_layout mp_chmap_reorder_norm (Widget.output d) ->
  exists d',
    makeTable d = Some d' /\
    Widget.input d' = Widget.input d /\
    Widget.output d' = Widget.output d /\
    Widget.currentInput d' = Widget.input d /\
    Widget.currentOutput d' = Widget.output d /\
    rowCount (Widget.table d') = num (chmap_from_layout (Widget.output d)) /\
    columnCount (Widget.table d') = num (chmap_from_layout (Widget.input d)) /\
    (forall S D, at_ (Widget.map d') S D = at_ (Widget.map d) S D) /\
    (forall i j,
        i < num (chmap_from_layout (Widget.output d)) ->
        j < num (chmap_from_layout (Widget.input d)) ->
        Table.item (Widget.table d') i j
        = Some (Widget.shown (at_ (Widget.map d) (Widget.input d) (Widget.output d))
                             (norm (Widget.input d)) (norm (Widget.output d)) i j)).
Proof.
  intros (_ & Hin & _) (_ & Hout & _).
  destruct (makeHeader_total (Widget.output d) Hout) as (vlabels & Hv & Hvlen).
  destruct (makeHeader_total (Widget.input d) Hin) as (hlabels & Hh & Hhlen).
  unfold Widget.makeTable. cbv zeta. rewrite Hv, Hh.
  eexists. split; [reflexivity|]. cbn [Widget.input Widget.output Widget.currentInput
    Widget.currentOutput Widget.table Widget.map].
  match goal with
  | |- context [foldl ?f (?t, ?m) (seq 0 ?r)] =>
      destruct (makeTable_rows_spec (Widget.input d) (Widget.output d)
                  (norm (Widget.input d)) (norm (Widget.output d)) r t m)
        as (Hr & Hc & Hat & Hcells);
      set (st := foldl f (t, m) (seq 0 r)) in *
  end.
  cbn [Table.setHorizontalHeaderLabels Table.setColumnCount
       Table.setVerticalHeaderLabels Table.setRowCount rowCount columnCount] in *.
  repeat (split; [reflexivity|]).
  split; [congruence|]. split; [congruence|]. split; [exact Hat|].
  intros i j Hi Hj. unfold Table.item. rewrite Hr, Hc, Hcells, Hvlen, Hhlen.
  rewrite (proj2 (Nat.ltb_lt _ _) Hi), (proj2 (Nat.ltb_lt _ _) Hj). reflexivity.
Qed.

(** The sources [fillMap] reads from a row: the speakers of the checked
    columns, from left to right. *)
Lemma fillMap_sources_filter (t : QTableWidget) (src : mp_chmap) (i : nat) :
  Widget.fillMap_sources t src i
  = List.map (Resolve.speaker_at src)
      (List.filter (fun j => Widget.checked (Table.item t i j))
                   (seq 0 (columnCount t))).
Proof.
  unfold Widget.fillMap_sources.
  assert (H : forall (l : list nat) (acc : list Z),
             foldl (fun sources j =>
                      match Table.item t i j with
                      | None => sources
                      | Some state =>
                          match state with
                          | Checked => sources ++ [Resolve.speaker_at src j]
                          | _ => sources
                          end
                      end) acc l
             = acc ++ List.map (Resolve.speaker_at src)
                        (List.filter (fun j => Widget.checked (Table.item t i j)) l)).
  { induction l as [|j l IH]; intros acc; cbn [foldl List.filter List.map].
    - symmetry. apply app_nil_r.
    - rewrite IH. unfold Widget.checked at 2.
      destruct (Table.item t i j) as [[]|]; cbn [List.map];
        rewrite <- ?app_assoc; reflexivity. }
  apply (H _ []).
Qed.

(** Reading the speaker of a column in these sources answers whether the
    column is checked. *)
Lemma contains_checked (t : QTableWidget) (src : mp_chmap) (i j : nat) :
  (forall a b, a < columnCount t -> b < columnCount t ->
               Resolve.speaker_at src a = Resolve.speaker_at src b -> a = b) ->
  j < columnCount t ->
  Widget.contains (Widget.fillMap_sources t src i) (Resolve.speaker_at src j)
  = Widget.checked (Table.item t i j).
Proof.
  intros Hinj Hj. rewrite fillMap_sources_filter. unfold Widget.contains.
  apply eq_true_iff_eq. rewrite existsb_exists. split.
  - intros (x & Hx & Heq). apply Z.eqb_eq in Heq.
    apply in_map_iff in Hx as (k & Hk & Hin).
    apply filter_In in Hin as [Hin Hchecked]. apply in_seq in Hin.
    assert (k = j) as <- by (apply Hinj; [lia|exact Hj|congruence]).
    exact Hchecked.
  - intros Hchecked. exists (Resolve.speaker_at src j). split; [|apply Z.eqb_refl].
    apply in_map. apply filter_In. split; [apply in_seq; lia|exact Hchecked].
Qed.

(** The outer loop of [fillMap]: every row sets the sources of its
    speaker, and nothing else is set. *)
Lemma fillMap_rows_spec (dst_at : nat -> Z) (srcs : nat -> list Z) (r : nat)
    (man : ChannelManipulation) :
  ChNamesSize <= MP_SPEAKER_ID_COUNT ->
  length (m_mix man) = MP_SPEAKER_ID_COUNT ->
  (forall i, i < r -> canonical (dst_at i) = true) ->
  (forall a b, a < r -> b < r -> dst_at a = dst_at b -> a = b) ->
  let man' := foldl (fun man i => CM.set (dst_at i) (srcs i) man) man (seq 0 r) in
  length (m_mix man') = MP_SPEAKER_ID_COUNT /\
  (forall i, i < r -> CM.sources man' (dst_at i) = srcs i) /\
  (forall d, (forall i, i < r -> dst_at i <> d) -> CM.sources man' d = CM.sources man d).
Proof.
  intros HCOUNT Hlen. induction r as [|r IH]; intros Hcanon Hinj; cbv zeta.
  - cbn [seq foldl]. split; [exact Hlen|]. split; [intros i Hi; lia|reflexivity].
  - rewrite seq_S, foldl_app. cbn [foldl plus].
    destruct IH as (Hlen' & Hrows & Hrest);
      [intros i Hi; apply Hcanon; lia|intros a b Ha Hb; apply Hinj; lia|].
    set (man' := foldl (fun man i => CM.set (dst_at i) (srcs i) man) man (seq 0 r)) in *.
    assert (Hrange : (0 <= dst_at r <= 10)%Z).
    { pose proof (Hcanon r ltac:(lia)) as H.
      unfold canonical, MP_SPEAKER_ID_FL, MP_SPEAKER_ID_SR in H.
      apply andb_true_iff in H as [H1 H2].
      apply Z.leb_le in H1. apply Z.leb_le in H2. lia. }
    split; [|split].
    + unfold CM.set.
      replace (dst_at r <? 0)%Z with false by (symmetry; apply Z.ltb_ge; lia).
      cbn [m_mix]. rewrite length_insert. exact Hlen'.
    + intros i Hi. destruct (Nat.eq_dec i r) as [->|Hne].
      * apply sources_set_eq; [lia|]. unfold ChNamesSize in HCOUNT. lia.
      * rewrite sources_set_ne; [apply Hrows; lia|].
        intros Heq. apply Hne. apply Hinj; [lia|lia|exact Heq].
    + intros d Hd. rewrite sources_set_ne.
      * apply Hrest. intros i Hi. apply Hd. lia.
      * intros Heq. apply (Hd r); [lia|congruence].
Qed.

Lemma fillMap_spec (d : Widget.Data) :
  ChNamesSize <= MP_SPEAKER_ID_COUNT ->
  length (m_mix (at_ (Widget.map d) (Widget.currentInput d) (Widget.currentOutput d)))
  = MP_SPEAKER_ID_COUNT ->
  (forall i, i < rowCount (Widget.table d) ->
             canonical (Resolve.speaker_at (norm (Widget.currentOutput d)) i) = true) ->
  (forall a b, a < rowCount (Widget.table d) -> b < rowCount (Widget.table d) ->
               Resolve.speaker_at (norm (Widget.currentOutput d)) a
               = Resolve.speaker_at (norm (Widget.currentOutput d)) b -> a = b) ->
  Widget.table (fillMap d) = Widget.table d /\
  Widget.input (fillMap d) = Widget.input d /\
  Widget.output (fillMap d) = Widget.output d /\
  Widget.currentInput (fillMap d) = Widget.currentInput d /\
  Widget.currentOutput (fillMap d) = Widget.currentOutput d /\
  (forall S D, ~ (S = Widget.currentInput d /\ D = Widget.currentOutput d) ->
               at_ (Widget.map (fillMap d)) S D = at_ (Widget.map d) S D) /\
  length (m_mix (at_ (Widget.map (fillMap d))
                     (Widget.currentInput d) (Widget.currentOutput d)))
  = MP_SPEAKER_ID_COUNT /\
  (rowCount (Widget.table d) <> 0 -> columnCount (Widget.table d) <> 0 ->
   forall i, i < rowCount (Widget.table d) ->
             CM.sources (at_ (Widget.map (fillMap d))
                             (Widget.currentInput d) (Widget.currentOutput d))
                        (Resolve.speaker_at (norm (Widget.currentOutput d)) i)
             = Widget.fillMap_sources (Widget.table d) (norm (Widget.currentInput d)) i) /\
  (forall dest,
      (forall i, i < rowCount (Widget.table d) ->
                 Resolve.speaker_at (norm (Widget.currentOutput d)) i <> dest) ->
      CM.sources (at_ (Widget.map (fillMap d))
                      (Widget.currentInput d) (Widget.currentOutput d)) dest
      = CM.sources (at_ (Widget.map d)
                        (Widget.currentInput d) (Widget.currentOutput d)) dest).
Proof.
  intros HCOUNT Hlen Hcanon Hinj. unfold Widget.fillMap.
  destruct (Nat.eqb_spec (rowCount (Widget.table d)) 0) as [Hr|Hr]; cbn [orb].
  { repeat (split; [reflexivity|]). split; [exact Hlen|].
    split; [intros H; contradiction|reflexivity]. }
  destruct (Nat.eqb_spec (columnCount (Widget.table d)) 0) as [Hc|Hc].
  { repeat (split; [reflexivity|]). split; [exact Hlen|].
    split; [intros _ H; contradiction|reflexivity]. }
  cbv zeta. cbn [Widget.table Widget.input Widget.output Widget.currentInput
                 Widget.currentOutput Widget.map].
  destruct (fillMap_rows_spec
              (Resolve.speaker_at (norm (Widget.currentOutput d)))
              (Widget.fillMap_sources (Widget.table d) (norm (Widget.currentInput d)))
              (rowCount (Widget.table d))
              (at_ (touch (Widget.map d) (Widget.currentInput d) (Widget.currentOutput d))
                   (Widget.currentInput d) (Widget.currentOutput d)))
    as (Hlen' & Hrows & Hrest); try assumption.
  { rewrite touch_at. exact Hlen. }
  repeat (split; [reflexivity|]).
  split.
  { intros S D Hne. rewrite assign_at.
    destruct (decide (S = Widget.currentInput d /\ D = Widget.currentOutput d));
      [contradiction|]. apply touch_at. }
  rewrite assign_at.
  destruct (decide (Widget.currentInput d = Widget.currentInput d
                    /\ Widget.currentOutput d = Widget.currentOutput d)) as [_|H];
    [|exfalso; apply H; auto].
  split; [exact Hlen'|]. split; [intros _ _; exact Hrows|].
  intros dest Hdest. rewrite (Hrest dest Hdest), touch_at. reflexivity.
Qed.

Lemma checked_shown (man : ChannelManipulation) (src dest : mp_chmap) (i j : nat) :
  Widget.checked (Some (Widget.shown man src dest i j))
  = Widget.contains (CM.sources man (Resolve.speaker_at dest i))
                    (Resolve.speaker_at src j).
Proof. unfold Widget.shown. destruct (Widget.contains _ _); reflexivity. Qed.

Lemma shown_checked (man : ChannelManipulation) (src dest : mp_chmap) (i j : nat) :
  Widget.shown man src dest i j
  = if Widget.checked (Some (Widget.shown man src dest i j)) then Checked
    else Unchecked.
Proof. unfold Widget.shown. destruct (Widget.contains _ _); reflexivity. Qed.

(** [fillMap] writes the table into the entry of the two current layouts
    and nowhere else: the speaker of each row gets, as its sources, the
    speakers of the checked columns from left to right; the other
    destinations of that entry and the other entries keep theirs; the
    table is left as it is. *)
Theorem fillMap_stores_rows (d : Widget.Data) :
  ChNamesSize <= MP_SPEAKER_ID_COUNT ->
  length (m_mix (at_ (Widget.map d) (Widget.currentInput d) (Widget.currentOutput d)))
  = MP_SPEAKER_ID_COUNT ->
  rowCount (Widget.table d) <> 0 ->
  columnCount (Widget.table d) <> 0 ->
  (forall i, i < rowCount (Widget.table d) ->
             canonical (Resolve.speaker_at (norm (Widget.currentOutput d)) i) = true) ->
  (forall a b, a < rowCount (Widget.table d) -> b < rowCount (Widget.table d) ->
               Resolve.speaker_at (norm (Widget.currentOutput d)) a
               = Resolve.speaker_at (norm (Widget.currentOutput d)) b -> a = b) ->
  Widget.table (fillMap d) = Widget.table d /\
  (forall i, i < rowCount (Widget.table d) ->
             CM.sources (at_ (Widget.map (fillMap d))
                             (Widget.currentInput d) (Widget.currentOutput d))
                        (Resolve.speaker_at (norm (Widget.currentOutput d)) i)
             = List.map (Resolve.speaker_at (norm (Widget.currentInput d)))
                 (List.filter
                    (fun j => Widget.checked (Table.item (Widget.table d) i j))
                    (seq 0 (columnCount (Widget.table d))))) /\
  (forall dest,
      (forall i, i < rowCount (Widget.table d) ->
                 Resolve.speaker_at (norm (Widget.currentOutput d)) i <> dest) ->
      CM.sources (at_ (Widget.map (fillMap d))
                      (Widget.currentInput d) (Widget.currentOutput d)) dest
      = CM.sources (at_ (Widget.map d)
                        (Widget.currentInput d) (Widget.currentOutput d)) dest) /\
  (forall S D, ~ (S = Widget.currentInput d /\ D = Widget.currentOutput d) ->
               at_ (Widget.map (fillMap d)) S D = at_ (Widget.map d) S D).
Proof.
  intros HCOUNT Hlen Hr Hc Hcanon Hinj.
  destruct (fillMap_spec d HCOUNT Hlen Hcanon Hinj)
    as (Ht & _ & _ & _ & _ & Hother & _ & Hrows & Hrest).
  split; [exact Ht|]. split; [|split; assumption].
  intros i Hi. rewrite (Hrows Hr Hc i Hi). apply fillMap_sources_filter.
Qed.

(** The labels [makeHeader] returns: the abbreviations of the speakers of
    the channel map, in its order. *)
Lemma makeHeader_loop_labels (chmap : mp_chmap) (indices : list nat)
    (header : list string) :
  (forall i, In i indices -> canonical (Resolve.speaker_at chmap i) = true) ->
  Widget.makeHeader_loop QT_NO_DEBUG chmap indices header
  = Some (header
          ++ List.map (fun i => ChNames_abbr (Resolve.speaker_at chmap i)) indices).
Proof.
  revert header. induction indices as [|i indices IH]; intros header Hall.
  - cbn [Widget.makeHeader_loop List.map]. rewrite app_nil_r. reflexivity.
  - cbn [Widget.makeHeader_loop List.map]. cbv zeta.
    rewrite (Hall i (or_introl eq_refl)), orb_true_r.
    rewrite IH by (intros k Hk; apply Hall; right; exact Hk).
    rewrite <- app_assoc. reflexivity.
Qed.

Lemma makeHeader_labels (layout : Z) :
  (forall i, i < num (chmap_from_layout layout) ->
             canonical (Resolve.speaker_at (chmap_from_layout layout) i) = true) ->
  Widget.makeHeader QT_NO_DEBUG chmap_from_layout layout
  = Some (List.map (fun i => ChNames_abbr
                               (Resolve.speaker_at (chmap_from_layout layout) i))
                   (seq 0 (num (chmap_from_layout layout))),
          chmap_from_layout layout).
Proof.
  intros Hall. unfold Widget.makeHeader. cbv zeta.
  rewrite makeHeader_loop_labels; [reflexivity|].
  intros i Hi. apply Hall. apply in_seq in Hi. lia.
Qed.

(** The two loops of [makeTable] leave the header labels as they are. *)
Lemma makeTable_cells_labels (input output : Z) (src dest : mp_chmap) (i : nat)
    (l : list nat) (st : QTableWidget * ChannelLayoutMap) :
  verticalHeaderLabels (fst (foldl (makeTable_cell input output src dest i) st l))
  = verticalHeaderLabels (fst st) /\
  horizontalHeaderLabels (fst (foldl (makeTable_cell input output src dest i) st l))
  = horizontalHeaderLabels (fst st).
Proof.
  revert st. induction l as [|j l IH]; intros st; cbn [foldl]; [split; reflexivity|].
  destruct (IH (makeTable_cell input output src dest i st j)) as [Hv Hh].
  rewrite Hv, Hh. split; reflexivity.
Qed.

Lemma makeTable_rows_labels (input output : Z) (src dest : mp_chmap)
    (l : list nat) (st : QTableWidget * ChannelLayoutMap) :
  verticalHeaderLabels (fst (foldl (makeTable_row input output src dest) st l))
  = verticalHeaderLabels (fst st) /\
  horizontalHeaderLabels (fst (foldl (makeTable_row input output src dest) st l))
  = horizontalHeaderLabels (fst st).
Proof.
  revert st. induction l as [|i l IH]; intros st; cbn [foldl]; [split; reflexivity|].
  destruct (IH (makeTable_row input output src dest st i)) as [Hv Hh].
  rewrite Hv, Hh. unfold Widget.makeTable_row. apply makeTable_cells_labels.
Qed.

(** The header labels after [makeTable]. *)
Lemma makeTable_labels (d d' : Widget.Data) :
  Widget.regular chmap_from_layout mp_chmap_reorder_norm (Widget.input d) ->
  Widget.regular chmap_from_layout mp_chmap_reorder_norm (Widget.output d) ->
  makeTable d = Some d' ->
  verticalHeaderLabels (Widget.table d')
  = List.map (fun i => ChNames_abbr
                         (Resolve.speaker_at (chmap_from_layout (Widget.output d)) i))
             (seq 0 (num (chmap_from_layout (Widget.output d)))) /\
  horizontalHeaderLabels (Widget.table d')
  = List.map (fun j => ChNames_abbr
                         (Resolve.speaker_at (chmap_from_layout (Widget.input d)) j))
             (seq 0 (num (chmap_from_layout (Widget.input d)))).
Proof.
  intros (_ & Hin & _) (_ & Hout & _). unfold Widget.makeTable. cbv zeta.
  rewrite (makeHeader_labels _ Hout), (makeHeader_labels _ Hin).
  intros [= <-]. cbn [Widget.table].
  match goal with
  | |- context [foldl ?f ?st ?l] =>
      destruct (makeTable_rows_labels (Widget.input d) (Widget.output d)
                  (norm (Widget.input d)) (norm (Widget.output d)) l st) as [Hv Hh]
  end.
  rewrite Hv, Hh. split; reflexivity.
Qed.

Lemma map_seq_lookup {A : Type} (f : nat -> A) (n i : nat) :
  i < n -> List.map f (seq 0 n) !! i = Some (f i).
Proof.
  assert (H : forall n s i, i < n -> List.map f (seq s n) !! i = Some (f (s + i))).
  { clear. induction n as [|n IH]; intros s i Hi; [lia|].
    destruct i as [|i]; cbn [seq List.map].
    - rewrite Nat.add_0_r. reflexivity.
    - change ((f s :: List.map f (seq (S s) n)) !! S i)
        with (List.map f (seq (S s) n) !! i).
      rewrite IH by lia. f_equal. f_equal. lia. }
  intros Hi. apply (H n 0 i Hi).
Qed.

(** What [makeTable] puts in the table for the two layouts picked in the
    combo boxes, when both are regular. The table gets one row for each
    channel of the output layout and one column for each channel of the
    input layout. The header labels are the abbreviations of the speakers
    of the two channel maps as [mp_chmap_from_str] gives them, taken
    before [mp_chmap_reorder_norm]. Every cell gets an item, checked
    exactly when the entry lists, among the sources of the speaker of its
    row, the speaker of its column, both read from the reordered channel
    maps. So, when the reordering leaves the two channel maps as they are,
    the cell under the labels of speakers x and y is checked exactly when
    the entry lists y among the sources of x. The picked layouts become
    the current ones and every reading of the map is as before. *)
Theorem makeTable_labels_and_checks (d : Widget.Data) :
  Widget.regular chmap_from_layout mp_chmap_reorder_norm (Widget.input d) ->
  Widget.regular chmap_from_layout mp_chmap_reorder_norm (Widget.output d) ->
  exists d',
    makeTable d = Some d' /\
    Widget.currentInput d' = Widget.input d /\
    Widget.currentOutput d' = Widget.output d /\
    rowCount (Widget.table d') = num (chmap_from_layout (Widget.output d)) /\
    columnCount (Widget.table d') = num (chmap_from_layout (Widget.input d)) /\
    verticalHeaderLabels (Widget.table d')
    = List.map (fun i => ChNames_abbr
                           (Resolve.speaker_at (chmap_from_layout (Widget.output d)) i))
               (seq 0 (num (chmap_from_layout (Widget.output d)))) /\
    horizontalHeaderLabels (Widget.table d')
    = List.map (fun j => ChNames_abbr
                           (Resolve.speaker_at (chmap_from_layout (Widget.input d)) j))
               (seq 0 (num (chmap_from_layout (Widget.input d)))) /\
    (forall S D, at_ (Widget.map d') S D = at_ (Widget.map d) S D) /\
    (forall i j,
        i < num (chmap_from_layout (Widget.output d)) ->
        j < num (chmap_from_layout (Widget.input d)) ->
        Table.item (Widget.table d') i j
        = Some (if Widget.contains
                     (CM.sources (at_ (Widget.map d) (Widget.input d) (Widget.output d))
                                 (Resolve.speaker_at (norm (Widget.output d)) i))
                     (Resolve.speaker_at (norm (Widget.input d)) j)
                then Checked else Unchecked)) /\
    ((forall i, i < num (chmap_from_layout (Widget.output d)) ->
                Resolve.speaker_at (norm (Widget.output d)) i
                = Resolve.speaker_at (chmap_from_layout (Widget.output d)) i) ->
     (forall j, j < num (chmap_from_layout (Widget.input d)) ->
                Resolve.speaker_at (norm (Widget.input d)) j
                = Resolve.speaker_at (chmap_from_layout (Widget.input d)) j) ->
     forall i j,
       i < num (chmap_from_layout (Widget.output d)) ->
       j < num (chmap_from_layout (Widget.input d)) ->
       exists x y : Z,
         canonical x = true /\ canonical y = true /\
         verticalHeaderLabels (Widget.table d') !! i = Some (ChNames_abbr x) /\
         horizontalHeaderLabels (Widget.table d') !! j = Some (ChNames_abbr y) /\
         Table.item (Widget.table d') i j
         = Some (if Widget.contains
                      (CM.sources (at_ (Widget.map d) (Widget.input d) (Widget.output d))
                                  x) y
                 then Checked else Unchecked)).
Proof.
  intros Hin Hout.
  destruct (makeTable_spec d Hin Hout)
    as (d' & Hrun & _ & _ & HcI & HcO & Hr & Hc & Hat & Hcells).
  destruct (makeTable_labels d d' Hin Hout Hrun) as [Hv Hh].
  exists d'. split; [exact Hrun|]. split; [exact HcI|]. split; [exact HcO|].
  split; [exact Hr|]. split; [exact Hc|]. split; [exact Hv|]. split; [exact Hh|].
  split; [exact Hat|]. split; [exact Hcells|].
  intros Hnout Hnin i j Hi Hj.
  exists (Resolve.speaker_at (chmap_from_layout (Widget.output d)) i),
         (Resolve.speaker_at (chmap_from_layout (Widget.input d)) j).
  destruct Hin as (_ & Hin & _). destruct Hout as (_ & Hout & _).
  split; [exact (Hout i Hi)|]. split; [exact (Hin j Hj)|].
  split.
  { rewrite Hv.
    exact (map_seq_lookup
             (fun i => ChNames_abbr
                         (Resolve.speaker_at (chmap_from_layout (Widget.output d)) i))
             _ i Hi). }
  split.
  { rewrite Hh.
    exact (map_seq_lookup
             (fun j => ChNames_abbr
                         (Resolve.speaker_at (chmap_from_layout (Widget.input d)) j))
             _ j Hj). }
  rewrite (Hcells i j Hi Hj). unfold Widget.shown.
  rewrite (Hnout i Hi), (Hnin j Hj). reflexivity.
Qed.

(** The check marks survive a change of layouts: when the table shows the
    entry of the two current layouts and the user picks two other layouts
    and then the first two again, the table has the rows and columns it
    had and every cell is checked exactly when it was. All four layouts
    are regular and the two entries fill arrays of [MP_SPEAKER_ID_COUNT]
    slots. *)
Theorem checks_survive_switching (d : Widget.Data) (input' output' : Z) :
  ChNamesSize <= MP_SPEAKER_ID_COUNT ->
  Widget.regular chmap_from_layout mp_chmap_reorder_norm (Widget.currentInput d) ->
  Widget.regular chmap_from_layout mp_chmap_reorder_norm (Widget.currentOutput d) ->
  Widget.regular chmap_from_layout mp_chmap_reorder_norm input' ->
  Widget.regular chmap_from_layout mp_chmap_reorder_norm output' ->
  rowCount (Widget.table d) = num (chmap_from_layout (Widget.currentOutput d)) ->
  columnCount (Widget.table d) = num (chmap_from_layout (Widget.currentInput d)) ->
  length (m_mix (at_ (Widget.map d) (Widget.currentInput d) (Widget.currentOutput d)))
  = MP_SPEAKER_ID_COUNT ->
  length (m_mix (at_ (Widget.map d) input' output')) = MP_SPEAKER_ID_COUNT ->
  exists d2 d3,
    Widget.onComboChanged MP_SPEAKER_ID_COUNT QT_NO_DEBUG chmap_from_layout
      mp_chmap_reorder_norm (Widget.pick input' output' d) = Some d2 /\
    Widget.onComboChanged MP_SPEAKER_ID_COUNT QT_NO_DEBUG chmap_from_layout
      mp_chmap_reorder_norm
      (Widget.pick (Widget.currentInput d) (Widget.currentOutput d) d2) = Some d3 /\
    rowCount (Widget.table d3) = rowCount (Widget.table d) /\
    columnCount (Widget.table d3) = columnCount (Widget.table d) /\
    forall i j,
      i < rowCount (Widget.table d) -> j < columnCount (Widget.table d) ->
      Table.item (Widget.table d3) i j
      = Some (if Widget.checked (Table.item (Widget.table d) i j)
              then Checked else Unchecked).
Proof.
  intros HCOUNT HrI HrO HrI' HrO' Hrows Hcols Hlen Hlen'.
  set (I := Widget.currentInput d) in *. set (O := Widget.currentOutput d) in *.
  pose proof HrI as (_ & _ & _ & HinjI).
  pose proof HrO as (_ & _ & HcanonO & HinjO).
  pose proof HrO' as (_ & _ & HcanonO' & HinjO').
  (* the first change: the table is written into the entry of (I, O) *)
  set (d0 := Widget.pick input' output' d).
  destruct (fillMap_spec d0 HCOUNT Hlen) as
    (Ht1 & Hi1 & Ho1 & HcI1 & HcO1 & Hother1 & Hlen1 & Hrows1 & _).
  { intros i Hi. apply HcanonO. rewrite <- Hrows. exact Hi. }
  { intros a b Ha Hb. apply HinjO; rewrite <- Hrows; assumption. }
  set (d1 := fillMap d0) in *.
  change (Widget.table d0) with (Widget.table d) in *.
  change (Widget.input d0) with input' in *.
  change (Widget.output d0) with output' in *.
  change (Widget.currentInput d0) with I in *.
  change (Widget.currentOutput d0) with O in *.
  change (Widget.map d0) with (Widget.map d) in *.
  (* and the table shows the entry of the picked layouts *)
  destruct (makeTable_spec d1) as
    (d2 & Hrun2 & Hi2 & Ho2 & HcI2 & HcO2 & Hr2 & Hc2 & Hat2 & Hcells2);
    [rewrite Hi1; exact HrI'|rewrite Ho1; exact HrO'|].
  rewrite Hi1 in *. rewrite Ho1 in *.
  exists d2.
  (* the second change: that table is written into the entry of the picked
     layouts *)
  set (d2' := Widget.pick I O d2).
  assert (Hlen2 : length (m_mix (at_ (Widget.map d2') (Widget.currentInput d2')
                                     (Widget.currentOutput d2')))
                  = MP_SPEAKER_ID_COUNT).
  { change (length (m_mix (at_ (Widget.map d2) (Widget.currentInput d2)
                               (Widget.currentOutput d2))) = MP_SPEAKER_ID_COUNT).
    rewrite HcI2, HcO2, Hat2.
    destruct (decide (input' = I /\ output' = O)) as [[-> ->]|Hne];
      [exact Hlen1|]. rewrite Hother1 by exact Hne. exact Hlen'. }
  destruct (fillMap_spec d2' HCOUNT Hlen2) as
    (Ht3 & Hi3 & Ho3 & HcI3 & HcO3 & Hother3 & _ & Hrows3 & _).
  { change (Widget.table d2') with (Widget.table d2).
    change (Widget.currentOutput d2') with (Widget.currentOutput d2).
    rewrite HcO2, Hr2. exact HcanonO'. }
  { change (Widget.table d2') with (Widget.table d2).
    change (Widget.currentOutput d2') with (Widget.currentOutput d2).
    rewrite HcO2, Hr2. exact HinjO'. }
  set (d3' := fillMap d2') in *.
  change (Widget.table d2') with (Widget.table d2) in *.
  change (Widget.input d2') with I in *.
  change (Widget.output d2') with O in *.
  change (Widget.currentInput d2') with (Widget.currentInput d2) in *.
  change (Widget.currentOutput d2') with (Widget.currentOutput d2) in *.
  change (Widget.map d2') with (Widget.map d2) in *.
  rewrite HcI2, HcO2 in *.
  destruct (makeTable_spec d3') as
    (d3 & Hrun3 & _ & _ & _ & _ & Hr4 & Hc4 & _ & Hcells4);
    [rewrite Hi3; exact HrI|rewrite Ho3; exact HrO|].
  rewrite Hi3 in *. rewrite Ho3 in *.
  exists d3. split; [exact Hrun2|]. split; [exact Hrun3|].
  split; [congruence|]. split; [congruence|].
  intros i j Hi Hj.
  rewrite Hcells4 by (rewrite <- ?Hrows, <- ?Hcols; assumption).
  f_equal. rewrite shown_checked, checked_shown.
  (* the sources of the row in the entry of (I, O) after the two changes *)
  assert (R1 : CM.sources (at_ (Widget.map d1) I O) (Resolve.speaker_at (norm O) i)
               = Widget.fillMap_sources (Widget.table d) (norm I) i).
  { apply Hrows1; lia. }
  assert (R : CM.sources (at_ (Widget.map d3') I O) (Resolve.speaker_at (norm O) i)
              = Widget.fillMap_sources (Widget.table d) (norm I) i).
  { destruct (decide (I = input' /\ O = output')) as [[HI HO]|Hne].
    - rewrite <- HI, <- HO in *.
      rewrite Hrows3 by (rewrite ?Hr2, ?Hc2; lia).
      rewrite !fillMap_sources_filter, Hc2, <- Hcols. f_equal.
      apply List.filter_ext_in. intros k Hk. apply in_seq in Hk.
      unfold I, O. rewrite Hcells2 by (fold I O; lia). fold I O.
      rewrite checked_shown, R1.
      apply contains_checked; [|lia].
      intros a b Ha Hb. apply HinjI; rewrite <- Hcols; assumption.
    - rewrite Hother3 by exact Hne. rewrite Hat2. exact R1. }
  rewrite R, contains_checked; [reflexivity| |exact Hj].
  intros a b Ha Hb. apply HinjI; rewrite <- Hcols; assumption.
Qed.

End WidgetFacts.

Lemma SampleWidget_regular_2_0 :
  Widget.regular SampleWidget.chmap_from_layout SampleWidget.mp_chmap_reorder_norm
                 Sample._2_0.
Proof.
  unfold Widget.regular. cbv zeta.
  change (num (SampleWidget.chmap_from_layout Sample._2_0)) with 2.
  split; [reflexivity|]. split; [|split].
  - intros i Hi. destruct i as [|[|i]]; [reflexivity|reflexivity|lia].
  - intros i Hi. destruct i as [|[|i]]; [reflexivity|reflexivity|lia].
  - intros a b Ha Hb H.
    destruct a as [|[|a]]; destruct b as [|[|b]];
      first [reflexivity|lia|discriminate H].
Defined.

Lemma SampleWidget_regular_3_0 :
  Widget.regular SampleWidget.chmap_from_layout SampleWidget.mp_chmap_reorder_norm
                 Sample._3_0.
Proof.
  unfold Widget.regular. cbv zeta.
  change (num (SampleWidget.chmap_from_layout Sample._3_0)) with 3.
  split; [reflexivity|]. split; [|split].
  - intros i Hi. destruct i as [|[|[|i]]]; [reflexivity..|lia].
  - intros i Hi. destruct i as [|[|[|i]]]; [reflexivity..|lia].
  - intros a b Ha Hb H.
    destruct a as [|[|[|a]]]; destruct b as [|[|[|b]]];
      first [reflexivity|lia|discriminate H].
Defined.

Lemma SampleWidget_regular_Mono :
  Widget.regular SampleWidget.chmap_from_layout SampleWidget.mp_chmap_reorder_norm
                 Sample.Mono.
Proof.
  unfold Widget.regular. cbv zeta.
  change (num (SampleWidget.chmap_from_layout Sample.Mono)) with 1.
  split; [reflexivity|]. split; [|split].
  - intros i Hi. destruct i as [|i]; [reflexivity|lia].
  - intros i Hi. destruct i as [|i]; [reflexivity|lia].
  - intros a b Ha Hb H. lia.
Defined.

Lemma fillMap_stores_rows_witness :
  (ChNamesSize <= Sample.MP_SPEAKER_ID_COUNT
   /\ length (m_mix (CLM.at_ Sample.MP_SPEAKER_ID_COUNT
                       (Widget.map SampleWidget.data)
                       (Widget.currentInput SampleWidget.data)
                       (Widget.currentOutput SampleWidget.data)))
      = Sample.MP_SPEAKER_ID_COUNT
   /\ rowCount (Widget.table SampleWidget.data) <> 0
   /\ columnCount (Widget.table SampleWidget.data) <> 0
   /\ (forall i, i < rowCount (Widget.table SampleWidget.data) ->
                 canonical
                   (Resolve.speaker_at
                      (SampleWidget.mp_chmap_reorder_norm
                         (SampleWidget.chmap_from_layout
                            (Widget.currentOutput SampleWidget.data))) i) = true)
   /\ (forall a b,
          a < rowCount (Widget.table SampleWidget.data) ->
          b < rowCount (Widget.table SampleWidget.data) ->
          Resolve.speaker_at
            (SampleWidget.mp_chmap_reorder_norm
               (SampleWidget.chmap_from_layout
                  (Widget.currentOutput SampleWidget.data))) a
          = Resolve.speaker_at
              (SampleWidget.mp_chmap_reorder_norm
                 (SampleWidget.chmap_from_layout
                    (Widget.currentOutput SampleWidget.data))) b ->
          a = b))
  /\ CM.sources
       (CLM.at_ Sample.MP_SPEAKER_ID_COUNT
          (Widget.map
             (Widget.fillMap Sample.MP_SPEAKER_ID_COUNT SampleWidget.chmap_from_layout
                SampleWidget.mp_chmap_reorder_norm SampleWidget.data))
          Sample._3_0 Sample._2_0)
       MP_SPEAKER_ID_FR
     = [MP_SPEAKER_ID_FR; MP_SPEAKER_ID_FC].
Proof.
  assert (H2 : length (m_mix (CLM.at_ Sample.MP_SPEAKER_ID_COUNT
                                (Widget.map SampleWidget.data)
                                (Widget.currentInput SampleWidget.data)
                                (Widget.currentOutput SampleWidget.data)))
               = Sample.MP_SPEAKER_ID_COUNT) by reflexivity.
  assert (H3 : rowCount (Widget.table SampleWidget.data) <> 0) by discriminate.
  assert (H4 : columnCount (Widget.table SampleWidget.data) <> 0) by discriminate.
  destruct SampleWidget_regular_2_0 as (_ & _ & H5 & H6).
  split.
  { split; [exact Sample_COUNT_covers|]. split; [exact H2|]. split; [exact H3|].
    split; [exact H4|]. split; [exact H5|exact H6]. }
  destruct (fillMap_stores_rows Sample.MP_SPEAKER_ID_COUNT
              SampleWidget.chmap_from_layout SampleWidget.mp_chmap_reorder_norm
              SampleWidget.data Sample_COUNT_covers H2 H3 H4 H5 H6)
    as (_ & Hrows & _).
  exact (Hrows 1 ltac:(cbn; lia)).
Defined.

(** The table made for the entry of (3.0, 2.0) that feeds FL from FL and
    FC and FR from FR and FC. *)
Lemma makeTable_labels_and_checks_witness :
  (Widget.regular SampleWidget.chmap_from_layout SampleWidget.mp_chmap_reorder_norm
     (Widget.input SampleWidget.loaded)
   /\ Widget.regular SampleWidget.chmap_from_layout SampleWidget.mp_chmap_reorder_norm
        (Widget.output SampleWidget.loaded))
  /\ exists d',
      Widget.makeTable Sample.MP_SPEAKER_ID_COUNT Sample.QT_NO_DEBUG
        SampleWidget.chmap_from_layout SampleWidget.mp_chmap_reorder_norm
        SampleWidget.loaded = Some d' /\
      Widget.currentInput d' = Sample._3_0 /\
      Widget.currentOutput d' = Sample._2_0 /\
      rowCount (Widget.table d') = 2 /\
      columnCount (Widget.table d') = 3 /\
      verticalHeaderLabels (Widget.table d') = ["FL"; "FR"] /\
      horizontalHeaderLabels (Widget.table d') = ["FL"; "FR"; "FC"] /\
      Table.item (Widget.table d') 0 0 = Some Checked /\
      Table.item (Widget.table d') 0 1 = Some Unchecked /\
      Table.item (Widget.table d') 0 2 = Some Checked /\
      Table.item (Widget.table d') 1 0 = Some Unchecked /\
      Table.item (Widget.table d') 1 1 = Some Checked /\
      Table.item (Widget.table d') 1 2 = Some Checked.
Proof.
  split; [split; [exact SampleWidget_regular_3_0|exact SampleWidget_regular_2_0]|].
  destruct (makeTable_labels_and_checks Sample.MP_SPEAKER_ID_COUNT Sample.QT_NO_DEBUG
              SampleWidget.chmap_from_layout SampleWidget.mp_chmap_reorder_norm
              SampleWidget.loaded SampleWidget_regular_3_0 SampleWidget_regular_2_0)
    as (d' & Hrun & HcI & HcO & Hr & Hc & Hv & Hh & _ & Hcells & _).
  exists d'. split; [exact Hrun|]. split; [exact HcI|]. split; [exact HcO|].
  split; [exact Hr|]. split; [exact Hc|]. split; [exact Hv|]. split; [exact Hh|].
  split; [exact (Hcells 0 0 ltac:(vm_compute; lia) ltac:(vm_compute; lia))|].
  split; [exact (Hcells 0 1 ltac:(vm_compute; lia) ltac:(vm_compute; lia))|].
  split; [exact (Hcells 0 2 ltac:(vm_compute; lia) ltac:(vm_compute; lia))|].
  split; [exact (Hcells 1 0 ltac:(vm_compute; lia) ltac:(vm_compute; lia))|].
  split; [exact (Hcells 1 1 ltac:(vm_compute; lia) ltac:(vm_compute; lia))|].
  exact (Hcells 1 2 ltac:(vm_compute; lia) ltac:(vm_compute; lia)).
Defined.

Lemma checks_survive_switching_witness :
  (ChNamesSize <= Sample.MP_SPEAKER_ID_COUNT
   /\ Widget.regular SampleWidget.chmap_from_layout SampleWidget.mp_chmap_reorder_norm
        (Widget.currentInput SampleWidget.data)
   /\ Widget.regular SampleWidget.chmap_from_layout SampleWidget.mp_chmap_reorder_norm
        (Widget.currentOutput SampleWidget.data)
   /\ Widget.regular SampleWidget.chmap_from_layout SampleWidget.mp_chmap_reorder_norm
        Sample._2_0
   /\ Widget.regular SampleWidget.chmap_from_layout SampleWidget.mp_chmap_reorder_norm
        Sample.Mono
   /\ rowCount (Widget.table SampleWidget.data)
      = num (SampleWidget.chmap_from_layout (Widget.currentOutput SampleWidget.data))
   /\ columnCount (Widget.table SampleWidget.data)
      = num (SampleWidget.chmap_from_layout (Widget.currentInput SampleWidget.data))
   /\ length (m_mix (CLM.at_ Sample.MP_SPEAKER_ID_COUNT
                       (Widget.map SampleWidget.data)
                       (Widget.currentInput SampleWidget.data)
                       (Widget.currentOutput SampleWidget.data)))
      = Sample.MP_SPEAKER_ID_COUNT
   /\ length (m_mix (CLM.at_ Sample.MP_SPEAKER_ID_COUNT
                       (Widget.map SampleWidget.data) Sample._2_0 Sample.Mono))
      = Sample.MP_SPEAKER_ID_COUNT)
  /\ exists d2 d3,
      Widget.onComboChanged Sample.MP_SPEAKER_ID_COUNT Sample.QT_NO_DEBUG
        SampleWidget.chmap_from_layout SampleWidget.mp_chmap_reorder_norm
        (Widget.pick Sample._2_0 Sample.Mono SampleWidget.data) = Some d2 /\
      Widget.onComboChanged Sample.MP_SPEAKER_ID_COUNT Sample.QT_NO_DEBUG
        SampleWidget.chmap_from_layout SampleWidget.mp_chmap_reorder_norm
        (Widget.pick (Widget.currentInput SampleWidget.data)
                     (Widget.currentOutput SampleWidget.data) d2) = Some d3 /\
      rowCount (Widget.table d3) = rowCount (Widget.table SampleWidget.data) /\
      columnCount (Widget.table d3) = columnCount (Widget.table SampleWidget.data) /\
      forall i j,
        i < rowCount (Widget.table SampleWidget.data) ->
        j < columnCount (Widget.table SampleWidget.data) ->
        Table.item (Widget.table d3) i j
        = Some (if Widget.checked (Table.item (Widget.table SampleWidget.data) i j)
                then Checked else Unchecked).
Proof.
  assert (H2 : rowCount (Widget.table SampleWidget.data)
               = num (SampleWidget.chmap_from_layout
                        (Widget.currentOutput SampleWidget.data))) by reflexivity.
  assert (H3 : columnCount (Widget.table SampleWidget.data)
               = num (SampleWidget.chmap_from_layout
                        (Widget.currentInput SampleWidget.data))) by reflexivity.
  assert (H4 : length (m_mix (CLM.at_ Sample.MP_SPEAKER_ID_COUNT
                                (Widget.map SampleWidget.data)
                                (Widget.currentInput SampleWidget.data)
                                (Widget.currentOutput SampleWidget.data)))
               = Sample.MP_SPEAKER_ID_COUNT) by reflexivity.
  assert (H5 : length (m_mix (CLM.at_ Sample.MP_SPEAKER_ID_COUNT
                                (Widget.map SampleWidget.data) Sample._2_0 Sample.Mono))
               = Sample.MP_SPEAKER_ID_COUNT) by reflexivity.
  split.
  { split; [exact Sample_COUNT_covers|].
    split; [exact SampleWidget_regular_3_0|].
    split; [exact SampleWidget_regular_2_0|].
    split; [exact SampleWidget_regular_2_0|].
    split; [exact SampleWidget_regular_Mono|].
    split; [exact H2|]. split; [exact H3|]. split; [exact H4|exact H5]. }
  exact (checks_survive_switching Sample.MP_SPEAKER_ID_COUNT Sample.QT_NO_DEBUG
           SampleWidget.chmap_from_layout SampleWidget.mp_chmap_reorder_norm
           SampleWidget.data Sample._2_0 Sample.Mono Sample_COUNT_covers
           SampleWidget_regular_3_0 SampleWidget_regular_2_0
           SampleWidget_regular_2_0 SampleWidget_regular_Mono H2 H3 H4 H5).
Defined.

(** ** The entries of a destination layout with two speakers *)

Section Stereo.

Variable MP_SPEAKER_ID_COUNT : nat.
Variables Default Mono : Z.
Variable QT_NO_DEBUG : bool.
Variable items : list Z.

Hypothesis COUNT_covers : ChNamesSize <= MP_SPEAKER_ID_COUNT.
Hypothesis items_distinct : List.NoDup items.
Hypothesis items_no_abort :
  QT_NO_DEBUG = true \/ Derivation.stereo_based Default Mono items.

Local Abbreviation mp := Speaker.to_mp_speaker_id.
Local Abbreviation fresh := (replicate MP_SPEAKER_ID_COUNT (@nil Z)).
Local Abbreviation contribution dstLayout d :=
  (fun srcSpeaker : SpeakerId =>
     match CLM.mixSpeaker Mono QT_NO_DEBUG dstLayout srcSpeaker fresh with
     | Some (_, more) => CM.sources (mkChannelManipulation more) d
     | None => []
     end).




End Stereo.


(** ** A map on its way through the widget *)

Section WidgetMap.

Variable MP_SPEAKER_ID_COUNT : nat.
Variable QT_NO_DEBUG : bool.
Variable chmap_from_layout : Z -> mp_chmap.
Variable mp_chmap_reorder_norm : mp_chmap -> mp_chmap.

Local Abbreviation at_ := (CLM.at_ MP_SPEAKER_ID_COUNT).
Local Abbreviation norm layout := (mp_chmap_reorder_norm (chmap_from_layout layout)).

(** [setMap(m)] followed by [map()]: in the entry of the two picked
    layouts the speaker of each row keeps, of its sources, the speakers of
    the columns, each once and from left to right; a source that is no
    channel of the input layout is lost. The destinations that are no row
    and the other entries are as in [m]. *)
Theorem setMap_then_map (d : Widget.Data) (m : ChannelLayoutMap) :
  ChNamesSize <= MP_SPEAKER_ID_COUNT ->
  Widget.regular chmap_from_layout mp_chmap_reorder_norm (Widget.input d) ->
  Widget.regular chmap_from_layout mp_chmap_reorder_norm (Widget.output d) ->
  num (chmap_from_layout (Widget.input d)) <> 0 ->
  length (m_mix (at_ m (Widget.input d) (Widget.output d))) = MP_SPEAKER_ID_COUNT ->
  exists d',
    Widget.setMap MP_SPEAKER_ID_COUNT QT_NO_DEBUG chmap_from_layout
      mp_chmap_reorder_norm m d = Some d' /\
    let m' := fst (Widget.map_ MP_SPEAKER_ID_COUNT chmap_from_layout
                     mp_chmap_reorder_norm d') in
    (forall i,
        i < num (chmap_from_layout (Widget.output d)) ->
        CM.sources (at_ m' (Widget.input d) (Widget.output d))
                   (Resolve.speaker_at (norm (Widget.output d)) i)
        = List.map (Resolve.speaker_at (norm (Widget.input d)))
            (List.filter
               (fun j =>
                  Widget.contains
                    (CM.sources (at_ m (Widget.input d) (Widget.output d))
                                (Resolve.speaker_at (norm (Widget.output d)) i))
                    (Resolve.speaker_at (norm (Widget.input d)) j))
               (seq 0 (num (chmap_from_layout (Widget.input d)))))) /\
    (forall dest,
        (forall i, i < num (chmap_from_layout (Widget.output d)) ->
                   Resolve.speaker_at (norm (Widget.output d)) i <> dest) ->
        CM.sources (at_ m' (Widget.input d) (Widget.output d)) dest
        = CM.sources (at_ m (Widget.input d) (Widget.output d)) dest) /\
    (forall S D, ~ (S = Widget.input d /\ D = Widget.output d) ->
                 at_ m' S D = at_ m S D).
Proof.
  intros HCOUNT HrI HrO Hcols Hlen.
  pose proof HrO as (_ & _ & HcanonO & HinjO).
  set (d0 := Widget.mkData (Widget.output d) (Widget.input d) (Widget.table d) m
                           (Widget.currentInput d) (Widget.currentOutput d)).
  destruct (makeTable_spec MP_SPEAKER_ID_COUNT QT_NO_DEBUG chmap_from_layout
              mp_chmap_reorder_norm d0 HrI HrO)
    as (d' & Hrun & _ & _ & HcI & HcO & Hr & Hc & Hat & Hcells).
  change (Widget.input d0) with (Widget.input d) in *.
  change (Widget.output d0) with (Widget.output d) in *.
  change (Widget.map d0) with m in *.
  exists d'. split; [exact Hrun|]. cbv zeta. unfold Widget.map_. cbn [fst].
  destruct (fillMap_spec MP_SPEAKER_ID_COUNT chmap_from_layout mp_chmap_reorder_norm
              d' HCOUNT)
    as (_ & _ & _ & _ & _ & Hother & _ & Hrows & Hrest).
  { rewrite HcI, HcO, Hat. exact Hlen. }
  { rewrite HcO, Hr. exact HcanonO. }
  { rewrite HcO, Hr. exact HinjO. }
  rewrite HcI, HcO, Hr, Hc in *.
  split; [|split].
  - intros i Hi. rewrite Hrows by lia.
    rewrite fillMap_sources_filter, Hc. f_equal.
    apply List.filter_ext_in. intros j Hj. apply in_seq in Hj.
    rewrite Hcells by lia. apply checked_shown.
  - intros dest Hdest. rewrite (Hrest dest Hdest), Hat. reflexivity.
  - intros S D Hne. rewrite (Hother S D Hne). apply Hat.
Qed.

End WidgetMap.

Lemma setMap_then_map_witness :
  (ChNamesSize <= Sample.MP_SPEAKER_ID_COUNT
   /\ Widget.regular SampleWidget.chmap_from_layout SampleWidget.mp_chmap_reorder_norm
        (Widget.input SampleWidget.data)
   /\ Widget.regular SampleWidget.chmap_from_layout SampleWidget.mp_chmap_reorder_norm
        (Widget.output SampleWidget.data)
   /\ num (SampleWidget.chmap_from_layout (Widget.input SampleWidget.data)) <> 0
   /\ length (m_mix (CLM.at_ Sample.MP_SPEAKER_ID_COUNT Sample.edited
                       (Widget.input SampleWidget.data)
                       (Widget.output SampleWidget.data)))
      = Sample.MP_SPEAKER_ID_COUNT)
  /\ exists d',
      Widget.setMap Sample.MP_SPEAKER_ID_COUNT Sample.QT_NO_DEBUG
        SampleWidget.chmap_from_layout SampleWidget.mp_chmap_reorder_norm
        Sample.edited SampleWidget.data = Some d' /\
      forall S D,
        ~ (S = Widget.input SampleWidget.data /\ D = Widget.output SampleWidget.data) ->
        CLM.at_ Sample.MP_SPEAKER_ID_COUNT
          (fst (Widget.map_ Sample.MP_SPEAKER_ID_COUNT SampleWidget.chmap_from_layout
                  SampleWidget.mp_chmap_reorder_norm d')) S D
        = CLM.at_ Sample.MP_SPEAKER_ID_COUNT Sample.edited S D.
Proof.
  assert (H4 : num (SampleWidget.chmap_from_layout (Widget.input SampleWidget.data))
               <> 0) by discriminate.
  assert (H5 : length (m_mix (CLM.at_ Sample.MP_SPEAKER_ID_COUNT Sample.edited
                                (Widget.input SampleWidget.data)
                                (Widget.output SampleWidget.data)))
               = Sample.MP_SPEAKER_ID_COUNT) by reflexivity.
  split.
  { split; [exact Sample_COUNT_covers|].
    split; [exact SampleWidget_regular_3_0|].
    split; [exact SampleWidget_regular_2_0|]. split; [exact H4|exact H5]. }
  destruct (setMap_then_map Sample.MP_SPEAKER_ID_COUNT Sample.QT_NO_DEBUG
              SampleWidget.chmap_from_layout SampleWidget.mp_chmap_reorder_norm
              SampleWidget.data Sample.edited Sample_COUNT_covers
              SampleWidget_regular_3_0 SampleWidget_regular_2_0 H4 H5)
    as (d' & Hrun & _ & _ & Hother).
  exists d'. split; [exact Hrun|exact Hother].
Defined.
